(** * loopback-sdk-angular: the service generator of [lib/services.js]

    A shallow embedding of [generateServices] and of the functions it
    calls ([getFormattedModelName], [describeModels], [buildScopes],
    [buildScopesOfModel], [buildScopeMethod], [findModelByName],
    [buildSchemas]), followed by the properties proved about them.

    Conventions of the embedding.
    - A JavaScript string is a [string] of code units below 128; model,
      method and relation names are identifiers.  [toUpperCase] and
      [toLowerCase] are the ASCII case maps.
    - A thrown exception is the [Throw] result; [TypeError] is what the
      engine raises on a property read from [undefined].
    - Method objects live in a store ([Heap]) and are named by their
      address, because [Object.create(method)] makes a clone that
      delegates every property it does not own to its parent, and the
      code mutates parents after cloning them.  Class objects are held
      by value in the model map: each is reachable under one key only.
    - A JavaScript object used as a map whose iteration order matters
      ([models]) is an association list in insertion order; one whose
      order is not observed by this file ([scopes], [methods] of a
      scope, [app.models]) is a [gmap].  The [scopes] of a class are
      read with a name taken from a method name, so the lookup there
      goes on to [Object.prototype] ([inheritedKey]).  The keys of the
      model map and of [app.models] are formatted model names: they are
      not array indices (which JavaScript would enumerate first) and
      not [__proto__] (an assignment to which sets no key).
    - [accepts] is always an array, as strong-remoting makes it, and
      [c.sharedClass.ctor], [method.restClass], [method.sharedMethod],
      [app.loopback.User] and the [definition] of an entry of
      [app.models] are there; the [settings] of a constructor are there
      or not ([c_settings]).
    - The replacement string of [String.prototype.replace] is read with
      its dollar patterns ([substitution]). *)

From Stdlib Require Import Ascii String List Bool Arith Lia.
From stdpp Require Import base option list strings gmap fin_maps.

Local Open Scope string_scope.
Local Open Scope list_scope.

(** ** Results of computations that may throw *)

Inductive Error :=
| TypeError (msg : string)
| PlainError (msg : string).

Inductive Result (A : Type) :=
| Ok (a : A)
| Throw (e : Error).
Arguments Ok {A} a.
Arguments Throw {A} e.

#[global] Instance Result_bind : MBind Result := fun A B k r =>
  match r with
  | Ok a => k a
  | Throw e => Throw e
  end.

#[global] Instance Result_ret : MRet Result := fun A a => Ok a.

Definition ofOption {A} (msg : string) (o : option A) : Result A :=
  match o with
  | Some a => Ok a
  | None => Throw (TypeError msg)
  end.

(** [arr.forEach(f)] for a callback that threads a state and may throw. *)
Fixpoint forEachR {A S} (f : S -> A -> Result S) (l : list A) (s : S) : Result S :=
  match l with
  | [] => Ok s
  | x :: l' => s' ← f s x; forEachR f l' s'
  end.

(** ** JavaScript string primitives used by the generator *)

Module JsString.

Definition upper_char (c : ascii) : ascii :=
  let n := nat_of_ascii c in
  if Nat.leb 97 n && Nat.leb n 122 then ascii_of_nat (n - 32) else c.

Definition lower_char (c : ascii) : ascii :=
  let n := nat_of_ascii c in
  if Nat.leb 65 n && Nat.leb n 90 then ascii_of_nat (n + 32) else c.

Fixpoint toUpperCase (s : string) : string :=
  match s with
  | EmptyString => EmptyString
  | String c s' => String (upper_char c) (toUpperCase s')
  end.

Fixpoint toLowerCase (s : string) : string :=
  match s with
  | EmptyString => EmptyString
  | String c s' => String (lower_char c) (toLowerCase s')
  end.

(** [s.startsWith(p)], returning what follows [p]. *)
Fixpoint strip_prefix (p s : string) : option string :=
  match p, s with
  | EmptyString, _ => Some s
  | String _ _, EmptyString => None
  | String a p', String b s' =>
      if Ascii.eqb a b then strip_prefix p' s' else None
  end.

(** [s.replace(pat, repl)] for a literal, non-empty [pat] and a
    replacement without [$]: the leftmost occurrence is replaced. *)
Fixpoint replace_first (pat repl s : string) : string :=
  match strip_prefix pat s with
  | Some rest => repl +:+ rest
  | None =>
      match s with
      | EmptyString => EmptyString
      | String c s' => String c (replace_first pat repl s')
      end
  end.

(** [s.match(/pat/)] is truthy, for a literal [pat]. *)
Fixpoint contains (pat s : string) : bool :=
  match strip_prefix pat s with
  | Some _ => true
  | None =>
      match s with
      | EmptyString => false
      | String _ s' => contains pat s'
      end
  end.

(** The regular expression dot: any code unit but a line terminator. *)
Definition is_line_terminator (c : ascii) : bool :=
  Ascii.eqb c "010"%char || Ascii.eqb c "013"%char.

Fixpoint no_line_terminator (s : string) : bool :=
  match s with
  | EmptyString => true
  | String c s' => negb (is_line_terminator c) && no_line_terminator s'
  end.

(** The longest prefix matching [[^_]*], and the rest. *)
Fixpoint span_not_underscore (s : string) : string * string :=
  match s with
  | EmptyString => (EmptyString, EmptyString)
  | String c s' =>
      if Ascii.eqb c "_"%char then (EmptyString, s)
      else let '(a, b) := span_not_underscore s' in (String c a, b)
  end.

Definition is_empty (s : string) : bool :=
  match s with EmptyString => true | _ => false end.

Fixpoint all_slashes (s : string) : bool :=
  match s with
  | EmptyString => true
  | String c s' => Ascii.eqb c "/"%char && all_slashes s'
  end.

(** [s.replace(/\/+$/, '')]: the leftmost position from which a
    non-empty run of slashes reaches the end of the input is where the
    match starts; the match is replaced by the empty string. *)
Fixpoint strip_trailing_slashes (s : string) : string :=
  match s with
  | EmptyString => EmptyString
  | String c s' =>
      if all_slashes s then EmptyString
      else String c (strip_trailing_slashes s')
  end.

Fixpoint slashes (k : nat) : string :=
  match k with
  | O => EmptyString
  | S k' => String "/"%char (slashes k')
  end.

Fixpoint last_char (s : string) : option ascii :=
  match s with
  | EmptyString => None
  | String c EmptyString => Some c
  | String _ s' => last_char s'
  end.

(** [arr.join('\n')] on an array of strings. *)
Fixpoint join_lines (l : list string) : string :=
  match l with
  | [] => EmptyString
  | [x] => x
  | x :: l' => x +:+ String "010"%char (join_lines l')
  end.

End JsString.

(** ** Options *)

Record Options := mkOptions {
  ngModuleName : string;
  apiUrl : string;
  includeCommonModules : bool;
  namespaceModels : bool;
  namespaceCommonModels : bool;
  namespaceDelimiter : string;
  modelsToIgnore : list string;
  comments : bool;
  includeSchema : bool;
}.

(** The defaults that [generateServices] extends with the caller's
    options ([includeSchema] is absent there, hence falsy). *)
Definition defaultOptions : Options :=
  {| ngModuleName := "lbServices";
     apiUrl := "/";
     includeCommonModules := true;
     namespaceModels := false;
     namespaceCommonModels := false;
     namespaceDelimiter := ".";
     modelsToIgnore := [];
     comments := false;
     includeSchema := false |}.

Definition with_namespaceModels (b : bool) (o : Options) : Options :=
  {| ngModuleName := ngModuleName o;
     apiUrl := apiUrl o;
     includeCommonModules := includeCommonModules o;
     namespaceModels := b;
     namespaceCommonModels := namespaceCommonModels o;
     namespaceDelimiter := namespaceDelimiter o;
     modelsToIgnore := modelsToIgnore o;
     comments := comments o;
     includeSchema := includeSchema o |}.

(** ** [getFormattedModelName] *)

(** [modelName[0]] is [undefined] on the empty string, and
    [undefined.toUpperCase()] throws. *)
Definition getFormattedModelName (modelName : string) (options : Options)
  : Result string :=
  match modelName with
  | EmptyString =>
      Throw (TypeError "Cannot read properties of undefined (reading 'toUpperCase')")
  | String c rest =>
      let resourceModelName :=
        JsString.toUpperCase (String c EmptyString) +:+ rest in
      if namespaceModels options then
        Ok (ngModuleName options +:+ namespaceDelimiter options
              +:+ resourceModelName)
      else Ok resourceModelName
  end.

(** ** [SCOPE_METHOD_REGEX] *)

(** [name.match(/^prototype.__([^_]+)__(.+)$/)]: the captures [op] and
    [scopeName].  The class [[^_]+] cannot give back a character (what
    follows a shorter run is not an underscore), so the match is the one
    with the longest run. *)
Definition scope_method_match (name : string) : option (string * string) :=
  match JsString.strip_prefix "prototype" name with
  | Some (String dot rest1) =>
      if JsString.is_line_terminator dot then None
      else
        match JsString.strip_prefix "__" rest1 with
        | Some rest2 =>
            let '(op, rest3) := JsString.span_not_underscore rest2 in
            if JsString.is_empty op then None
            else
              match JsString.strip_prefix "__" rest3 with
              | Some scopeName =>
                  if JsString.is_empty scopeName then None
                  else if JsString.no_line_terminator scopeName
                       then Some (op, scopeName)
                       else None
              | None => None
              end
        | None => None
        end
  | _ => None
  end.

(** The API name derived in [buildScopeMethod] from the operation and
    the relation name. *)
Definition apiNameOf (op scopeName : string) : string :=
  if String.eqb op "get" then scopeName
  else if String.eqb op "delete" then scopeName +:+ ".destroyAll"
  else scopeName +:+ "." +:+ op.

(** [modelName[0].toUpperCase() + modelName.slice(1)] on a key of the
    model map (never empty there). *)
Definition capitalize (s : string) : string :=
  match s with
  | EmptyString => EmptyString
  | String c rest => JsString.toUpperCase (String c EmptyString) +:+ rest
  end.

Definition reverseNameOf (op modelName scopeName : string) : string :=
  "::" +:+ op +:+ "::" +:+ modelName +:+ "::" +:+ scopeName.

Definition internalNote (modelName apiName : string) : string :=
  "Use " +:+ capitalize modelName +:+ "." +:+ apiName +:+ "() instead.".

(** ** Method objects *)

(** [arg.http], when present, with its [source]. *)
Record Http := mkHttp { source : option string }.

(** One entry of [accepts]. *)
Record Arg := mkArg {
  arg : string;
  argType : string;
  http : option Http;
}.

(** A value of a loosely typed property: absent, a boolean or a string. *)
Inductive JsVal :=
| JsUndefined
| JsBool (b : bool)
| JsString (s : string).

(** A description is a string or an array of strings, when there is one. *)
Inductive Description :=
| DescUndefined
| DescString (s : string)
| DescArray (l : list string).

Definition normalizeDescription (desc : Description) : Description :=
  match desc with
  | DescArray l => DescString (JsString.join_lines l)
  | _ => desc
  end.

(** [restClass.ctor]: the shared constructor as a rest method. *)
Record Ctor := mkCtor { ctor_accepts : list Arg }.

(** What a method object answers when its properties are read, whether
    it owns them or finds them along its prototype chain. *)
Record MethodFields := mkMethod {
  name : string;
  accepts : list Arg;
  isStatic : bool;                    (* sharedMethod.isStatic *)
  restClass_ctor : option Ctor;       (* restClass.ctor *)
  isReturningArray : bool;            (* isReturningArray() *)
  resourceParams : option (list Arg); (* undefined until first needed *)
  hasResourceParams : bool;
  description : Description;
  internal : JsVal;
  deprecated : JsVal;
}.

(** The properties a clone made by [Object.create] owns: those assigned
    to it since its creation. *)
Record Overrides := mkOverrides {
  o_name : option string;
  o_accepts : option (list Arg);
  o_isReturningArray : option bool;
  o_resourceParams : option (list Arg);
  o_hasResourceParams : option bool;
  o_description : option Description;
  o_internal : option JsVal;
  o_deprecated : option JsVal;
}.

Definition noOverrides : Overrides :=
  mkOverrides None None None None None None None None.

Inductive Cell :=
| Plain (f : MethodFields)
| Clone (parent : nat) (o : Overrides).

(** The store of method objects.  The newest object is at the head; the
    address of an object is the number of objects older than it, so an
    address stays valid when the store grows. *)
Definition Heap := list Cell.

Definition apply_overrides (o : Overrides) (f : MethodFields) : MethodFields :=
  {| name := default (name f) (o_name o);
     accepts := default (accepts f) (o_accepts o);
     isStatic := isStatic f;
     restClass_ctor := restClass_ctor f;
     isReturningArray := default (isReturningArray f) (o_isReturningArray o);
     resourceParams :=
       match o_resourceParams o with
       | Some l => Some l
       | None => resourceParams f
       end;
     hasResourceParams := default (hasResourceParams f) (o_hasResourceParams o);
     description := default (description f) (o_description o);
     internal := default (internal f) (o_internal o);
     deprecated := default (deprecated f) (o_deprecated o) |}.

(** Property lookup: the object's own properties first, then those of
    its prototype, which is an older object. *)
Fixpoint view (h : Heap) (m : nat) : option MethodFields :=
  match h with
  | [] => None
  | cell :: older =>
      if Nat.eqb m (length older) then
        match cell with
        | Plain f => Some f
        | Clone p o => apply_overrides o <$> view older p
        end
      else view older m
  end.

(** Reading a property of an element that is not an object throws. *)
Definition readMethod (h : Heap) (m : nat) : Result MethodFields :=
  ofOption "Cannot read properties of undefined" (view h m).

Fixpoint update (g : Cell -> Cell) (h : Heap) (m : nat) : Heap :=
  match h with
  | [] => []
  | cell :: older =>
      if Nat.eqb m (length older) then g cell :: older
      else cell :: update g older m
  end.

(** [Object.create(parent)]: a new object, its address. *)
Definition objectCreate (h : Heap) (parent : nat) : Heap * nat :=
  (Clone parent noOverrides :: h, length h).

(** Assignments [method.p = v]: always on the object itself, whether it
    is a method of the registry or a clone. *)
Definition f_set_name (v : string) (f : MethodFields) : MethodFields :=
  mkMethod v (accepts f) (isStatic f) (restClass_ctor f)
    (isReturningArray f) (resourceParams f) (hasResourceParams f)
    (description f) (internal f) (deprecated f).

Definition o_set_name (v : string) (o : Overrides) : Overrides :=
  mkOverrides (Some v) (o_accepts o) (o_isReturningArray o)
    (o_resourceParams o) (o_hasResourceParams o) (o_description o)
    (o_internal o) (o_deprecated o).

Definition set_name (v : string) (c : Cell) : Cell :=
  match c with
  | Plain f => Plain (f_set_name v f)
  | Clone p o => Clone p (o_set_name v o)
  end.

Definition f_set_accepts (v : list Arg) (f : MethodFields) : MethodFields :=
  mkMethod (name f) v (isStatic f) (restClass_ctor f) (isReturningArray f)
    (resourceParams f) (hasResourceParams f) (description f) (internal f)
    (deprecated f).

Definition o_set_accepts (v : list Arg) (o : Overrides) : Overrides :=
  mkOverrides (o_name o) (Some v) (o_isReturningArray o)
    (o_resourceParams o) (o_hasResourceParams o) (o_description o)
    (o_internal o) (o_deprecated o).

Definition set_accepts (v : list Arg) (c : Cell) : Cell :=
  match c with
  | Plain f => Plain (f_set_accepts v f)
  | Clone p o => Clone p (o_set_accepts v o)
  end.

Definition f_set_isReturningArray (v : bool) (f : MethodFields) : MethodFields :=
  mkMethod (name f) (accepts f) (isStatic f) (restClass_ctor f) v
    (resourceParams f) (hasResourceParams f) (description f) (internal f)
    (deprecated f).

Definition o_set_isReturningArray (v : bool) (o : Overrides) : Overrides :=
  mkOverrides (o_name o) (o_accepts o) (Some v) (o_resourceParams o)
    (o_hasResourceParams o) (o_description o) (o_internal o)
    (o_deprecated o).

Definition set_isReturningArray (v : bool) (c : Cell) : Cell :=
  match c with
  | Plain f => Plain (f_set_isReturningArray v f)
  | Clone p o => Clone p (o_set_isReturningArray v o)
  end.

Definition f_set_resourceParams (v : list Arg) (f : MethodFields) : MethodFields :=
  mkMethod (name f) (accepts f) (isStatic f) (restClass_ctor f)
    (isReturningArray f) (Some v) (hasResourceParams f) (description f)
    (internal f) (deprecated f).

Definition o_set_resourceParams (v : list Arg) (o : Overrides) : Overrides :=
  mkOverrides (o_name o) (o_accepts o) (o_isReturningArray o) (Some v)
    (o_hasResourceParams o) (o_description o) (o_internal o)
    (o_deprecated o).

Definition set_resourceParams (v : list Arg) (c : Cell) : Cell :=
  match c with
  | Plain f => Plain (f_set_resourceParams v f)
  | Clone p o => Clone p (o_set_resourceParams v o)
  end.

Definition f_set_hasResourceParams (v : bool) (f : MethodFields) : MethodFields :=
  mkMethod (name f) (accepts f) (isStatic f) (restClass_ctor f)
    (isReturningArray f) (resourceParams f) v (description f) (internal f)
    (deprecated f).

Definition o_set_hasResourceParams (v : bool) (o : Overrides) : Overrides :=
  mkOverrides (o_name o) (o_accepts o) (o_isReturningArray o)
    (o_resourceParams o) (Some v) (o_description o) (o_internal o)
    (o_deprecated o).

Definition set_hasResourceParams (v : bool) (c : Cell) : Cell :=
  match c with
  | Plain f => Plain (f_set_hasResourceParams v f)
  | Clone p o => Clone p (o_set_hasResourceParams v o)
  end.

Definition f_set_description (v : Description) (f : MethodFields) : MethodFields :=
  mkMethod (name f) (accepts f) (isStatic f) (restClass_ctor f)
    (isReturningArray f) (resourceParams f) (hasResourceParams f) v
    (internal f) (deprecated f).

Definition o_set_description (v : Description) (o : Overrides) : Overrides :=
  mkOverrides (o_name o) (o_accepts o) (o_isReturningArray o)
    (o_resourceParams o) (o_hasResourceParams o) (Some v) (o_internal o)
    (o_deprecated o).

Definition set_description (v : Description) (c : Cell) : Cell :=
  match c with
  | Plain f => Plain (f_set_description v f)
  | Clone p o => Clone p (o_set_description v o)
  end.

Definition f_set_internal (v : JsVal) (f : MethodFields) : MethodFields :=
  mkMethod (name f) (accepts f) (isStatic f) (restClass_ctor f)
    (isReturningArray f) (resourceParams f) (hasResourceParams f)
    (description f) v (deprecated f).

Definition o_set_internal (v : JsVal) (o : Overrides) : Overrides :=
  mkOverrides (o_name o) (o_accepts o) (o_isReturningArray o)
    (o_resourceParams o) (o_hasResourceParams o) (o_description o) (Some v)
    (o_deprecated o).

Definition set_internal (v : JsVal) (c : Cell) : Cell :=
  match c with
  | Plain f => Plain (f_set_internal v f)
  | Clone p o => Clone p (o_set_internal v o)
  end.

Definition f_set_deprecated (v : JsVal) (f : MethodFields) : MethodFields :=
  mkMethod (name f) (accepts f) (isStatic f) (restClass_ctor f)
    (isReturningArray f) (resourceParams f) (hasResourceParams f)
    (description f) (internal f) v.

Definition o_set_deprecated (v : JsVal) (o : Overrides) : Overrides :=
  mkOverrides (o_name o) (o_accepts o) (o_isReturningArray o)
    (o_resourceParams o) (o_hasResourceParams o) (o_description o)
    (o_internal o) (Some v).

Definition set_deprecated (v : JsVal) (c : Cell) : Cell :=
  match c with
  | Plain f => Plain (f_set_deprecated v f)
  | Clone p o => Clone p (o_set_deprecated v o)
  end.

(** [method.resourceParams.push(a)]: the array is the one found by the
    property lookup, so the push lands on the object that owns it, which
    may be an ancestor of [method]. *)
Fixpoint push_resourceParams (a : Arg) (h : Heap) (m : nat) : Heap :=
  match h with
  | [] => []
  | cell :: older =>
      if Nat.eqb m (length older) then
        match cell with
        | Plain f =>
            match resourceParams f with
            | Some l => set_resourceParams (l ++ [a]) cell :: older
            | None => cell :: older
            end
        | Clone p o =>
            match o_resourceParams o with
            | Some l => set_resourceParams (l ++ [a]) cell :: older
            | None => cell :: push_resourceParams a older p
            end
        end
      else cell :: push_resourceParams a older m
  end.

(** ** Model classes *)

(** An entry of a model's [scopes]: the operations exposed under a
    relation, by API name, and the formatted name of the target. *)
Record ScopeDescriptor := mkScope {
  sd_methods : gmap string nat;
  sd_targetClass : option string;
}.

(** The type of a property in a model definition. *)
Inductive PropType :=
| PTUndefined
| PTName (s : string)
| PTFunction (modelName : option string) (fname : string)
| PTOther (raw : string).

Record Property := mkProperty {
  p_type : PropType;
  p_rest : list (string * string);
}.

Record Schema := mkSchema {
  schema_name : string;
  schema_properties : list (string * Property);
}.

(** A class of the rest adapter, with the parts of its shared class that
    the generator reads. *)
Record RestClass := mkClass {
  c_name : string;
  c_ctor : option Ctor;
  c_methods : list nat;
  c_settings : option Description;     (* sharedClass.ctor.settings, if any: its description *)
  c_relations : gmap string string;    (* sharedClass.ctor.prototype[r]._targetClass *)
  c_protoIsUser : bool;                (* prototype is, or derives from, User.prototype *)
  c_description : Description;
  c_isUser : option bool;
  c_scopes : option (gmap string (option ScopeDescriptor));
  c_modelSchema : option Schema;
}.

(** [sharedClass.ctor.settings.description] of a class whose constructor
    has settings. *)
Definition c_settingsDescription (c : RestClass) : Description :=
  default DescUndefined (c_settings c).

Definition with_description (d : Description) (c : RestClass) : RestClass :=
  mkClass (c_name c) (c_ctor c) (c_methods c) (c_settings c)
    (c_relations c) (c_protoIsUser c) d (c_isUser c) (c_scopes c)
    (c_modelSchema c).

Definition with_methods (l : list nat) (c : RestClass) : RestClass :=
  mkClass (c_name c) (c_ctor c) l (c_settings c)
    (c_relations c) (c_protoIsUser c) (c_description c) (c_isUser c)
    (c_scopes c) (c_modelSchema c).

Definition with_isUser (b : bool) (c : RestClass) : RestClass :=
  mkClass (c_name c) (c_ctor c) (c_methods c) (c_settings c)
    (c_relations c) (c_protoIsUser c) (c_description c) (Some b)
    (c_scopes c) (c_modelSchema c).

Definition with_scopes (s : gmap string (option ScopeDescriptor))
    (c : RestClass) : RestClass :=
  mkClass (c_name c) (c_ctor c) (c_methods c) (c_settings c)
    (c_relations c) (c_protoIsUser c) (c_description c) (c_isUser c)
    (Some s) (c_modelSchema c).

Definition with_modelSchema (s : Schema) (c : RestClass) : RestClass :=
  mkClass (c_name c) (c_ctor c) (c_methods c) (c_settings c)
    (c_relations c) (c_protoIsUser c) (c_description c) (c_isUser c)
    (c_scopes c) (Some s).

(** What the generator reads of [app.models[name]]. *)
Record AppModel := mkAppModel {
  swaggerMethods : option (gset string); (* sharedClass._swaggerMethods, its truthy keys *)
  properties : list (string * Property); (* definition.properties *)
}.

Record App := mkApp {
  classes : list RestClass;          (* app.handler('rest').adapter.getClasses() *)
  app_models : gmap string AppModel; (* app.models *)
}.

Inductive Diagnostic :=
| Warn (msg : string)       (* console.warn *)
| ErrorLog (msg : string).  (* console.error *)

(** The object [result] of [describeModels] (later [models]): keys in
    insertion order, each once. *)
Definition Models := list (string * RestClass).

Fixpoint lookupModel (models : Models) (k : string) : option RestClass :=
  match models with
  | [] => None
  | (k', c) :: rest => if String.eqb k k' then Some c else lookupModel rest k
  end.

(** [models[k] = c]: an existing key keeps its place. *)
Fixpoint setModel (models : Models) (k : string) (c : RestClass) : Models :=
  match models with
  | [] => [(k, c)]
  | (k', c') :: rest =>
      if String.eqb k k' then (k, c) :: rest
      else (k', c') :: setModel rest k c
  end.

Record State := mkState {
  heap : Heap;
  models : Models;
  console : list Diagnostic;
}.

(** ** [describeModels]: the loop over the classes *)

Fixpoint filterR {A} (p : A -> Result bool) (l : list A) : Result (list A) :=
  match l with
  | [] => Ok []
  | x :: l' =>
      b ← p x;
      r ← filterR p l';
      Ok (if b : bool then x :: r else r)
  end.

Definition isCreate (h : Heap) (m : nat) : Result bool :=
  f ← readMethod h m; Ok (String.eqb (name f) "create").

(** Lines 176-187: one method named [create] gets an array-returning
    clone named [createMany], pushed on the method list. *)
Definition addCreateMany (h : Heap) (methods : list nat)
  : Result (Heap * list nat) :=
  createMethod ← filterR (isCreate h) methods;
  match createMethod with
  | [m] =>
      let '(h1, createMany) := objectCreate h m in
      let h2 := update (set_name "createMany") h1 createMany in
      let h3 := update (set_isReturningArray true) h2 createMany in
      Ok (h3, methods ++ [createMany])
  | _ => Ok (h, methods)
  end.

Definition isResourceParam (a : Arg) : bool :=
  match http a with
  | None => false
  | Some ht =>
      match source ht with
      | Some src => String.eqb src "path" && negb (String.eqb (arg a) "id")
      | None => false
      end
  end.

(** The callback [findResourceParams] for the method [m]. *)
Definition findResourceParams (m : nat) (h : Heap) (a : Arg) : Heap :=
  if isResourceParam a then
    let h1 :=
      match view h m with
      | Some f =>
          match resourceParams f with
          | None =>
              update (set_hasResourceParams true)
                (update (set_resourceParams []) h m) m
          | Some _ => h
          end
      | None => h
      end in
    push_resourceParams a h1 m
  else h.

(** The callback [fixArgsOfPrototypeMethods].  An array is truthy, so
    the test [!method.accepts] after the assignment never returns. *)
Definition fixArgsOfPrototypeMethods (h : Heap) (m : nat) : Result Heap :=
  f ← readMethod h m;
  match restClass_ctor f with
  | None => Ok h
  | Some ctor =>
      if isStatic f then Ok h
      else
        let new_accepts := ctor_accepts ctor ++ accepts f in
        let h1 := update (set_accepts new_accepts) h m in
        Ok (fold_left (findResourceParams m) new_accepts h1)
  end.

Definition fixDescription (h : Heap) (m : nat) : Result Heap :=
  f ← readMethod h m;
  Ok (update (set_description (normalizeDescription (description f))) h m).

(** Lines 176-217: what [describeModels] does to the methods of one
    class. *)
Definition augmentMethods (h : Heap) (methods : list nat)
  : Result (Heap * list nat) :=
  '(h1, methods1) ← addCreateMany h methods;
  h2 ← forEachR fixArgsOfPrototypeMethods methods1 h1;
  h3 ← forEachR fixDescription methods1 h2;
  Ok (h3, methods1).

Definition ignored (options : Options) (name : string) : bool :=
  existsb (String.eqb name) (modelsToIgnore options).

Definition warnIgnored (name : string) : Diagnostic :=
  Warn ("Skipping " +:+ name +:+ " model as it is not to be published").

Definition errorNotModel (name : string) : Diagnostic :=
  ErrorLog ("Skipping " +:+ name +:+ " as it is not a {{LoopBack}} model").

(** The callback of [getClasses().forEach] in [describeModels].  The
    description is read on lines 158-160, before both tests: on a class
    whose constructor has no settings the read throws. *)
Definition describeClass (options : Options) (st : State) (c : RestClass)
  : Result State :=
  name ← getFormattedModelName (c_name c) options;
  settingsDescription ←
    ofOption "Cannot read properties of undefined (reading 'description')"
      (c_settings c);
  let c1 := with_description (normalizeDescription settingsDescription) c in
  if ignored options name then
    Ok (mkState (heap st) (models st) (console st ++ [warnIgnored name]))
  else
    match c_ctor c1 with
    | None =>
        Ok (mkState (heap st) (models st) (console st ++ [errorNotModel name]))
    | Some _ =>
        '(h3, methods1) ← augmentMethods (heap st) (c_methods c1);
        let c2 := with_isUser (c_protoIsUser c1) (with_methods methods1 c1) in
        Ok (mkState h3 (setModel (models st) name c2) (console st))
    end.

Definition collectModels (app : App) (options : Options) (h : Heap)
  : Result State :=
  forEachR (describeClass options) (classes app) (mkState h [] []).

(** ** [buildScopes] *)

(** [findModelByName]: the first key equal to [name] up to case.  The
    comparison reads [name.toLowerCase()], which throws when [name] is
    [undefined] and there is a key to compare it with.  The key found
    stands for the class object [models[n]]. *)
Fixpoint findModelByName (models : Models) (name : option string)
  : Result (option string) :=
  match models with
  | [] => Ok None
  | (n, _) :: rest =>
      match name with
      | None =>
          Throw (TypeError "Cannot read properties of undefined (reading 'toLowerCase')")
      | Some nm =>
          if String.eqb (JsString.toLowerCase n) (JsString.toLowerCase nm)
          then Ok (Some n)
          else findModelByName rest name
      end
  end.

(** [modelPrototype[scopeName] && modelPrototype[scopeName]._targetClass],
    when truthy. *)
Definition targetClassOf (c : RestClass) (scopeName : string) : option string :=
  match c_relations c !! scopeName with
  | Some t => if JsString.is_empty t then None else Some t
  | None => None
  end.

(** Which way a call of [buildScopeMethod] went. *)
Inductive Decision :=
| NoTarget                  (* line 270: no target class, nothing recorded *)
| NullRecorded              (* line 274: unknown target model, null recorded *)
| Excluded                  (* line 281: filtered out, nothing recorded *)
| NullSkipped               (* line 290: the entry is null *)
| Exposed (created : bool). (* lines 293-351; [created]: line 284 ran *)

Inductive Outcome :=
| NoMatch
| Matched (op scopeName : string) (d : Decision).

Record Event := mkEvent {
  ev_model : string;
  ev_method : nat;
  ev_outcome : Outcome;
}.

(** A mutation of the class object [models[k]]. *)
Definition updModel (models : Models) (k : string)
    (g : RestClass -> RestClass) : Models :=
  match lookupModel models k with
  | Some c => setModel models k (g c)
  | None => models
  end.

(** [models[k].methods.push(m)]. *)
Definition pushMethod (models : Models) (k : string) (m : nat) : Models :=
  updModel models k (fun c => with_methods (c_methods c ++ [m]) c).

(** [models[k].scopes[scopeName] = v]. *)
Definition setScope (models : Models) (k scopeName : string)
    (v : option ScopeDescriptor) : Models :=
  updModel models k
    (fun c => with_scopes (<[scopeName := v]> (default ∅ (c_scopes c))) c).

(** The names that the object [{}] of line 244 inherits from
    [Object.prototype]: under these [modelClass.scopes[scopeName]] is
    neither [undefined] nor [null] though the object owns no entry. *)
Definition objectPrototypeKeys : list string :=
  [ "constructor"; "hasOwnProperty"; "isPrototypeOf"; "propertyIsEnumerable";
    "toLocaleString"; "toString"; "valueOf"; "__proto__";
    "__defineGetter__"; "__defineSetter__"; "__lookupGetter__";
    "__lookupSetter__" ].

Definition inheritedKey (scopeName : string) : bool :=
  existsb (String.eqb scopeName) objectPrototypeKeys.

(** [modelClass.scopes[scopeName].methods[apiName] = m].  An entry that
    is not a descriptor (the null entry, or a member of
    [Object.prototype]) has no [methods]. *)
Definition setScopeMethod (models : Models) (k scopeName apiName : string)
    (m : nat) : Result Models :=
  c ← ofOption "modelClass is undefined" (lookupModel models k);
  scopes ← ofOption "scopes is undefined" (c_scopes c);
  match scopes !! scopeName with
  | Some (Some d) =>
      Ok (setScope models k scopeName
            (Some (mkScope (<[apiName := m]> (sd_methods d)) (sd_targetClass d))))
  | _ => Throw (TypeError "Cannot read properties of undefined (reading 'methods')")
  end.

(** Lines 293-351 of [buildScopeMethod], reached when the scope entry is
    a descriptor, or a member of [Object.prototype]. *)
Definition exposeScopeMethod (st : State) (modelName : string) (method : nat)
    (op scopeName : string) (targetModelName : option string) : Result State :=
  let apiName := apiNameOf op scopeName in
  let note := internalNote modelName apiName in
  let h := update (set_internal (JsString note)) (heap st) method in
  let reverseName := reverseNameOf op modelName scopeName in
  (* reverseMethod *)
  let '(h, reverseMethod) := objectCreate h method in
  let h := update (set_name reverseName) h reverseMethod in
  let h := update (set_internal (JsString note)) h reverseMethod in
  let h := update (set_deprecated (JsBool false)) h reverseMethod in
  found ← findModelByName (models st) targetModelName;
  reverseModel ← ofOption "Cannot read properties of undefined (reading 'methods')" found;
  let ms := pushMethod (models st) reverseModel reverseMethod in
  let '(h, ms) :=
    if JsString.contains "create" reverseName then
      let '(h, createMany) := objectCreate h reverseMethod in
      let h := update (set_name
                 (JsString.replace_first "create" "createMany" reverseName))
                 h createMany in
      let h := update (set_internal
                 (JsString (JsString.replace_first "create" "createMany" note)))
                 h createMany in
      let h := update (set_isReturningArray true) h createMany in
      (h, pushMethod ms reverseModel createMany)
    else (h, ms) in
  (* scopeMethod *)
  let '(h, scopeMethod) := objectCreate h method in
  let h := update (set_name reverseName) h scopeMethod in
  let h := update (set_deprecated (JsBool false)) h scopeMethod in
  let h := update (set_internal (JsBool false)) h scopeMethod in
  ms ← setScopeMethod ms modelName scopeName apiName scopeMethod;
  if JsString.contains "create" reverseName then
    let '(h, scopeCreateMany) := objectCreate h scopeMethod in
    let h := update (set_name
               (JsString.replace_first "create" "createMany" reverseName))
               h scopeCreateMany in
    let h := update (set_isReturningArray true) h scopeCreateMany in
    let apiName' := JsString.replace_first "create" "createMany" apiName in
    ms ← setScopeMethod ms modelName scopeName apiName' scopeCreateMany;
    Ok (mkState h ms (console st))
  else Ok (mkState h ms (console st)).

(** [_swaggerMethods && !_swaggerMethods[methodName]]. *)
Definition swaggerExcludes (am : AppModel) (methodName : string) : bool :=
  match swaggerMethods am with
  | Some allowed => negb (bool_decide (methodName ∈ allowed))
  | None => false
  end.

Definition buildScopeMethod (app : App) (options : Options) (st : State)
    (modelName : string) (method : nat) : Result (Outcome * State) :=
  modelClass ← ofOption "modelClass is undefined" (lookupModel (models st) modelName);
  f ← readMethod (heap st) method;
  match scope_method_match (name f) with
  | None => Ok (NoMatch, st)
  | Some (op, scopeName) =>
      let targetClass := targetClassOf modelClass scopeName in
      targetModelName ←
        match targetClass with
        | Some t => n ← getFormattedModelName t options; Ok (Some n)
        | None => Ok None
        end;
      scopes ← ofOption "Cannot read properties of undefined" (c_scopes modelClass);
      match scopes !! scopeName with
      | None =>
          if inheritedKey scopeName then
            (* neither of the tests of lines 268 and 288 holds *)
            st2 ← exposeScopeMethod st modelName method op scopeName
                    targetModelName;
            Ok (Matched op scopeName (Exposed false), st2)
          else
          match targetClass with
          | None => Ok (Matched op scopeName NoTarget, st)
          | Some _ =>
              found ← findModelByName (models st) targetModelName;
              match found with
              | None =>
                  Ok (Matched op scopeName NullRecorded,
                      mkState (heap st)
                        (setScope (models st) modelName scopeName None)
                        (console st))
              | Some _ =>
                  let methodName :=
                    JsString.replace_first "prototype." "" (name f) in
                  am ← ofOption "Cannot read properties of undefined (reading 'sharedClass')"
                         (app_models app !! modelName);
                  if swaggerExcludes am methodName then
                    Ok (Matched op scopeName Excluded, st)
                  else
                    let st1 :=
                      mkState (heap st)
                        (setScope (models st) modelName scopeName
                           (Some (mkScope ∅ targetModelName)))
                        (console st) in
                    st2 ← exposeScopeMethod st1 modelName method op scopeName
                            targetModelName;
                    Ok (Matched op scopeName (Exposed true), st2)
              end
          end
      | Some None => Ok (Matched op scopeName NullSkipped, st)
      | Some (Some _) =>
          st2 ← exposeScopeMethod st modelName method op scopeName
                  targetModelName;
          Ok (Matched op scopeName (Exposed false), st2)
      end
  end.

(** A [forEach] whose callback reports what it did: the reports of the
    calls that returned are kept when a later call throws. *)
Fixpoint forEachT {A S E} (f : S -> A -> Result (E * S)) (l : list A) (s : S)
  : list E * Result S :=
  match l with
  | [] => ([], Ok s)
  | x :: l' =>
      match f s x with
      | Throw e => ([], Throw e)
      | Ok (ev, s') =>
          let '(t, r) := forEachT f l' s' in (ev :: t, r)
      end
  end.

(** The callback of [modelClass.methods.forEach] in [buildScopesOfModel]:
    the call of [buildScopeMethod], with the event that reports it. *)
Definition callback (app : App) (options : Options) (modelName : string)
    (s : State) (m : nat) : Result (Event * State) :=
  '(o, s') ← buildScopeMethod app options s modelName m;
  Ok (mkEvent modelName m o, s').

Definition buildScopesOfModel (app : App) (options : Options) (st : State)
    (modelName : string) : list Event * Result State :=
  match lookupModel (models st) modelName with
  | None => ([], Throw (TypeError "Cannot set properties of undefined (setting 'scopes')"))
  | Some modelClass =>
      let st1 :=
        mkState (heap st)
          (updModel (models st) modelName (with_scopes ∅))
          (console st) in
      forEachT (callback app options modelName) (c_methods modelClass) st1
  end.

(** [for (let modelName in models)]: the keys as they are when the loop
    starts; no key is added or removed while it runs. *)
Fixpoint buildScopesOver (app : App) (options : Options) (keys : list string)
    (st : State) : list Event * Result State :=
  match keys with
  | [] => ([], Ok st)
  | k :: keys' =>
      match buildScopesOfModel app options st k with
      | (t, Throw e) => (t, Throw e)
      | (t, Ok st') =>
          let '(t', r) := buildScopesOver app options keys' st' in
          (t ++ t', r)
      end
  end.

Definition buildScopes (app : App) (options : Options) (st : State)
  : list Event * Result State :=
  buildScopesOver app options (map fst (models st)) st.

(** ** [buildSchemas] and [describeModels] *)

(** A type given as a constructor is replaced by
    [type.modelName || type.name]. *)
Definition normalizeType (t : PropType) : PropType :=
  match t with
  | PTFunction (Some mn) fname =>
      if JsString.is_empty mn then PTName fname else PTName mn
  | PTFunction None fname => PTName fname
  | _ => t
  end.

Definition schemaOf (modelName : string) (am : AppModel) : Schema :=
  mkSchema modelName
    (map (fun '(prop, p) => (prop, mkProperty (normalizeType (p_type p)) (p_rest p)))
       (properties am)).

Definition buildSchemaOf (app : App) (ms : Models) (modelName : string)
  : Result Models :=
  am ← ofOption "Cannot read properties of undefined (reading 'definition')"
         (app_models app !! modelName);
  match lookupModel ms modelName with
  | Some c => Ok (setModel ms modelName (with_modelSchema (schemaOf modelName am) c))
  | None => Throw (TypeError "Cannot set properties of undefined (setting 'modelSchema')")
  end.

Definition buildSchemas (app : App) (st : State) : Result State :=
  ms ← forEachR (buildSchemaOf app) (map fst (models st)) (models st);
  Ok (mkState (heap st) ms (console st)).

(** [describeModels], started on the store [h] of the application's
    method objects.  The events are those of [buildScopes]. *)
Definition describeModels (app : App) (options : Options) (h : Heap)
  : list Event * Result State :=
  match collectModels app options h with
  | Throw e => ([], Throw e)
  | Ok st =>
      match buildScopes app options st with
      | (t, Throw e) => (t, Throw e)
      | (t, Ok st') =>
          if includeSchema options then (t, buildSchemas app st')
          else (t, Ok st')
      end
  end.

(** ** [generateServices] *)

(** The data handed to [ejs.render] (the two helpers are constants). *)
Record RenderData := mkRenderData {
  rd_moduleName : string;
  rd_models : State;
  rd_commonAuth : string;
  rd_commonAuthRequestInterceptor : string;
  rd_commonResource : string;
  rd_commonResourceProvider : string;
  rd_urlBase : string;
  rd_includeCommonModules : bool;
  rd_comments : bool;
}.

(** What a run of [generateServices] did, in order. *)
Inductive Phase :=
| DescribeFailed (t : list Event)
| DescribedModels (t : list Event) (st : State)
| TemplateRead
| Rendered (d : RenderData)
| Transformed
| Logged (e : Error).

Definition errorMessage (e : Error) : string :=
  match e with
  | TypeError msg => msg
  | PlainError msg => msg
  end.

Definition unsupportedDelimiter : Error :=
  PlainError "Unsupported delimiter '.' for namespacing common models.".

(** What replaces one match of [/\./g] when the replacement is the
    string [d]: [$$] is a dollar, [$&] the match, a dollar and a
    backquote what precedes the match in the subject, a dollar and a
    quote what follows it; the pattern has no group, so any other dollar
    stands for itself. *)
Fixpoint substitution (d before after : string) : string :=
  match d with
  | EmptyString => EmptyString
  | String c d' =>
      if Ascii.eqb c "$"%char then
        match d' with
        | EmptyString => String "$"%char EmptyString
        | String c' d'' =>
            if Ascii.eqb c' "$"%char then
              String "$"%char (substitution d'' before after)
            else if Ascii.eqb c' "&"%char then
              String "."%char (substitution d'' before after)
            else if Ascii.eqb c' "`"%char then
              before +:+ substitution d'' before after
            else if Ascii.eqb c' "'"%char then
              after +:+ substitution d'' before after
            else String "$"%char (substitution d' before after)
        end
      else String c (substitution d' before after)
  end.

(** [s.replace(/\./g, d)] from a position of the subject on: [before]
    is what the subject holds up to there. *)
Fixpoint replace_dots_from (d before s : string) : string :=
  match s with
  | EmptyString => EmptyString
  | String c s' =>
      if Ascii.eqb c "."%char then
        substitution d before s'
        +:+ replace_dots_from d (before +:+ String c EmptyString) s'
      else String c (replace_dots_from d (before +:+ String c EmptyString) s')
  end.

Definition replace_dots (d s : string) : string :=
  replace_dots_from d EmptyString s.

Section Generator.

(** The collaborators outside this file: reading the template,
    [ejs.render] and [babel.transformSync(_).code]. *)
Variable servicesTemplate : Result string.
Variable render : string -> RenderData -> Result string.
Variable transform : string -> Result string.

(** [generateServices] once [options] has been extended with the
    defaults. *)
Definition generateServices (app : App) (options : Options) (h : Heap)
  : list Phase * Result string :=
  match describeModels app options h with
  | (t, Throw e) => ([DescribeFailed t], Throw e)
  | (t, Ok models) =>
      let p1 := [DescribedModels t models] in
      match servicesTemplate with
      | Throw e => (p1, Throw e)
      | Ok template =>
          let p2 := p1 ++ [TemplateRead] in
          let prefix :=
            if namespaceCommonModels options then
              if String.eqb (namespaceDelimiter options) "." then
                Throw unsupportedDelimiter
              else
                Ok (replace_dots (namespaceDelimiter options)
                      (ngModuleName options +:+ namespaceDelimiter options))
            else Ok "LoopBack" in
          match prefix with
          | Throw e => (p2, Throw e)
          | Ok commonModelPrefix =>
              let data :=
                mkRenderData (ngModuleName options) models
                  (commonModelPrefix +:+ "Auth")
                  (commonModelPrefix +:+ "AuthRequestInterceptor")
                  (commonModelPrefix +:+ "Resource")
                  (commonModelPrefix +:+ "ResourceProvider")
                  (JsString.strip_trailing_slashes (apiUrl options))
                  (includeCommonModules options)
                  (comments options) in
              let p3 := p2 ++ [Rendered data] in
              match render template data with
              | Throw e => (p3, Throw e)
              | Ok sdk =>
                  match transform sdk with
                  | Ok code => (p3 ++ [Transformed], Ok code)
                  | Throw e =>
                      (p3 ++ [Logged e], Throw (PlainError (errorMessage e)))
                  end
              end
          end
      end
  end.

End Generator.

(** ** Vocabulary of the statements *)

(** The method at [m] is literally named [create]. *)
Definition namedCreate (h : Heap) (m : nat) : bool :=
  match view h m with
  | Some f => String.eqb (name f) "create"
  | None => false
  end.

(** Every element of a method list is an object of the store. *)
Definition allMethods (h : Heap) (methods : list nat) : Prop :=
  Forall (fun m => is_Some (view h m)) methods.

(** What one call of [findResourceParams] does to what the method
    answers. *)
Definition noteResourceParam (f : MethodFields) (a : Arg) : MethodFields :=
  if isResourceParam a then
    match resourceParams f with
    | None => f_set_resourceParams [a] (f_set_hasResourceParams true f)
    | Some l => f_set_resourceParams (l ++ [a]) f
    end
  else f.

(** ** A small application

    Two models, [gadget] with a relation [widgets] to [widget], as the
    rest adapter of a LoopBack application describes them. *)

Module Sample.

Definition argId : Arg := mkArg "id" "any" (Some (mkHttp (Some "path"))).
Definition argFk : Arg := mkArg "fk" "any" (Some (mkHttp (Some "path"))).
Definition argData : Arg := mkArg "data" "object" (Some (mkHttp (Some "body"))).
Definition argFilter : Arg := mkArg "filter" "object" None.

Definition sharedCtor : Ctor := mkCtor [argId].

Definition restMethod (nm : string) (static : bool) (args : list Arg)
  : MethodFields :=
  mkMethod nm args static (Some sharedCtor) false None false
    DescUndefined JsUndefined JsUndefined.

(** Addresses 0 to 5, the newest object first. *)
Definition store : Heap :=
  [ Plain (restMethod "create" true [argData]);                      (* 5 *)
    Plain (restMethod "findByFk" true [argFk]);                      (* 4 *)
    Plain (restMethod "prototype.__create__widgets" false [argData]);(* 3 *)
    Plain (restMethod "prototype.__findById__widgets" false [argFk]);(* 2 *)
    Plain (restMethod "prototype.__get__widgets" false [argFilter]); (* 1 *)
    Plain (restMethod "create" true [argData]) ].                    (* 0 *)

Definition restClass (nm : string) (ctor : option Ctor) (methods : list nat)
    (relations : gmap string string) : RestClass :=
  mkClass nm ctor methods (Some DescUndefined) relations false
    DescUndefined None None None.

Definition gadget (nm target : string) : RestClass :=
  restClass nm (Some sharedCtor) [0; 1; 2; 3; 4] {[ "widgets" := target ]}.

Definition widget (nm : string) : RestClass :=
  restClass nm (Some sharedCtor) [5] ∅.

(** A class of the registry without a shared constructor. *)
Definition internalClass : RestClass := restClass "internal" None [] ∅.

Definition appModel : AppModel := mkAppModel None [].

(** [app.models] answers to the name of a model as declared and to
    its capitalized form.  The relation [widgets] of the first model
    targets the model named [target]. *)
Definition app (gadgetName target widgetName : string) : App :=
  mkApp [gadget gadgetName target; widget widgetName; internalClass]
    (<[ "Gadget" := appModel ]> (<[ "Widget" := appModel ]>
      (<[ "gadget" := appModel ]> (<[ "widget" := appModel ]> ∅)))).

(** The same application with a filter on what [Gadget] exposes. *)
Definition filteredApp (allowed : gset string) : App :=
  mkApp [gadget "Gadget" "Widget"; widget "Widget"]
    (<[ "Gadget" := mkAppModel (Some allowed) [] ]>
       (<[ "Widget" := appModel ]> ∅)).

(** The model map once [Gadget.scopes.widgets] is a descriptor. *)
Definition resolved : State :=
  mkState store
    [ ("Gadget",
       with_scopes {[ "widgets" := Some (mkScope ∅ (Some "Widget")) ]}
         (gadget "Gadget" "Widget"));
      ("Widget", widget "Widget") ]
    [].

Definition options (url : string) (commonNs : bool) (ignore : list string)
  : Options :=
  mkOptions "lbServices" url true false commonNs "." ignore false false.

Definition template : Result string := Ok "template".
Definition render (_ : string) (_ : RenderData) : Result string := Ok "sdk".
Definition transform (sdk : string) : Result string := Ok sdk.

(** The state that a run returned. *)
Definition stateAfter (r : list Event * Result State) : State :=
  match snd r with
  | Ok st => st
  | Throw _ => mkState [] [] []
  end.

(** The name a method answers to after a run, if the run returned. *)
Definition nameAfter (r : list Event * Result State) (m : nat) : option string :=
  match snd r with
  | Ok st => name <$> view (heap st) m
  | Throw _ => None
  end.

Definition methodsAfter (r : list Event * Result State) (k : string)
  : option (list nat) :=
  match snd r with
  | Ok st => c_methods <$> lookupModel (models st) k
  | Throw _ => None
  end.

End Sample.

(** The scope map, the method list and the relations of the model under
    a key. *)
Definition modelScopes (ms : Models) (k : string)
  : option (gmap string (option ScopeDescriptor)) :=
  lookupModel ms k ≫= c_scopes.

Definition modelMethods (ms : Models) (k : string) : option (list nat) :=
  c_methods <$> lookupModel ms k.

Definition modelRelations (ms : Models) (k : string)
  : option (gmap string string) :=
  c_relations <$> lookupModel ms k.

Definition scopesOf (st : State) (k : string) := modelScopes (models st) k.
Definition methodsOf (st : State) (k : string) := modelMethods (models st) k.

(** The event reports that a descriptor was created for [(M, s)]. *)
Definition created (M s : string) (e : Event) : bool :=
  String.eqb (ev_model e) M
  && match ev_outcome e with
     | Matched _ s' (Exposed true) => String.eqb s' s
     | _ => false
     end.



(** The entry of a scope map is a descriptor. *)
Definition isDescriptor (o : option (option ScopeDescriptor)) : Prop :=
  exists d, o = Some (Some d).

(** ** Vocabulary of the invariants *)

(** An assignment acts on what the object answers as [phi] when it
    maps own fields by [phi] and keeps the prototype. *)
Definition acts (g : Cell -> Cell) (phi : MethodFields -> MethodFields) : Prop :=
  (forall f, g (Plain f) = Plain (phi f))
  /\ (forall p o, exists o',
         g (Clone p o) = Clone p o'
         /\ forall f, apply_overrides o' f = phi (apply_overrides o f)).

(** The scope map [sc] of [M] before a call of [buildScopeMethod] on a
    method of the relation [s], what the call decided, and the state
    after it. *)
Definition decisionEffect (options : Options) (st st' : State) (M : string)
    (c : RestClass) (sc : gmap string (option ScopeDescriptor))
    (s : string) (d : Decision) : Prop :=
  match d with
  | NoTarget => st' = st /\ sc !! s = None /\ targetClassOf c s = None
  | NullRecorded =>
      sc !! s = None
      /\ scopesOf st' M = Some (<[s := None]> sc)
      /\ exists t tn,
          targetClassOf c s = Some t
          /\ getFormattedModelName t options = Ok tn
          /\ findModelByName (models st) (Some tn) = Ok None
  | Excluded => st' = st /\ sc !! s = None
  | NullSkipped => st' = st /\ sc !! s = Some None
  | Exposed true =>
      sc !! s = None
      /\ (exists d', scopesOf st' M = Some (<[s := Some d']> sc))
      /\ exists t tn T,
          targetClassOf c s = Some t
          /\ getFormattedModelName t options = Ok tn
          /\ findModelByName (models st) (Some tn) = Ok (Some T)
  | Exposed false =>
      isDescriptor (sc !! s)
      /\ exists d', scopesOf st' M = Some (<[s := Some d']> sc)
  end.

(** The same for any outcome: a method that does not match the pattern
    changes nothing. *)
Definition stepEffect (options : Options) (st st' : State) (M : string)
    (c : RestClass) (o : Outcome) : Prop :=
  match o with
  | NoMatch => st' = st
  | Matched op s d =>
      exists sc, c_scopes c = Some sc /\ decisionEffect options st st' M c sc s d
  end.





(** Two states with the same keys, in the same order, and the same
    relations under each key. *)
Definition sameShape (st0 st : State) : Prop :=
  map fst (models st) = map fst (models st0)
  /\ forall k, modelRelations (models st) k = modelRelations (models st0) k.





(** The cell at an address. *)
Fixpoint cellAt (h : Heap) (m : nat) : option Cell :=
  match h with
  | [] => None
  | cell :: older => if Nat.eqb m (length older) then Some cell else cellAt older m
  end.

(** The parameters, the static flag and the shared constructor of the
    class of a method. *)
Definition signature (f : MethodFields) : list Arg * bool * option Ctor :=
  (accepts f, isStatic f, restClass_ctor f).

(** The signature of a method of the registry, one that is not a clone. *)
Definition plainSignature (h : Heap) (m : nat)
  : option (list Arg * bool * option Ctor) :=
  match cellAt h m with
  | Some (Plain f) => Some (signature f)
  | _ => None
  end.

(** The parameters an instance method is to accept: those of the shared
    constructor of its class, then its own. *)
Definition effective (sg : list Arg * bool * option Ctor)
  : list Arg * bool * option Ctor :=
  let '(l, static, ctor) := sg in
  (match ctor with
   | Some c => if static : bool then l else ctor_accepts c ++ l
   | None => l
   end, static, ctor).

(** ** Vocabulary of the further properties *)

(** No code unit of the string is an underscore. *)
Fixpoint no_underscore (s : string) : bool :=
  match s with
  | EmptyString => true
  | String c s' => negb (Ascii.eqb c "_"%char) && no_underscore s'
  end.

(** A class of the model map as the collection loop leaves it, next to
    the class of the registry it was made from. *)
Definition collectedFrom (options : Options) (k : string) (c c0 : RestClass)
  : Prop :=
  getFormattedModelName (c_name c0) options = Ok k
  /\ ignored options k = false
  /\ c_name c = c_name c0
  /\ c_ctor c = c_ctor c0
  /\ c_ctor c0 <> None
  /\ c_relations c = c_relations c0
  /\ c_description c = normalizeDescription (c_settingsDescription c0)
  /\ c_isUser c = Some (c_protoIsUser c0).

(** What a method answers, its [internal] note left aside. *)
Definition butInternal (f : MethodFields) : MethodFields :=
  f_set_internal JsUndefined f.

(** A clone that owns a name which is not that of a relation method. *)
Definition namedClone (c : Cell) : Prop :=
  exists p o n,
    c = Clone p o /\ o_name o = Some n /\ scope_method_match n = None.

(** A projection of what methods answer that clones pass on. *)
Definition inherited {A} (pi : MethodFields -> A) : Prop :=
  forall o f f', pi f = pi f' ->
    pi (apply_overrides o f) = pi (apply_overrides o f').

(** How a state follows from an earlier one in scope resolution: the
    store grows, the objects it held answer as before but for their
    [internal] note, the new objects are clones that do not answer to the
    name of a relation method, and every method list is continued by new
    objects only. *)
Definition grownFrom (st st' : State) : Prop :=
  length (heap st) <= length (heap st')
  /\ (forall j, j < length (heap st) ->
        (butInternal <$> view (heap st') j) = (butInternal <$> view (heap st) j))
  /\ (forall j f, length (heap st) <= j -> view (heap st') j = Some f ->
        scope_method_match (name f) = None)
  /\ (forall j, length (heap st) <= j < length (heap st') ->
        is_Some (view (heap st') j))
  /\ (forall k, exists news,
        modelMethods (models st') k
        = (fun l => l ++ news) <$> modelMethods (models st) k
        /\ Forall (fun j => length (heap st) <= j < length (heap st')) news)
  /\ console st' = console st.

(** The event is about an object that the store did not hold yet when
    it had [n] objects, and reports that its name did not match. *)
Definition newObjectsUnmatched (n : nat) (e : Event) : Prop :=
  n <= ev_method e -> ev_outcome e = NoMatch.

(** What a clone made by the scope resolution takes over from the method
    it was made from: everything but the name, the [internal] and
    [deprecated] marks and [isReturningArray]. *)
Definition takenOver (f : MethodFields)
  : list Arg * bool * option Ctor * option (list Arg) * bool * Description :=
  (accepts f, isStatic f, restClass_ctor f, resourceParams f,
   hasResourceParams f, description f).

(** The method at [m] is in the method list of some model. *)
Definition listed (st : State) (m : nat) : Prop :=
  exists k methods, methodsOf st k = Some methods /\ In m methods.

(** The object at [j] of the store [h] was made from the relation
    method at [m], an object that the store of [st0] held already and
    that a model of [st0] lists. *)
Definition madeFrom (st0 : State) (h : Heap) (j m : nat) : Prop :=
  exists f f0,
    m < length (heap st0)
    /\ listed st0 m
    /\ view h j = Some f
    /\ view h m = Some f0
    /\ is_Some (scope_method_match (name f0))
    /\ takenOver f = takenOver f0.

(** Every object added since [st0] was made from a relation method. *)
Definition allMadeFrom (st0 s : State) : Prop :=
  grownFrom st0 s
  /\ forall j, length (heap st0) <= j < length (heap s) ->
       exists m, madeFrom st0 (heap s) j m.

(** [s.replace(/create/, 'createMany')]. *)
Definition toMany (s : string) : string :=
  JsString.replace_first "create" "createMany" s.

(** What the reverse method and the scope method made from a method
    answer. *)
Definition reverseMethodOf (reverseName note : string) (f : MethodFields)
  : MethodFields :=
  f_set_deprecated (JsBool false)
    (f_set_internal (JsString note) (f_set_name reverseName f)).

(** The scope method: its [internal] mark is [false]. *)
Definition scopeMethodOf (reverseName : string) (f : MethodFields)
  : MethodFields :=
  f_set_internal (JsBool false)
    (f_set_deprecated (JsBool false) (f_set_name reverseName f)).

(** The [createMany] twin of either. *)
Definition twinOf (internalOf : JsVal -> JsVal) (f : MethodFields)
  : MethodFields :=
  f_set_isReturningArray true
    (f_set_internal (internalOf (internal f)) (f_set_name (toMany (name f)) f)).

(** [internal.replace(/create/, 'createMany')] on the note of a reverse
    method. *)
Definition noteToMany (v : JsVal) : JsVal :=
  match v with
  | JsString note => JsString (toMany note)
  | _ => v
  end.

(** The type of a property is a constructor. *)
Definition isConstructor (t : PropType) : bool :=
  match t with
  | PTFunction _ _ => true
  | _ => false
  end.

(** The model map [ms] while [buildSchemas] runs on [ms0]: the same
    keys, a schema on the classes under the keys [done], the other
    classes untouched. *)
Definition schemasDone (app : App) (ms0 ms : Models) (done : list string)
  : Prop :=
  map fst ms = map fst ms0
  /\ forall k c, lookupModel ms0 k = Some c ->
       (In k done ->
          exists am,
            app_models app !! k = Some am
            /\ lookupModel ms k = Some (with_modelSchema (schemaOf k am) c))
       /\ (~ In k done -> lookupModel ms k = Some c).

(** The string holds a dot. *)
Definition hasDot (s : string) : bool := JsString.contains "." s.

(** The four names of the common services in the data for the
    template. *)
Definition commonNames (d : RenderData) : list string :=
  [ rd_commonAuth d; rd_commonAuthRequestInterceptor d;
    rd_commonResource d; rd_commonResourceProvider d ].

(** The description a method answers is not an array. *)
Definition plainDescription (f : MethodFields) : Prop :=
  forall l, description f <> DescArray l.

(** The object at [m] answers, with a description that is not an
    array. *)
Definition described (h : Heap) (m : nat) : Prop :=
  exists f, view h m = Some f /\ plainDescription f.

(** From [h] to [h'] every object still answers, and keeps a
    description that is not an array when it had one. *)
Definition keepsDescribed (h h' : Heap) : Prop :=
  forall m f, view h m = Some f ->
    exists f', view h' m = Some f' /\ (plainDescription f -> plainDescription f').

(** The objects that a property lookup from [j] goes through: [j], then
    its prototype, and so on. *)
Fixpoint ancestry (h : Heap) (j : nat) : list nat :=
  match h with
  | [] => []
  | cell :: older =>
      if Nat.eqb j (length older) then
        j :: match cell with
             | Plain _ => []
             | Clone p _ => ancestry older p
             end
      else ancestry older j
  end.

(** Every element of a method list is an object of the registry: one
    that owns its properties, not a clone. *)
Definition plainMethods (h : Heap) (methods : list nat) : Prop :=
  Forall (fun j => exists g, cellAt h j = Some (Plain g)) methods.

(** The method at [m], when it answers to the name of a relation
    method, names a relation that is not a member of
    [Object.prototype]. *)
Definition ownRelation (h : Heap) (m : nat) : Prop :=
  forall f op s,
    view h m = Some f ->
    scope_method_match (name f) = Some (op, s) ->
    inheritedKey s = false.

(** Every descriptor among the scopes of [M] is under a relation whose
    target is a collected model. *)
Definition resolvable (options : Options) (st : State) (M : string) : Prop :=
  exists c sc,
    lookupModel (models st) M = Some c
    /\ c_scopes c = Some sc
    /\ forall s, isDescriptor (sc !! s) ->
         exists t tn T,
           targetClassOf c s = Some t
           /\ getFormattedModelName t options = Ok tn
           /\ findModelByName (models st) (Some tn) = Ok (Some T).

(** The state of a loop over the methods of [M] that started in [sM]. *)
Definition inModel (options : Options) (sM : State) (M : string) (s : State)
  : Prop :=
  grownFrom sM s /\ sameShape sM s /\ resolvable options s M.

(** The state of [buildScopes] between two models, started in [st0]. *)
Definition betweenModels (st0 s : State) : Prop :=
  grownFrom st0 s /\ sameShape st0 s.

(** The relation [s] of the model [M] of [st0] can be exposed: the
    method at [m] is one of its relation methods, and the target class
    is a collected model. *)
Definition exposable (options : Options) (st0 : State) (M s : string)
    (m : nat) : Prop :=
  exists c f op t tn T,
    lookupModel (models st0) M = Some c
    /\ In m (c_methods c)
    /\ view (heap st0) m = Some f
    /\ scope_method_match (name f) = Some (op, s)
    /\ targetClassOf c s = Some t
    /\ getFormattedModelName t options = Ok tn
    /\ findModelByName (models st0) (Some tn) = Ok (Some T).

(** The scopes of [M] hold no descriptor, and no entry under [s]. *)
Definition blank (st : State) (M s : string) : Prop :=
  exists c sc,
    lookupModel (models st) M = Some c
    /\ c_scopes c = Some sc
    /\ (forall s1, ~ isDescriptor (sc !! s1))
    /\ sc !! s = None.

(** The state of the loop over the methods of such a model [M]. *)
Definition stuck (st0 : State) (M s : string) (x : State) : Prop :=
  betweenModels st0 x /\ blank x M s.

(** The class of the registry is one that the loop files under [k]. *)
Definition filedUnder (options : Options) (k : string) (c : RestClass)
  : Prop :=
  c_ctor c <> None
  /\ getFormattedModelName (c_name c) options = Ok k
  /\ ignored options k = false.

(** More sample data: a model whose relation is named [created], a
    delimiter that holds a dot without being one, and an application
    whose [app.models] lacks [Gadget]. *)
Module Demo.

Definition withCreated : State :=
  mkState Sample.store
    [ ("Gadget",
       with_scopes {[ "created" := Some (mkScope ∅ (Some "Widget")) ]}
         (Sample.gadget "Gadget" "Widget"));
      ("Widget", Sample.widget "Widget") ]
    [].

Definition dotted : Options :=
  mkOptions "lbServices" "/" true false true ".." [] false false.

Definition orphanApp : App :=
  mkApp [Sample.gadget "Gadget" "Widget"; Sample.widget "Widget"]
    (<[ "Widget" := Sample.appModel ]> ∅).

End Demo.

(** * Properties *)

(** ** The string primitives on small inputs *)

Example scope_match_find :
  scope_method_match "prototype.__findById__categories"
  = Some ("findById", "categories").
Proof. reflexivity. Qed.

Example scope_match_static : scope_method_match "create" = None.
Proof. reflexivity. Qed.

Example scope_match_single_underscore :
  scope_method_match "prototype.__find_by__x" = None.
Proof. reflexivity. Qed.

Example strip_api :
  JsString.strip_trailing_slashes "http://x/api///" = "http://x/api".
Proof. reflexivity. Qed.

Example strip_root : JsString.strip_trailing_slashes "/" = "".
Proof. reflexivity. Qed.

Example strip_inner :
  JsString.strip_trailing_slashes "a//b/" = "a//b".
Proof. reflexivity. Qed.

Example formatted_plain :
  getFormattedModelName "gadget" defaultOptions = Ok "Gadget".
Proof. reflexivity. Qed.

Example formatted_namespaced :
  getFormattedModelName "gadget" (with_namespaceModels true defaultOptions)
  = Ok "lbServices.Gadget".
Proof. reflexivity. Qed.

Example api_delete : apiNameOf "delete" "items" = "items.destroyAll".
Proof. reflexivity. Qed.

(** ** Formatted model names *)

(** C9.  Two configurations that differ only in [namespaceModels] format
    a raw model name to [n] and to [ngModuleName + namespaceDelimiter + n]:
    the plain name is what follows the module name and the delimiter in
    the namespaced one.  (On the empty name both calls throw.) *)
Theorem formatted_name_namespace_suffix (modelName : string) (options : Options) :
  (exists plain,
      getFormattedModelName modelName (with_namespaceModels false options)
      = Ok plain
      /\ getFormattedModelName modelName (with_namespaceModels true options)
         = Ok (ngModuleName options +:+ namespaceDelimiter options +:+ plain))
  \/ (modelName = ""
      /\ exists e,
          getFormattedModelName modelName (with_namespaceModels false options)
          = Throw e
          /\ getFormattedModelName modelName (with_namespaceModels true options)
             = Throw e).
Proof.
  destruct modelName as [|c rest].
  - right. split; [reflexivity|]. eexists. split; reflexivity.
  - left. eexists. split; reflexivity.
Qed.

(** ** The URL base *)

Module UrlBase.

Lemma all_slashes_spec s :
  JsString.all_slashes s = true -> s = JsString.slashes (String.length s).
Proof.
  induction s as [|c s IH]; simpl; [reflexivity|].
  intros H. apply andb_prop in H as [Hc Hs].
  apply Ascii.eqb_eq in Hc. subst c. f_equal. auto.
Qed.

Lemma strip_decompose s :
  exists k, s = JsString.strip_trailing_slashes s +:+ JsString.slashes k.
Proof.
  induction s as [|c s [k IH]].
  - exists 0. reflexivity.
  - cbn [JsString.strip_trailing_slashes].
    destruct (JsString.all_slashes (String c s)) eqn:E.
    + exists (String.length (String c s)). simpl String.append.
      now apply all_slashes_spec.
    + exists k.
      change (String c s
              = String c (JsString.strip_trailing_slashes s +:+ JsString.slashes k)).
      f_equal. exact IH.
Qed.

Lemma strip_no_trailing_slash s :
  JsString.last_char (JsString.strip_trailing_slashes s) <> Some "/"%char.
Proof.
  induction s as [|c s IH]; [discriminate|].
  cbn [JsString.strip_trailing_slashes].
  destruct (JsString.all_slashes (String c s)) eqn:E; [discriminate|].
  cbn [JsString.last_char].
  destruct (JsString.strip_trailing_slashes s) eqn:Es; [|exact IH].
  intros [= ->].
  destruct (strip_decompose s) as [k Hk]. rewrite Es in Hk. simpl in Hk.
  assert (JsString.all_slashes (String "/" s) = true) as Hall.
  { rewrite Hk. clear. simpl. induction k; simpl; auto. }
  congruence.
Qed.

End UrlBase.

(** What [generateServices] hands to [ejs.render], whatever the
    renderer and the transpiler: once [describeModels] has returned and
    the template is read, and unless the delimiter test of line 93
    throws, the result of the run is that of the renderer on one and the
    same data, then of the transpiler. *)
Lemma generateServices_renders
    (template : string) (app : App) (options : Options) (h : Heap)
    (t : list Event) (models : State) :
  describeModels app options h = (t, Ok models) ->
  (namespaceCommonModels options = true -> namespaceDelimiter options <> ".") ->
  let prefix :=
    if namespaceCommonModels options then
      replace_dots (namespaceDelimiter options)
        (ngModuleName options +:+ namespaceDelimiter options)
    else "LoopBack" in
  let d :=
    mkRenderData (ngModuleName options) models
      (prefix +:+ "Auth") (prefix +:+ "AuthRequestInterceptor")
      (prefix +:+ "Resource") (prefix +:+ "ResourceProvider")
      (JsString.strip_trailing_slashes (apiUrl options))
      (includeCommonModules options) (comments options) in
  forall (render : string -> RenderData -> Result string)
         (transform : string -> Result string),
    snd (generateServices (Ok template) render transform app options h)
    = match render template d with
      | Throw e => Throw e
      | Ok sdk =>
          match transform sdk with
          | Ok code => Ok code
          | Throw e => Throw (PlainError (errorMessage e))
          end
      end.
Proof.
  intros Hd Hdelim prefix d render transform.
  unfold generateServices. rewrite Hd. subst d prefix.
  destruct (namespaceCommonModels options).
  - destruct (String.eqb_spec (namespaceDelimiter options) ".") as [E|_];
      [now destruct (Hdelim eq_refl)|].
    destruct (render template _) as [sdk|e]; [|reflexivity].
    destruct (transform sdk); reflexivity.
  - destruct (render template _) as [sdk|e]; [|reflexivity].
    destruct (transform sdk); reflexivity.
Qed.

(** C10.  Once [describeModels] has returned and the template is read,
    and unless the delimiter test throws, every renderer is applied to
    data whose URL base is [apiUrl] without its trailing slashes:
    [apiUrl] is that base followed by slashes only, and the base does
    not end with a slash; the run returns what the renderer, then the
    transpiler, make of that data. *)
Theorem urlBase_is_apiUrl_without_trailing_slashes
    (template : string) (app : App) (options : Options) (h : Heap)
    (t : list Event) (models : State) :
  describeModels app options h = (t, Ok models) ->
  (namespaceCommonModels options = true -> namespaceDelimiter options <> ".") ->
  exists d,
    rd_urlBase d = JsString.strip_trailing_slashes (apiUrl options)
    /\ (exists k, apiUrl options = rd_urlBase d +:+ JsString.slashes k)
    /\ JsString.last_char (rd_urlBase d) <> Some "/"%char
    /\ forall (render : string -> RenderData -> Result string)
              (transform : string -> Result string),
         snd (generateServices (Ok template) render transform app options h)
         = match render template d with
           | Throw e => Throw e
           | Ok sdk =>
               match transform sdk with
               | Ok code => Ok code
               | Throw e => Throw (PlainError (errorMessage e))
               end
           end.
Proof.
  intros Hd Hdelim.
  pose proof (generateServices_renders template app options h t models
                Hd Hdelim) as H.
  cbv zeta in H. eexists. split; [|split; [|split; [|exact H]]].
  - reflexivity.
  - apply UrlBase.strip_decompose.
  - apply UrlBase.strip_no_trailing_slash.
Qed.

(** ** The store of method objects *)

Module HeapFacts.

Lemma view_lt h m f : view h m = Some f -> m < length h.
Proof.
  induction h as [|cell older IH]; simpl; [discriminate|].
  destruct (Nat.eqb_spec m (length older)); intros H; [lia|].
  apply IH in H. lia.
Qed.

Lemma view_fresh h : view h (length h) = None.
Proof.
  destruct (view h (length h)) eqn:E; [|reflexivity].
  apply view_lt in E. lia.
Qed.

Lemma length_update g h m : length (update g h m) = length h.
Proof.
  induction h as [|cell older IH]; simpl; [reflexivity|].
  destruct (Nat.eqb m (length older)); simpl; congruence.
Qed.

Lemma length_push a h m : length (push_resourceParams a h m) = length h.
Proof.
  revert m. induction h as [|cell older IH]; intros m; simpl; [reflexivity|].
  destruct (Nat.eqb m (length older)).
  - destruct cell as [f|p o].
    + destruct (resourceParams f); reflexivity.
    + destruct (o_resourceParams o); simpl; [reflexivity|]. now rewrite IH.
  - simpl. now rewrite IH.
Qed.

(** An object older than the newest one is read in the older store. *)
Lemma view_cons_older cell h m :
  m < length h -> view (cell :: h) m = view h m.
Proof.
  intros Hlt. simpl. destruct (Nat.eqb_spec m (length h)); [lia|reflexivity].
Qed.

Lemma view_cons_new p o h :
  view (Clone p o :: h) (length h) = apply_overrides o <$> view h p.
Proof. simpl. now rewrite Nat.eqb_refl. Qed.

Lemma update_head g cell h :
  update g (cell :: h) (length h) = g cell :: h.
Proof. simpl. now rewrite Nat.eqb_refl. Qed.

Lemma view_update_same g phi h m :
  acts g phi -> view (update g h m) m = phi <$> view h m.
Proof.
  intros [Hp Hc]. induction h as [|cell older IH]; simpl; [reflexivity|].
  destruct (Nat.eqb_spec m (length older)) as [->|Hne]; simpl.
  - rewrite Nat.eqb_refl. destruct cell as [f|p o].
    + now rewrite Hp.
    + destruct (Hc p o) as (o' & -> & Ho').
      destruct (view older p); simpl; [now rewrite Ho'|reflexivity].
  - rewrite length_update.
    destruct (Nat.eqb_spec m (length older)); [contradiction|exact IH].
Qed.

Lemma update_out_of_range g h m : length h <= m -> update g h m = h.
Proof.
  induction h as [|cell older IH]; simpl; [reflexivity|]. intros Hle.
  destruct (Nat.eqb_spec m (length older)); [lia|].
  f_equal. apply IH. lia.
Qed.

(** Objects older than the one assigned to answer as before. *)
Lemma view_update_older g h m j :
  j < m -> view (update g h m) j = view h j.
Proof.
  intros Hlt. induction h as [|cell older IH]; simpl; [reflexivity|].
  destruct (Nat.eqb_spec m (length older)) as [->|Hne]; simpl.
  - destruct (Nat.eqb_spec j (length older)); [lia|reflexivity].
  - rewrite length_update.
    destruct (Nat.eqb_spec j (length older)) as [->|Hj]; [|exact IH].
    (* j is the newest object, m is older or out of range *)
    rewrite update_out_of_range by lia. reflexivity.
Qed.

Lemma acts_set_name v : acts (set_name v) (f_set_name v).
Proof. split; [reflexivity|]. intros p o. eexists. split; reflexivity. Qed.

Lemma acts_set_accepts v : acts (set_accepts v) (f_set_accepts v).
Proof. split; [reflexivity|]. intros p o. eexists. split; reflexivity. Qed.

Lemma acts_set_isReturningArray v :
  acts (set_isReturningArray v) (f_set_isReturningArray v).
Proof. split; [reflexivity|]. intros p o. eexists. split; reflexivity. Qed.

Lemma acts_set_resourceParams v :
  acts (set_resourceParams v) (f_set_resourceParams v).
Proof. split; [reflexivity|]. intros p o. eexists. split; reflexivity. Qed.

Lemma acts_set_hasResourceParams v :
  acts (set_hasResourceParams v) (f_set_hasResourceParams v).
Proof. split; [reflexivity|]. intros p o. eexists. split; reflexivity. Qed.

Lemma acts_set_description v : acts (set_description v) (f_set_description v).
Proof. split; [reflexivity|]. intros p o. eexists. split; reflexivity. Qed.

Lemma acts_set_internal v : acts (set_internal v) (f_set_internal v).
Proof. split; [reflexivity|]. intros p o. eexists. split; reflexivity. Qed.

Lemma acts_set_deprecated v : acts (set_deprecated v) (f_set_deprecated v).
Proof. split; [reflexivity|]. intros p o. eexists. split; reflexivity. Qed.

End HeapFacts.

(** ** The method augmenter *)

Module Augmenter.

Lemma filterR_isCreate h methods :
  allMethods h methods ->
  filterR (isCreate h) methods = Ok (List.filter (namedCreate h) methods).
Proof.
  induction 1 as [|m l [f Hf] _ IH]; [reflexivity|].
  cbn [filterR List.filter]. rewrite IH.
  unfold isCreate, readMethod, namedCreate. rewrite Hf. reflexivity.
Qed.

(** The store after lines 181-186, for the single [create] at [m]. *)
Lemma addCreateMany_single h methods m :
  filterR (isCreate h) methods = Ok [m] ->
  addCreateMany h methods
  = Ok (set_isReturningArray true
          (set_name "createMany" (Clone m noOverrides)) :: h,
        methods ++ [length h]).
Proof.
  intros E. unfold addCreateMany. rewrite E.
  cbn [mbind Result_bind objectCreate].
  rewrite !HeapFacts.update_head. reflexivity.
Qed.

End Augmenter.

Module ResourceParams.

Import HeapFacts.

Lemma apply_overrides_push o fp v :
  o_resourceParams o = None ->
  apply_overrides o (f_set_resourceParams v fp)
  = f_set_resourceParams v (apply_overrides o fp).
Proof. destruct o; simpl. intros ->. reflexivity. Qed.

Lemma apply_overrides_own o fp l :
  o_resourceParams o = Some l ->
  resourceParams (apply_overrides o fp) = Some l.
Proof. destruct o; simpl. intros ->. reflexivity. Qed.

Lemma apply_overrides_inherited o fp :
  o_resourceParams o = None ->
  resourceParams (apply_overrides o fp) = resourceParams fp.
Proof. destruct o; simpl. intros ->. reflexivity. Qed.

(** A push through [method.resourceParams] is seen by [method]. *)
Lemma view_push_same a h : forall m f l,
  view h m = Some f ->
  resourceParams f = Some l ->
  view (push_resourceParams a h m) m
  = Some (f_set_resourceParams (l ++ [a]) f).
Proof.
  induction h as [|cell older IH]; intros m f l Hv Hl; [discriminate|].
  simpl in Hv |- *.
  destruct (Nat.eqb_spec m (length older)) as [->|Hne].
  - destruct cell as [f0|p o].
    + injection Hv as ->. rewrite Hl. simpl. now rewrite Nat.eqb_refl.
    + destruct (view older p) as [fp|] eqn:Hp; [|discriminate].
      injection Hv as <-.
      destruct (o_resourceParams o) as [l'|] eqn:Ho.
      * rewrite (apply_overrides_own _ _ _ Ho) in Hl. injection Hl as ->.
        simpl. rewrite Nat.eqb_refl, Hp.
        destruct o; simpl in *; subst; reflexivity.
      * rewrite (apply_overrides_inherited _ _ Ho) in Hl.
        simpl. rewrite length_push, Nat.eqb_refl.
        rewrite (IH p fp l Hp Hl). simpl. f_equal.
        now apply apply_overrides_push.
  - simpl. rewrite length_push.
    destruct (Nat.eqb_spec m (length older)); [contradiction|].
    now apply IH.
Qed.

Lemma view_findResourceParams m h a f :
  view h m = Some f ->
  view (findResourceParams m h a) m = Some (noteResourceParam f a).
Proof.
  intros Hv. unfold findResourceParams, noteResourceParam.
  destruct (isResourceParam a); [|exact Hv].
  rewrite Hv. destruct (resourceParams f) as [l|] eqn:Hl.
  - now apply view_push_same.
  - rewrite view_push_same
      with (l := []) (f := f_set_hasResourceParams true (f_set_resourceParams [] f)).
    + reflexivity.
    + rewrite (view_update_same _ _ _ _ (acts_set_hasResourceParams true)).
      rewrite (view_update_same _ _ _ _ (acts_set_resourceParams [])).
      rewrite Hv. reflexivity.
    + reflexivity.
Qed.

Lemma view_fold_findResourceParams m args : forall h f,
  view h m = Some f ->
  view (fold_left (findResourceParams m) args h) m
  = Some (fold_left noteResourceParam args f).
Proof.
  induction args as [|a args IH]; intros h f Hv; [exact Hv|].
  simpl. apply IH. now apply view_findResourceParams.
Qed.

Lemma noteResourceParam_fields f a :
  let g := noteResourceParam f a in
  name g = name f
  /\ accepts g = accepts f
  /\ isStatic g = isStatic f
  /\ restClass_ctor g = restClass_ctor f
  /\ isReturningArray g = isReturningArray f
  /\ description g = description f
  /\ internal g = internal f
  /\ deprecated g = deprecated f
  /\ if isResourceParam a then
       resourceParams g = Some (default [] (resourceParams f) ++ [a])
       /\ hasResourceParams g
          = match resourceParams f with
            | None => true
            | Some _ => hasResourceParams f
            end
     else g = f.
Proof.
  unfold noteResourceParam.
  destruct (isResourceParam a), (resourceParams f); cbn; repeat split.
Qed.

(** What the fold leaves in the fields, from what it found. *)
Lemma fold_noteResourceParam args : forall f,
  let found := List.filter isResourceParam args in
  let f' := fold_left noteResourceParam args f in
  name f' = name f
  /\ accepts f' = accepts f
  /\ isStatic f' = isStatic f
  /\ restClass_ctor f' = restClass_ctor f
  /\ isReturningArray f' = isReturningArray f
  /\ description f' = description f
  /\ internal f' = internal f
  /\ deprecated f' = deprecated f
  /\ match found with
     | [] => f' = f
     | _ :: _ =>
         resourceParams f' = Some (default [] (resourceParams f) ++ found)
         /\ hasResourceParams f'
            = match resourceParams f with
              | None => true
              | Some _ => hasResourceParams f
              end
     end.
Proof.
  induction args as [|a args IH]; intros f; [cbn; repeat split; reflexivity|].
  cbn [fold_left List.filter]. cbv zeta.
  specialize (IH (noteResourceParam f a)). cbv zeta in IH.
  destruct IH as (E1 & E2 & E3 & E4 & E5 & E6 & E7 & E8 & IH).
  destruct (noteResourceParam_fields f a)
    as (G1 & G2 & G3 & G4 & G5 & G6 & G7 & G8 & G).
  rewrite E1, E2, E3, E4, E5, E6, E7, E8. repeat (split; [assumption|]).
  destruct (isResourceParam a).
  - destruct G as [Grp Ghas].
    destruct (List.filter isResourceParam args) as [|b found'].
    + rewrite IH. split; assumption.
    + destruct IH as [-> ->]. rewrite Grp. simpl. rewrite <- app_assoc.
      split; [reflexivity|assumption].
  - rewrite G in IH. rewrite G. exact IH.
Qed.

End ResourceParams.

Module AugmenterRuns.

Import HeapFacts.

(** No assignment and no push changes whether a method is static, nor
    which addresses are objects. *)
Lemma isStatic_apply_overrides o f :
  isStatic (apply_overrides o f) = isStatic f.
Proof. reflexivity. Qed.

Lemma update_keeps_static g phi h j :
  acts g phi -> (forall f, isStatic (phi f) = isStatic f) ->
  forall m, (isStatic <$> view (update g h j) m) = (isStatic <$> view h m).
Proof.
  intros [Hp Hc] Hphi. induction h as [|cell older IH]; intros m; [reflexivity|].
  cbn [update].
  destruct (Nat.eqb_spec j (length older)) as [->|Hj]; cbn [view].
  - destruct (Nat.eqb m (length older)); [|reflexivity].
    destruct cell as [f|p o].
    + rewrite Hp. cbn. now rewrite Hphi.
    + destruct (Hc p o) as (o' & -> & Ho').
      destruct (view older p); reflexivity.
  - rewrite length_update.
    destruct (Nat.eqb m (length older)); [|apply IH].
    destruct cell as [f|p o]; [reflexivity|].
    specialize (IH p).
    destruct (view (update g older j) p), (view older p); cbn in *; congruence.
Qed.

Lemma push_keeps_static a h : forall j m,
  (isStatic <$> view (push_resourceParams a h j) m) = (isStatic <$> view h m).
Proof.
  induction h as [|cell older IH]; intros j m; [reflexivity|].
  cbn [push_resourceParams].
  assert (forall cell' older',
             length older' = length older ->
             (forall p, (isStatic <$> view older' p) = (isStatic <$> view older p)) ->
             match cell, cell' with
             | Plain f, Plain f' => isStatic f' = isStatic f
             | Clone p o, Clone p' o' => p' = p
             | _, _ => False
             end ->
             (isStatic <$> view (cell' :: older') m)
             = (isStatic <$> view (cell :: older) m)) as Hgen.
  { intros cell' older' Hlen Hold Hcell. cbn [view]. rewrite Hlen.
    destruct (Nat.eqb m (length older)); [|apply Hold].
    destruct cell as [f|p o], cell' as [f'|p' o']; try contradiction.
    - cbn. now rewrite Hcell.
    - subst p'. specialize (Hold p).
      destruct (view older' p), (view older p); cbn in *; congruence. }
  destruct (Nat.eqb j (length older)).
  - destruct cell as [f|p o].
    + destruct (resourceParams f); [|reflexivity].
      apply Hgen; [reflexivity|reflexivity|reflexivity].
    + destruct (o_resourceParams o).
      * apply Hgen; [reflexivity|reflexivity|reflexivity].
      * apply Hgen; [apply length_push|intros p'; apply IH|reflexivity].
  - apply Hgen; [apply length_push|intros p'; apply IH|].
    destruct cell; reflexivity.
Qed.

Lemma findResourceParams_keeps_static j h a m :
  (isStatic <$> view (findResourceParams j h a) m) = (isStatic <$> view h m).
Proof.
  unfold findResourceParams. destruct (isResourceParam a); [|reflexivity].
  rewrite push_keeps_static.
  destruct (view h j) as [f|]; [|reflexivity].
  destruct (resourceParams f); [reflexivity|].
  rewrite (update_keeps_static _ _ _ _ (acts_set_hasResourceParams true))
    by reflexivity.
  now rewrite (update_keeps_static _ _ _ _ (acts_set_resourceParams []))
    by reflexivity.
Qed.

Lemma fold_findResourceParams_keeps_static j args : forall h m,
  (isStatic <$> view (fold_left (findResourceParams j) args h) m)
  = (isStatic <$> view h m).
Proof.
  induction args as [|a args IH]; intros h m; [reflexivity|].
  cbn [fold_left]. now rewrite IH, findResourceParams_keeps_static.
Qed.

Lemma fixArgs_keeps_static h j h' :
  fixArgsOfPrototypeMethods h j = Ok h' ->
  forall m, (isStatic <$> view h' m) = (isStatic <$> view h m).
Proof.
  unfold fixArgsOfPrototypeMethods, readMethod.
  destruct (view h j) as [f|]; [|discriminate].
  cbn [ofOption mbind Result_bind].
  destruct (restClass_ctor f) as [ctor|]; [|now intros [= <-]].
  destruct (isStatic f); [now intros [= <-]|].
  intros [= <-] m. rewrite fold_findResourceParams_keeps_static.
  now rewrite (update_keeps_static _ _ _ _ (acts_set_accepts _)) by reflexivity.
Qed.

Lemma fixDescription_keeps_static h j h' :
  fixDescription h j = Ok h' ->
  forall m, (isStatic <$> view h' m) = (isStatic <$> view h m).
Proof.
  unfold fixDescription, readMethod.
  destruct (view h j) as [f|]; [|discriminate].
  cbn [ofOption mbind Result_bind]. intros [= <-] m.
  now rewrite (update_keeps_static _ _ _ _ (acts_set_description _)) by reflexivity.
Qed.

Lemma is_Some_static h h' m :
  (isStatic <$> view h' m) = (isStatic <$> view h m) ->
  is_Some (view h m) -> is_Some (view h' m).
Proof.
  intros E [f Hf]. rewrite Hf in E.
  destruct (view h' m); [eauto|discriminate].
Qed.

(** The two loops over the methods return. *)
Lemma loop_returns (step : Heap -> nat -> Result Heap) :
  (forall h j, is_Some (view h j) -> exists h', step h j = Ok h') ->
  (forall h j h', step h j = Ok h' ->
     forall m, (isStatic <$> view h' m) = (isStatic <$> view h m)) ->
  forall methods h,
    allMethods h methods ->
    exists h',
      forEachR step methods h = Ok h'
      /\ forall m, (isStatic <$> view h' m) = (isStatic <$> view h m).
Proof.
  intros Htotal Hkeep. induction methods as [|j methods IH]; intros h Hall.
  - exists h. split; reflexivity.
  - inversion Hall as [|? ? Hj Hrest]; subst.
    destruct (Htotal h j Hj) as [h1 H1].
    destruct (IH h1) as (h' & H' & Hk).
    { unfold allMethods in *. eapply List.Forall_impl; [|exact Hrest].
      intros m. apply is_Some_static. eapply Hkeep; eauto. }
    exists h'. cbn [forEachR mbind Result_bind]. rewrite H1.
    split; [exact H'|]. intros m. rewrite Hk. eapply Hkeep; eauto.
Qed.

Lemma fixArgs_returns h j :
  is_Some (view h j) -> exists h', fixArgsOfPrototypeMethods h j = Ok h'.
Proof.
  intros [f Hf]. unfold fixArgsOfPrototypeMethods, readMethod. rewrite Hf.
  cbn [ofOption mbind Result_bind].
  destruct (restClass_ctor f); [destruct (isStatic f)|]; eauto.
Qed.

Lemma fixDescription_returns h j :
  is_Some (view h j) -> exists h', fixDescription h j = Ok h'.
Proof.
  intros [f Hf]. unfold fixDescription, readMethod. rewrite Hf. cbn. eauto.
Qed.















(** The method augmenter returns on every list of methods, with the
    list that [addCreateMany] made. *)
Lemma augmentMethods_returns h methods h1 methods1 :
  addCreateMany h methods = Ok (h1, methods1) ->
  allMethods h1 methods1 ->
  exists h2 h3,
    forEachR fixArgsOfPrototypeMethods methods1 h1 = Ok h2
    /\ forEachR fixDescription methods1 h2 = Ok h3
    /\ augmentMethods h methods = Ok (h3, methods1).
Proof.
  intros Hadd Hall.
  destruct (loop_returns fixArgsOfPrototypeMethods fixArgs_returns
              fixArgs_keeps_static methods1 h1 Hall) as (h2 & H2 & K2).
  assert (allMethods h2 methods1) as Hall2.
  { unfold allMethods in *. eapply List.Forall_impl; [|exact Hall].
    intros m. apply is_Some_static, K2. }
  destruct (loop_returns fixDescription fixDescription_returns
              fixDescription_keeps_static methods1 h2 Hall2) as (h3 & H3 & _).
  exists h2, h3. split; [exact H2|]. split; [exact H3|].
  unfold augmentMethods. rewrite Hadd. cbn [mbind Result_bind].
  rewrite H2. cbn [mbind Result_bind]. rewrite H3. reflexivity.
Qed.

End AugmenterRuns.



(** One call of [fixArgsOfPrototypeMethods] on an instance method
    whose class has a shared constructor leaves the method accepting the
    constructor's parameters followed by the parameters it accepted when
    the call began, in that order; on a method whose class has no shared
    constructor the call changes nothing. *)
Lemma fixArgs_prepends_ctor_params
    (h : Heap) (m : nat) (f : MethodFields) :
  view h m = Some f ->
  match restClass_ctor f with
  | Some ctor =>
      isStatic f = false ->
      exists h' f',
        fixArgsOfPrototypeMethods h m = Ok h'
        /\ view h' m = Some f'
        /\ accepts f' = ctor_accepts ctor ++ accepts f
  | None => fixArgsOfPrototypeMethods h m = Ok h
  end.
Proof.
  intros Hv. unfold fixArgsOfPrototypeMethods, readMethod. rewrite Hv.
  cbn [ofOption mbind Result_bind].
  destruct (restClass_ctor f) as [ctor|]; [|reflexivity].
  intros ->.
  set (new_accepts := ctor_accepts ctor ++ accepts f).
  assert (view (update (set_accepts new_accepts) h m) m
          = Some (f_set_accepts new_accepts f)) as Hv1.
  { rewrite (HeapFacts.view_update_same _ _ _ _
               (HeapFacts.acts_set_accepts new_accepts)), Hv.
    reflexivity. }
  eexists _, _. split; [reflexivity|]. split.
  - apply ResourceParams.view_fold_findResourceParams. exact Hv1.
  - destruct (ResourceParams.fold_noteResourceParam new_accepts
                (f_set_accepts new_accepts f)) as (_ & -> & _).
    reflexivity.
Qed.

(** One call of [fixArgsOfPrototypeMethods] on an instance method whose
    class has a shared constructor appends to the method's resource
    parameters every parameter, of the constructor then of the method,
    that comes from the path and is not [id], in order, and marks the
    method when the list had to be created.  A static method, or one
    whose class has no shared constructor, is left as it was. *)
Lemma fixArgs_collects_resource_params
    (h : Heap) (m : nat) (f : MethodFields) :
  view h m = Some f ->
  match restClass_ctor f, isStatic f with
  | Some ctor, false =>
      exists h' f',
        fixArgsOfPrototypeMethods h m = Ok h'
        /\ view h' m = Some f'
        /\ match List.filter isResourceParam (ctor_accepts ctor ++ accepts f) with
           | [] =>
               resourceParams f' = resourceParams f
               /\ hasResourceParams f' = hasResourceParams f
           | found =>
               resourceParams f' = Some (default [] (resourceParams f) ++ found)
               /\ hasResourceParams f'
                  = match resourceParams f with
                    | None => true
                    | Some _ => hasResourceParams f
                    end
           end
  | _, _ => fixArgsOfPrototypeMethods h m = Ok h
  end.
Proof.
  intros Hv. unfold fixArgsOfPrototypeMethods, readMethod. rewrite Hv.
  cbn [ofOption mbind Result_bind].
  destruct (restClass_ctor f) as [ctor|]; [|reflexivity].
  destruct (isStatic f); [reflexivity|].
  set (new_accepts := ctor_accepts ctor ++ accepts f).
  assert (view (update (set_accepts new_accepts) h m) m
          = Some (f_set_accepts new_accepts f)) as Hv1.
  { rewrite (HeapFacts.view_update_same _ _ _ _
               (HeapFacts.acts_set_accepts new_accepts)), Hv.
    reflexivity. }
  eexists _, _. split; [reflexivity|]. split.
  - apply ResourceParams.view_fold_findResourceParams. exact Hv1.
  - destruct (ResourceParams.fold_noteResourceParam new_accepts
                (f_set_accepts new_accepts f)) as (_&_&_&_&_&_&_&_& H).
    cbv zeta in H.
    destruct (List.filter isResourceParam new_accepts) as [|a found].
    + rewrite H. split; reflexivity.
    + exact H.
Qed.


(** ** Methods of the registry through the whole augmenter *)

Module RegistryMethods.

Import HeapFacts AugmenterRuns.

Lemma plainSignature_view h m sg :
  plainSignature h m = Some sg -> (signature <$> view h m) = Some sg.
Proof.
  unfold plainSignature. induction h as [|cell older IH]; cbn; [discriminate|].
  destruct (Nat.eqb m (length older)); [|exact IH].
  destruct cell as [f|p o]; [|discriminate]. now intros [= <-].
Qed.

Lemma plainSignature_cons cell h m :
  m < length h -> plainSignature (cell :: h) m = plainSignature h m.
Proof.
  intros Hlt. unfold plainSignature. cbn.
  destruct (Nat.eqb_spec m (length h)); [lia|reflexivity].
Qed.

Lemma plainSignature_lt h m sg : plainSignature h m = Some sg -> m < length h.
Proof.
  intros H. apply plainSignature_view in H.
  destruct (view h m) eqn:E; [|discriminate]. eapply view_lt; eauto.
Qed.

(** An assignment elsewhere, or one that keeps the parameters. *)
Lemma plainSignature_update g phi h j m :
  acts g phi ->
  j <> m \/ (forall f, signature (phi f) = signature f) ->
  plainSignature (update g h j) m = plainSignature h m.
Proof.
  intros [Hp Hc] Hor. unfold plainSignature.
  induction h as [|cell older IH]; [reflexivity|]. cbn [update].
  destruct (Nat.eqb_spec j (length older)) as [->|Hj]; cbn [cellAt].
  - destruct (Nat.eqb_spec m (length older)) as [->|]; [|reflexivity].
    destruct Hor as [Hne|Hphi]; [contradiction|].
    destruct cell as [f|p o].
    + rewrite Hp. cbn. now rewrite Hphi.
    + destruct (Hc p o) as (o' & -> & _). reflexivity.
  - rewrite length_update.
    destruct (Nat.eqb m (length older)); [reflexivity|exact IH].
Qed.

Lemma plainSignature_set_accepts v h m l st c :
  plainSignature h m = Some (l, st, c) ->
  plainSignature (update (set_accepts v) h m) m = Some (v, st, c).
Proof.
  unfold plainSignature. induction h as [|cell older IH]; [discriminate|].
  cbn [update cellAt].
  destruct (Nat.eqb_spec m (length older)) as [->|Hm]; cbn [cellAt].
  - rewrite Nat.eqb_refl. destruct cell; [|discriminate].
    unfold signature. cbn. now intros [= <- <- <-].
  - rewrite length_update.
    destruct (Nat.eqb_spec m (length older)); [contradiction|exact IH].
Qed.

Lemma plainSignature_push a h : forall j m,
  plainSignature (push_resourceParams a h j) m = plainSignature h m.
Proof.
  unfold plainSignature.
  induction h as [|cell older IH]; intros j m; [reflexivity|].
  cbn [push_resourceParams].
  destruct (Nat.eqb j (length older)).
  - destruct cell as [f|p o].
    + destruct (resourceParams f); [|reflexivity]. cbn.
      destruct (Nat.eqb m (length older)); reflexivity.
    + destruct (o_resourceParams o); cbn.
      * destruct (Nat.eqb m (length older)); reflexivity.
      * rewrite length_push.
        destruct (Nat.eqb m (length older)); [reflexivity|apply IH].
  - cbn. rewrite length_push.
    destruct (Nat.eqb m (length older)); [reflexivity|apply IH].
Qed.

Lemma plainSignature_findResourceParams j h a m :
  plainSignature (findResourceParams j h a) m = plainSignature h m.
Proof.
  unfold findResourceParams. destruct (isResourceParam a); [|reflexivity].
  rewrite plainSignature_push.
  destruct (view h j) as [f|]; [|reflexivity].
  destruct (resourceParams f); [reflexivity|].
  rewrite (plainSignature_update _ _ _ _ _ (acts_set_hasResourceParams true))
    by (right; reflexivity).
  now rewrite (plainSignature_update _ _ _ _ _ (acts_set_resourceParams []))
    by (right; reflexivity).
Qed.

Lemma plainSignature_fold j args : forall h m,
  plainSignature (fold_left (findResourceParams j) args h) m = plainSignature h m.
Proof.
  induction args as [|a args IH]; intros h m; [reflexivity|].
  cbn [fold_left]. now rewrite IH, plainSignature_findResourceParams.
Qed.

Lemma fixArgs_elsewhere h j h' m :
  fixArgsOfPrototypeMethods h j = Ok h' -> j <> m ->
  plainSignature h' m = plainSignature h m.
Proof.
  unfold fixArgsOfPrototypeMethods, readMethod.
  destruct (view h j) as [f|]; [|discriminate].
  cbn [ofOption mbind Result_bind].
  destruct (restClass_ctor f) as [ctor|]; [|now intros [= <-]].
  destruct (isStatic f); [now intros [= <-]|].
  intros [= <-] Hne. rewrite plainSignature_fold.
  now rewrite (plainSignature_update _ _ _ _ _ (acts_set_accepts _)) by (left; exact Hne).
Qed.

Lemma fixArgs_here h m h' sg :
  fixArgsOfPrototypeMethods h m = Ok h' ->
  plainSignature h m = Some sg ->
  plainSignature h' m = Some (effective sg).
Proof.
  intros H Hp. pose proof (plainSignature_view _ _ _ Hp) as Hv.
  unfold fixArgsOfPrototypeMethods, readMethod in H.
  destruct (view h m) as [f|]; [|discriminate].
  cbn in Hv. injection Hv as <-. unfold signature in *.
  cbn [ofOption mbind Result_bind] in H. cbn [effective].
  destruct (restClass_ctor f) as [ctor|]; [|now injection H as <-].
  destruct (isStatic f); [now injection H as <-|].
  injection H as <-. rewrite plainSignature_fold.
  eapply plainSignature_set_accepts; eauto.
Qed.

Lemma fixDescription_keeps h j h' m :
  fixDescription h j = Ok h' -> plainSignature h' m = plainSignature h m.
Proof.
  unfold fixDescription, readMethod.
  destruct (view h j) as [f|]; [|discriminate].
  cbn [ofOption mbind Result_bind]. intros [= <-].
  now rewrite (plainSignature_update _ _ _ _ _ (acts_set_description _))
    by (right; reflexivity).
Qed.

Lemma loop_elsewhere (step : Heap -> nat -> Result Heap) m :
  (forall h j h', step h j = Ok h' -> j <> m ->
     plainSignature h' m = plainSignature h m) ->
  forall methods h h',
    ~ In m methods ->
    forEachR step methods h = Ok h' ->
    plainSignature h' m = plainSignature h m.
Proof.
  intros Hstep. induction methods as [|j methods IH]; intros h h' Hnin H.
  - now injection H as <-.
  - cbn [forEachR mbind Result_bind] in H.
    destruct (step h j) as [h1|] eqn:H1; [|discriminate].
    rewrite (IH h1 h'); [|intros Hin; apply Hnin; now right|exact H].
    eapply Hstep; eauto. intros ->. apply Hnin. now left.
Qed.

Lemma fixArgs_loop methods : forall h h' m sg,
  List.NoDup methods ->
  In m methods ->
  plainSignature h m = Some sg ->
  forEachR fixArgsOfPrototypeMethods methods h = Ok h' ->
  plainSignature h' m = Some (effective sg).
Proof.
  induction methods as [|j methods IH]; intros h h' m sg Hnd Hin Hp H;
    [contradiction|].
  inversion Hnd as [|? ? Hnin Hnd']; subst.
  cbn [forEachR mbind Result_bind] in H.
  destruct (fixArgsOfPrototypeMethods h j) as [h1|] eqn:H1; [|discriminate].
  destruct (Nat.eq_dec j m) as [->|Hne].
  - cbn [mbind Result_bind] in H.
    rewrite (loop_elsewhere fixArgsOfPrototypeMethods m
               (fun h j h' => fixArgs_elsewhere h j h' m)
               methods h1 h' Hnin H).
    eapply fixArgs_here; eauto.
  - destruct Hin as [->|Hin]; [contradiction|].
    apply (IH h1 h' m sg Hnd' Hin); [|exact H].
    rewrite (fixArgs_elsewhere _ _ _ m H1 Hne). exact Hp.
Qed.

Lemma fixDescription_loop methods : forall h h' m,
  forEachR fixDescription methods h = Ok h' ->
  plainSignature h' m = plainSignature h m.
Proof.
  induction methods as [|j methods IH]; intros h h' m H.
  - now injection H as <-.
  - cbn [forEachR mbind Result_bind] in H.
    destruct (fixDescription h j) as [h1|] eqn:H1; [|discriminate].
    rewrite (IH _ _ _ H). eapply fixDescription_keeps; eauto.
Qed.

Lemma filterR_all h methods l :
  filterR (isCreate h) methods = Ok l -> allMethods h methods.
Proof.
  revert l. induction methods as [|j methods IH]; intros l H; [constructor|].
  cbn [filterR] in H.
  destruct (isCreate h j) as [b|] eqn:Hb; [|discriminate].
  cbn [mbind Result_bind] in H.
  destruct (filterR (isCreate h) methods) as [r|]; [|discriminate].
  constructor; [|eapply IH; eauto].
  unfold isCreate, readMethod in Hb.
  destruct (view h j); [eauto|discriminate].
Qed.

(** After the whole augmenter, a method of the registry that the list
    holds once accepts the parameters of the shared constructor followed
    by its own when it is an instance method of a class with a shared
    constructor, and its own otherwise. *)
Lemma registry_method_after_augmenter h methods m sg h3 methods' :
  List.NoDup methods ->
  In m methods ->
  plainSignature h m = Some sg ->
  augmentMethods h methods = Ok (h3, methods') ->
  plainSignature h3 m = Some (effective sg)
  /\ (signature <$> view h3 m) = Some (effective sg).
Proof.
  intros Hnd Hin Hp H.
  enough (plainSignature h3 m = Some (effective sg)) as E
    by (split; [exact E|now apply plainSignature_view]).
  unfold augmentMethods in H.
  destruct (addCreateMany h methods) as [[h1 methods1]|] eqn:Hadd;
    [|discriminate].
  cbn [mbind Result_bind] in H.
  destruct (forEachR fixArgsOfPrototypeMethods methods1 h1) as [h2|] eqn:H2;
    [|discriminate].
  cbn [mbind Result_bind] in H.
  destruct (forEachR fixDescription methods1 h2) as [h3'|] eqn:H3;
    [|discriminate].
  injection H as <- <-.
  rewrite (fixDescription_loop _ _ _ m H3).
  assert (List.NoDup methods1 /\ In m methods1
          /\ plainSignature h1 m = Some sg) as (Hnd1 & Hin1 & Hp1).
  { unfold addCreateMany in Hadd.
    destruct (filterR (isCreate h) methods) as [l|] eqn:Hf; [|discriminate].
    cbn [mbind Result_bind] in Hadd.
    pose proof (filterR_all _ _ _ Hf) as Hall.
    destruct l as [|m0 [|? ?]];
      [injection Hadd as <- <-; auto| |injection Hadd as <- <-; auto].
    cbn [objectCreate] in Hadd. rewrite !update_head in Hadd.
    injection Hadd as <- <-.
    split; [|split].
    - apply List.NoDup_app; [exact Hnd|repeat constructor; intros []|].
      intros x Hx [<-|[]]. unfold allMethods in Hall.
      rewrite List.Forall_forall in Hall. destruct (Hall _ Hx) as [f Hv].
      apply view_lt in Hv. lia.
    - apply in_or_app. now left.
    - rewrite plainSignature_cons; [exact Hp|].
      eapply plainSignature_lt; eauto. }
  eapply fixArgs_loop; eauto.
Qed.

End RegistryMethods.

(** C7 as the claim has it fails on a static method: its path parameter
    [fk] is not collected, neither by the callback nor by the whole loop
    over the classes. *)
Lemma static_method_path_param_not_collected :
  let f := Sample.restMethod "findByFk" true [Sample.argFk] in
  view Sample.store 4 = Some f
  /\ In Sample.argFk (accepts f)
  /\ isResourceParam Sample.argFk = true
  /\ fixArgsOfPrototypeMethods Sample.store 4 = Ok Sample.store
  /\ match collectModels (Sample.app "gadget" "widget" "widget")
             (Sample.options "/" false []) Sample.store with
     | Ok st =>
         (resourceParams <$> view (heap st) 4) = Some None
         /\ (hasResourceParams <$> view (heap st) 4) = Some false
     | Throw _ => False
     end.
Proof. vm_compute. repeat split; auto. Qed.

Lemma urlBase_is_apiUrl_without_trailing_slashes_witness :
  exists d,
    rd_urlBase d = "http://x/api"
    /\ forall (render : string -> RenderData -> Result string)
              (transform : string -> Result string),
         snd (generateServices (Ok "template") render transform
                (Sample.app "gadget" "widget" "widget")
                (Sample.options "http://x/api///" false []) Sample.store)
         = match render "template" d with
           | Throw e => Throw e
           | Ok sdk =>
               match transform sdk with
               | Ok code => Ok code
               | Throw e => Throw (PlainError (errorMessage e))
               end
           end.
Proof.
  destruct (urlBase_is_apiUrl_without_trailing_slashes "template"
              (Sample.app "gadget" "widget" "widget")
              (Sample.options "http://x/api///" false []) Sample.store
              (fst (describeModels (Sample.app "gadget" "widget" "widget")
                      (Sample.options "http://x/api///" false [])
                      Sample.store))
              (Sample.stateAfter
                 (describeModels (Sample.app "gadget" "widget" "widget")
                    (Sample.options "http://x/api///" false [])
                    Sample.store)))
    as (d & E & _ & _ & H).
  - vm_compute. reflexivity.
  - discriminate.
  - exists d. split; [exact E|exact H].
Defined.

(** ** The model map *)

Lemma lookup_setModel ms k c k' :
  lookupModel (setModel ms k c) k'
  = if String.eqb k' k then Some c else lookupModel ms k'.
Proof.
  induction ms as [|[k0 c0] ms IH]; simpl.
  - destruct (String.eqb_spec k' k); reflexivity.
  - destruct (String.eqb_spec k k0) as [->|Hne]; simpl.
    + destruct (String.eqb_spec k' k0); reflexivity.
    + destruct (String.eqb_spec k' k0) as [->|Hne'].
      * destruct (String.eqb_spec k0 k); [congruence|reflexivity].
      * exact IH.
Qed.

(** ** Classes that are not models *)

Lemma forEachR_app {A S} (f : S -> A -> Result S) (l1 l2 : list A) (s : S) :
  forEachR f (l1 ++ l2) s = (s1 ← forEachR f l1 s; forEachR f l2 s1).
Proof.
  revert s. induction l1 as [|x l1 IH]; intros s; [reflexivity|].
  cbn [app forEachR mbind Result_bind].
  destruct (f s x) as [s'|e]; [apply IH|reflexivity].
Qed.




(** Every class of the result map has a shared constructor. *)
Lemma collected_classes_have_ctor (options : Options) (l : list RestClass) :
  forall st st',
    (forall k c, lookupModel (models st) k = Some c -> c_ctor c <> None) ->
    forEachR (describeClass options) l st = Ok st' ->
    forall k c, lookupModel (models st') k = Some c -> c_ctor c <> None.
Proof.
  induction l as [|c0 l IH]; intros st st' Hinv Hrun.
  - injection Hrun as <-. exact Hinv.
  - cbn [forEachR mbind Result_bind] in Hrun.
    destruct (describeClass options st c0) as [st1|e] eqn:Hstep; [|discriminate].
    apply (IH st1 st'); [|exact Hrun].
    clear IH Hrun. unfold describeClass in Hstep.
    destruct (getFormattedModelName (c_name c0) options) as [name|];
      [|discriminate].
    cbn [mbind Result_bind] in Hstep.
    destruct (c_settings c0) as [sd|]; [|discriminate].
    cbn [ofOption mbind Result_bind] in Hstep.
    destruct (ignored options name); [injection Hstep as <-; exact Hinv|].
    cbn [with_description c_ctor] in Hstep.
    destruct (c_ctor c0) as [ctor|] eqn:Hctor; [|injection Hstep as <-; exact Hinv].
    destruct (augmentMethods _ _) as [[h3 methods1]|]; [|discriminate].
    cbn [mbind Result_bind] in Hstep.
    injection Hstep as <-. cbn [models].
    intros k c. rewrite lookup_setModel.
    destruct (String.eqb k name); [|apply Hinv].
    intros [= <-]. cbn. rewrite Hctor. discriminate.
Qed.

(** ** The reserved delimiter *)

(** C6 as the claim has it fails: with common-model namespacing on and
    the delimiter [.], the error is raised once [describeModels] has
    run.  On the sample application the run has collected both models,
    added a [createMany] clone to each, resolved the relation and read
    the template when it throws. *)
Lemma delimiter_error_raised_after_describeModels :
  match generateServices Sample.template Sample.render Sample.transform
          (Sample.app "gadget" "widget" "widget") (Sample.options "/" true [])
          Sample.store with
  | ([DescribedModels t st; TemplateRead], Throw e) =>
      e = unsupportedDelimiter
      /\ map fst (models st) = ["Gadget"; "Widget"]
      /\ length Sample.store = 6
      /\ length (heap st) = 16
      /\ t <> []
  | _ => False
  end.
Proof. vm_compute. repeat split. discriminate. Qed.

(** C6, as the code has it.  With common-model namespacing on and the
    delimiter [.], a run whose [describeModels] returns and whose
    template is read throws the configuration error at that point: the
    models have been collected, augmented and their scopes resolved,
    and neither the renderer nor the transpiler has been called. *)
Theorem delimiter_error_raised_before_rendering
    (servicesTemplate : Result string)
    (render : string -> RenderData -> Result string)
    (transform : string -> Result string)
    (app : App) (options : Options) (h : Heap)
    (t : list Event) (st : State) (template : string) :
  namespaceCommonModels options = true ->
  namespaceDelimiter options = "." ->
  describeModels app options h = (t, Ok st) ->
  servicesTemplate = Ok template ->
  generateServices servicesTemplate render transform app options h
  = ([DescribedModels t st; TemplateRead], Throw unsupportedDelimiter).
Proof.
  intros Hns Hd Hdescribe ->. unfold generateServices.
  rewrite Hdescribe, Hns, Hd. reflexivity.
Qed.

Lemma delimiter_error_raised_before_rendering_witness :
  exists t st,
    generateServices Sample.template Sample.render Sample.transform
      (Sample.app "gadget" "widget" "widget") (Sample.options "/" true []) Sample.store
    = ([DescribedModels t st; TemplateRead], Throw unsupportedDelimiter).
Proof.
  eexists _, _.
  apply (delimiter_error_raised_before_rendering
           Sample.template Sample.render Sample.transform
           (Sample.app "gadget" "widget" "widget") (Sample.options "/" true [])
           Sample.store _ _ "template"); [reflexivity|reflexivity| |reflexivity].
  vm_compute. reflexivity.
Defined.

(** ** Scope resolution *)

Module ModelFacts.

Lemma keys_setModel ms k c :
  is_Some (lookupModel ms k) -> map fst (setModel ms k c) = map fst ms.
Proof.
  induction ms as [|[k0 c0] ms IH]; simpl; intros [c' H]; [discriminate|].
  destruct (String.eqb_spec k k0) as [->|Hne]; simpl; [reflexivity|].
  f_equal. apply IH. eauto.
Qed.

Lemma keys_updModel ms k g : map fst (updModel ms k g) = map fst ms.
Proof.
  unfold updModel. destruct (lookupModel ms k) eqn:E; [|reflexivity].
  apply keys_setModel. eauto.
Qed.

Lemma lookup_updModel ms k g k' :
  lookupModel (updModel ms k g) k'
  = if String.eqb k' k then g <$> lookupModel ms k else lookupModel ms k'.
Proof.
  unfold updModel. destruct (lookupModel ms k) as [c|] eqn:E.
  - rewrite lookup_setModel. destruct (String.eqb k' k); reflexivity.
  - destruct (String.eqb_spec k' k) as [->|]; [now rewrite E|reflexivity].
Qed.

Lemma lookup_keys ms k : is_Some (lookupModel ms k) <-> In k (map fst ms).
Proof.
  induction ms as [|[k0 c0] ms IH]; simpl.
  - split; [intros [? ?]; discriminate|contradiction].
  - destruct (String.eqb_spec k k0) as [->|Hne].
    + split; eauto.
    + rewrite IH. split; [auto|]. intros [H|H]; [congruence|exact H].
Qed.

(** [findModelByName] reads the keys only. *)
Lemma findModelByName_keys ms ms' n :
  map fst ms = map fst ms' -> findModelByName ms n = findModelByName ms' n.
Proof.
  revert ms'. induction ms as [|[k c] ms IH]; intros [|[k' c'] ms'] H;
    try discriminate; [reflexivity|].
  simpl in H. injection H as -> H. simpl.
  destruct n as [nm|]; [|reflexivity].
  destruct (String.eqb _ _); [reflexivity|]. now apply IH.
Qed.

Lemma findModelByName_found ms n T :
  findModelByName ms n = Ok (Some T) -> In T (map fst ms).
Proof.
  induction ms as [|[k c] ms IH]; simpl; [discriminate|].
  destruct n as [nm|]; [|discriminate].
  destruct (String.eqb _ _); [intros [= ->]; now left|].
  intros H. right. now apply IH.
Qed.

(** The three views of the model map under the two mutations. *)
Lemma scopes_pushMethod ms T m k :
  modelScopes (pushMethod ms T m) k = modelScopes ms k.
Proof.
  unfold modelScopes, pushMethod. rewrite lookup_updModel.
  destruct (String.eqb_spec k T) as [->|]; [|reflexivity].
  destruct (lookupModel ms T); reflexivity.
Qed.

Lemma relations_pushMethod ms T m k :
  modelRelations (pushMethod ms T m) k = modelRelations ms k.
Proof.
  unfold modelRelations, pushMethod. rewrite lookup_updModel.
  destruct (String.eqb_spec k T) as [->|]; [|reflexivity].
  destruct (lookupModel ms T); reflexivity.
Qed.

Lemma methods_pushMethod ms T m k :
  modelMethods (pushMethod ms T m) k
  = if String.eqb k T then (fun l => l ++ [m]) <$> modelMethods ms k
    else modelMethods ms k.
Proof.
  unfold modelMethods, pushMethod. rewrite lookup_updModel.
  destruct (String.eqb_spec k T) as [->|]; [|reflexivity].
  destruct (lookupModel ms T); reflexivity.
Qed.

Lemma scopes_setScope ms M s v k :
  modelScopes (setScope ms M s v) k
  = if String.eqb k M then
      (fun c => <[s := v]> (default ∅ (c_scopes c))) <$> lookupModel ms M
    else modelScopes ms k.
Proof.
  unfold modelScopes, setScope. rewrite lookup_updModel.
  destruct (String.eqb_spec k M) as [->|]; [|reflexivity].
  destruct (lookupModel ms M); reflexivity.
Qed.

Lemma scopes_setScope_same ms M s v sc :
  modelScopes ms M = Some sc ->
  modelScopes (setScope ms M s v) M = Some (<[s := v]> sc).
Proof.
  intros H. rewrite scopes_setScope, String.eqb_refl.
  unfold modelScopes in H. destruct (lookupModel ms M) as [c|]; [|discriminate].
  simpl in H |- *. now rewrite H.
Qed.

Lemma scopes_setScope_other ms M s v k :
  k <> M -> modelScopes (setScope ms M s v) k = modelScopes ms k.
Proof.
  intros H. rewrite scopes_setScope.
  destruct (String.eqb_spec k M); [contradiction|reflexivity].
Qed.

Lemma relations_setScope ms M s v k :
  modelRelations (setScope ms M s v) k = modelRelations ms k.
Proof.
  unfold modelRelations, setScope. rewrite lookup_updModel.
  destruct (String.eqb_spec k M) as [->|]; [|reflexivity].
  destruct (lookupModel ms M); reflexivity.
Qed.

Lemma methods_setScope ms M s v k :
  modelMethods (setScope ms M s v) k = modelMethods ms k.
Proof.
  unfold modelMethods, setScope. rewrite lookup_updModel.
  destruct (String.eqb_spec k M) as [->|]; [|reflexivity].
  destruct (lookupModel ms M); reflexivity.
Qed.

Lemma setScopeMethod_ok ms M s api m sc d :
  modelScopes ms M = Some sc ->
  sc !! s = Some (Some d) ->
  setScopeMethod ms M s api m
  = Ok (setScope ms M s
          (Some (mkScope (<[api := m]> (sd_methods d)) (sd_targetClass d)))).
Proof.
  unfold modelScopes, setScopeMethod. intros Hsc Hs.
  destruct (lookupModel ms M) as [c|]; [|discriminate]. simpl in Hsc |- *.
  rewrite Hsc. simpl. now rewrite Hs.
Qed.


End ModelFacts.

Module Expose.

Import HeapFacts ModelFacts.

(** What lines 293-351 leave behind, when the scope entry is a
    descriptor and the target is a collected model. *)
Lemma exposeScopeMethod_spec st M m f op s tn sc d T :
  scopesOf st M = Some sc ->
  sc !! s = Some (Some d) ->
  view (heap st) m = Some f ->
  findModelByName (models st) tn = Ok (Some T) ->
  exists st' d' new,
    exposeScopeMethod st M m op s tn = Ok st'
    /\ map fst (models st') = map fst (models st)
    /\ console st' = console st
    /\ (forall k, modelRelations (models st') k = modelRelations (models st) k)
    /\ (forall k, k <> M -> scopesOf st' k = scopesOf st k)
    /\ scopesOf st' M = Some (<[s := Some d']> sc)
    /\ sd_targetClass d' = sd_targetClass d
    /\ is_Some (sd_methods d' !! apiNameOf op s)
    /\ (forall k, k <> T -> methodsOf st' k = methodsOf st k)
    /\ methodsOf st' T
       = (fun l => l ++ length (heap st) :: new) <$> methodsOf st T
    /\ (name <$> view (heap st') (length (heap st)))
       = Some (reverseNameOf op M s)
    /\ (internal <$> view (heap st') m)
       = Some (JsString (internalNote M (apiNameOf op s))).
Proof.
  intros Hsc Hs Hv Hfind. unfold scopesOf, methodsOf in *.
  unfold exposeScopeMethod. cbn [objectCreate].
  rewrite Hfind. cbn [mbind Result_bind ofOption].
  rewrite !update_head.
  set (api := apiNameOf op s). set (note := internalNote M api).
  set (rn := reverseNameOf op M s).
  set (h0 := update (set_internal (JsString note)) (heap st) m).
  assert (length h0 = length (heap st)) as Hlen by apply length_update.
  assert (view h0 m = Some (f_set_internal (JsString note) f)) as Hv0.
  { unfold h0. rewrite (view_update_same _ _ _ _ (acts_set_internal _)), Hv.
    reflexivity. }
  pose proof (view_lt _ _ _ Hv) as Hm.
  destruct (JsString.contains "create" rn) eqn:Hc.
  - rewrite !update_head.
    erewrite setScopeMethod_ok;
      [|rewrite !scopes_pushMethod; exact Hsc|exact Hs].
    cbn [mbind Result_bind].
    erewrite setScopeMethod_ok;
      [|apply scopes_setScope_same; rewrite !scopes_pushMethod; exact Hsc
       |apply lookup_insert_eq].
    cbn [mbind Result_bind sd_methods sd_targetClass length].
    rewrite !Hlen.
    eexists _,
      (mkScope
         (<[JsString.replace_first "create" "createMany" api
            := S (S (S (length (heap st))))]>
            (<[api := S (S (length (heap st)))]> (sd_methods d)))
         (sd_targetClass d)),
      [S (length (heap st))].
    split; [reflexivity|]. cbn [models heap console].
    split; [unfold setScope, pushMethod; now rewrite !keys_updModel|].
    split; [reflexivity|].
    split; [intros k; now rewrite !relations_setScope, !relations_pushMethod|].
    split.
    { intros k Hk. rewrite !scopes_setScope_other by assumption.
      now rewrite !scopes_pushMethod. }
    split.
    { erewrite scopes_setScope_same;
        [|apply scopes_setScope_same; rewrite !scopes_pushMethod; exact Hsc].
      now rewrite insert_insert_eq. }
    split; [reflexivity|].
    split.
    { cbn [sd_methods]. rewrite lookup_insert. case_decide; [eauto|].
      rewrite lookup_insert_eq. eauto. }
    split.
    { intros k Hk. rewrite !methods_setScope, !methods_pushMethod.
      destruct (String.eqb_spec k T); [contradiction|reflexivity]. }
    split.
    { rewrite !methods_setScope, !methods_pushMethod, String.eqb_refl.
      destruct (modelMethods (models st) T); [|reflexivity].
      simpl. now rewrite <- app_assoc. }
    cbn [set_name set_internal set_deprecated set_isReturningArray].
    split.
    + rewrite !view_cons_older by (simpl; lia).
      rewrite <- Hlen, view_cons_new, Hv0. reflexivity.
    + rewrite !view_cons_older by (simpl; lia). now rewrite Hv0.
  - rewrite !update_head.
    erewrite setScopeMethod_ok;
      [|rewrite !scopes_pushMethod; exact Hsc|exact Hs].
    cbn [mbind Result_bind sd_methods sd_targetClass length].
    rewrite !Hlen.
    eexists _,
      (mkScope (<[api := S (length (heap st))]> (sd_methods d))
         (sd_targetClass d)),
      [].
    split; [reflexivity|]. cbn [models heap console].
    split; [unfold setScope, pushMethod; now rewrite !keys_updModel|].
    split; [reflexivity|].
    split; [intros k; now rewrite !relations_setScope, !relations_pushMethod|].
    split.
    { intros k Hk. rewrite !scopes_setScope_other by assumption.
      now rewrite !scopes_pushMethod. }
    split.
    { apply scopes_setScope_same. rewrite !scopes_pushMethod. exact Hsc. }
    split; [reflexivity|].
    split; [cbn [sd_methods]; rewrite lookup_insert_eq; eauto|].
    split.
    { intros k Hk. rewrite !methods_setScope, !methods_pushMethod.
      destruct (String.eqb_spec k T); [contradiction|reflexivity]. }
    split.
    { now rewrite !methods_setScope, !methods_pushMethod, String.eqb_refl. }
    cbn [set_name set_internal set_deprecated set_isReturningArray].
    split.
    + rewrite !view_cons_older by (simpl; lia).
      rewrite <- Hlen, view_cons_new, Hv0. reflexivity.
    + rewrite !view_cons_older by (simpl; lia). now rewrite Hv0.
Qed.

Lemma exposeScopeMethod_found st M m op s tn st' :
  exposeScopeMethod st M m op s tn = Ok st' ->
  exists T, findModelByName (models st) tn = Ok (Some T).
Proof.
  unfold exposeScopeMethod. cbn [objectCreate].
  destruct (findModelByName (models st) tn) as [[T|]|e];
    cbn [mbind Result_bind ofOption]; [eauto|discriminate|discriminate].
Qed.

Lemma setScopeMethod_entry ms M s api m ms' :
  setScopeMethod ms M s api m = Ok ms' ->
  exists sc d, modelScopes ms M = Some sc /\ sc !! s = Some (Some d).
Proof.
  unfold modelScopes, setScopeMethod. intros H.
  destruct (lookupModel ms M) as [c|]; [|discriminate].
  cbn [ofOption mbind Result_bind option_bind] in H |- *.
  destruct (c_scopes c) as [sc|]; [|discriminate].
  cbn [ofOption mbind Result_bind] in H.
  destruct (sc !! s) as [[d|]|] eqn:Hs; try discriminate. eauto.
Qed.

(** The exposing part returns only when the scope entry is a descriptor. *)
Lemma exposeScopeMethod_entry st M m op s tn st' sc :
  exposeScopeMethod st M m op s tn = Ok st' ->
  scopesOf st M = Some sc ->
  exists d, sc !! s = Some (Some d).
Proof.
  unfold exposeScopeMethod, scopesOf. cbn [objectCreate]. intros H Hsc.
  destruct (findModelByName (models st) tn) as [[T|]|e];
    cbn [mbind Result_bind ofOption] in H; try discriminate.
  destruct (JsString.contains "create" (reverseNameOf op M s)).
  - match type of H with
    | (?t ≫= _) = _ => destruct t as [ms1|] eqn:E; [|discriminate]
    end.
    apply setScopeMethod_entry in E as (sc' & d & E & Hs).
    rewrite !scopes_pushMethod, Hsc in E. injection E as <-. eauto.
  - match type of H with
    | (?t ≫= _) = _ => destruct t as [ms1|] eqn:E; [|discriminate]
    end.
    apply setScopeMethod_entry in E as (sc' & d & E & Hs).
    rewrite !scopes_pushMethod, Hsc in E. injection E as <-. eauto.
Qed.

End Expose.

Module ScopeSteps.

Import HeapFacts ModelFacts Expose.

Lemma buildScopeMethod_spec app options st M m o st' :
  buildScopeMethod app options st M m = Ok (o, st') ->
  map fst (models st') = map fst (models st)
  /\ (forall k, modelRelations (models st') k = modelRelations (models st) k)
  /\ (forall k, k <> M -> scopesOf st' k = scopesOf st k)
  /\ exists c,
      lookupModel (models st) M = Some c /\ stepEffect options st st' M c o.
Proof.
  unfold buildScopeMethod, readMethod. intros H.
  destruct (lookupModel (models st) M) as [c|] eqn:Hc; [|discriminate].
  cbn [ofOption mbind Result_bind] in H.
  destruct (view (heap st) m) as [f|] eqn:Hv; [|discriminate].
  cbn [ofOption mbind Result_bind] in H.
  destruct (scope_method_match (name f)) as [[op s]|].
  2:{ injection H as <- <-. repeat split; try reflexivity.
      exists c. split; reflexivity. }
  assert (exists tn,
             match targetClassOf c s with
             | Some t => getFormattedModelName t options ≫= λ n, Ok (Some n)
             | None => Ok None
             end = Ok tn
             /\ match targetClassOf c s with
                | Some t => exists n, tn = Some n
                            /\ getFormattedModelName t options = Ok n
                | None => tn = None
                end) as (tn & Etn & Htn).
  { destruct (targetClassOf c s) as [t|]; [|eauto].
    destruct (getFormattedModelName t options) as [n|]; [|discriminate].
    eexists. split; [reflexivity|]. eauto. }
  rewrite Etn in H. clear Etn. cbn [mbind Result_bind] in H.
  destruct (c_scopes c) as [sc|] eqn:Hsc; [|discriminate].
  cbn [ofOption mbind Result_bind] in H.
  assert (scopesOf st M = Some sc) as HscM.
  { unfold scopesOf, modelScopes. rewrite Hc. exact Hsc. }
  destruct (sc !! s) as [[d|]|] eqn:Hs.
  - (* the entry is a descriptor *)
    destruct (exposeScopeMethod st M m op s tn) as [st2|] eqn:Hex;
      [|discriminate].
    injection H as <- <-.
    destruct (exposeScopeMethod_found _ _ _ _ _ _ _ Hex) as [T HT].
    destruct (exposeScopeMethod_spec st M m f op s tn sc d T HscM Hs Hv HT)
      as (st2' & d' & new & E & Hk & _ & Hr & Ho & HM & _).
    rewrite Hex in E. injection E as <-.
    repeat split; try assumption.
    exists c. split; [reflexivity|]. exists sc. split; [exact Hsc|].
    split; [exists d; exact Hs|eauto].
  - (* the entry is null *)
    injection H as <- <-. repeat split; try reflexivity.
    exists c. split; [reflexivity|]. exists sc. repeat split; assumption.
  - (* no entry *)
    destruct (inheritedKey s).
    { destruct (exposeScopeMethod st M m op s tn) as [st2|] eqn:Hex;
        [|discriminate].
      destruct (exposeScopeMethod_entry _ _ _ _ _ _ _ _ Hex HscM) as [d Hd].
      congruence. }
    destruct (targetClassOf c s) as [t|] eqn:Ht.
    2:{ injection H as <- <-. repeat split; try reflexivity.
        exists c. split; [reflexivity|]. exists sc. repeat split; assumption. }
    destruct Htn as (n & -> & Hn).
    destruct (findModelByName (models st) (Some n)) as [[T|]|] eqn:HT;
      [| |discriminate]; cbn [mbind Result_bind] in H.
    + destruct (app_models app !! M) as [am|]; [|discriminate].
      cbn [ofOption mbind Result_bind] in H.
      destruct (swaggerExcludes am _).
      * injection H as <- <-. repeat split; try reflexivity.
        exists c. split; [reflexivity|]. exists sc. repeat split; assumption.
      * match type of H with
        | context [exposeScopeMethod ?s1 _ _ _ _ _] => set (st1 := s1) in *
        end.
        destruct (exposeScopeMethod st1 M m op s (Some n)) as [st2|] eqn:Hex;
          [|discriminate].
        injection H as <- <-.
        assert (scopesOf st1 M = Some (<[s := Some (mkScope ∅ (Some n))]> sc))
          as HscM1 by (apply scopes_setScope_same; exact HscM).
        assert (map fst (models st1) = map fst (models st)) as Hk1
          by (unfold st1, setScope; cbn [models]; apply keys_updModel).
        assert (findModelByName (models st1) (Some n) = Ok (Some T)) as HT1
          by (rewrite (findModelByName_keys _ _ _ Hk1); exact HT).
        destruct (exposeScopeMethod_spec st1 M m f op s (Some n) _ _ T
                    HscM1 (lookup_insert_eq _ _ _) Hv HT1)
          as (st2' & d' & new & E & Hk & _ & Hr & Ho & HM & _).
        rewrite Hex in E. injection E as <-.
        split; [congruence|].
        split.
        { intros k. rewrite Hr. unfold st1. cbn [models].
          apply relations_setScope. }
        split.
        { intros k Hne. rewrite (Ho k Hne). unfold st1, scopesOf. cbn [models].
          now apply scopes_setScope_other. }
        exists c. split; [reflexivity|]. exists sc. split; [exact Hsc|].
        split; [exact Hs|]. split.
        { rewrite insert_insert_eq in HM. eauto. }
        eauto 6.
    + injection H as <- <-. cbn [models].
      split; [unfold setScope; apply keys_updModel|].
      split; [intros k; apply relations_setScope|].
      split; [intros k Hne; now apply scopes_setScope_other|].
      exists c. split; [reflexivity|]. exists sc. split; [exact Hsc|].
      split; [exact Hs|].
      split; [now apply scopes_setScope_same|]. eauto.
Qed.


End ScopeSteps.

Module ScopeRuns.

Import ModelFacts ScopeSteps.

Lemma callback_inv app options M st m e st' :
  callback app options M st m = Ok (e, st') ->
  ev_model e = M
  /\ buildScopeMethod app options st M m = Ok (ev_outcome e, st').
Proof.
  unfold callback.
  destruct (buildScopeMethod app options st M m) as [[o s']|]; [|discriminate].
  cbn. intros [= <- <-]. split; reflexivity.
Qed.

(** An invariant of the state and a property of the events carry over
    a loop, whether it returns or throws. *)
Lemma forEachT_inv {A S E} (f : S -> A -> Result (E * S))
    (I : S -> Prop) (P : E -> Prop) :
  (forall s x e s', I s -> f s x = Ok (e, s') -> P e /\ I s') ->
  forall l s t r,
    I s -> forEachT f l s = (t, r) ->
    Forall P t /\ forall s', r = Ok s' -> I s'.
Proof.
  intros Hstep. induction l as [|x l IH]; intros s t r Hs H; simpl in H.
  - injection H as <- <-. split; [constructor|]. now intros s' [= <-].
  - destruct (f s x) as [[e s1]|err] eqn:Hf.
    + destruct (forEachT f l s1) as [t1 r1] eqn:Hrec.
      injection H as <- <-.
      destruct (Hstep _ _ _ _ Hs Hf) as [He Hs1].
      destruct (IH _ _ _ Hs1 Hrec) as [Ht Hr].
      split; [now constructor|exact Hr].
    + injection H as <- <-. split; [constructor|discriminate].
Qed.

(** ** States of a pair [(M, s)] *)






(** ** What scope resolution never changes *)

Lemma sameShape_refl st : sameShape st st.
Proof. split; reflexivity. Qed.

Lemma sameShape_trans st0 st1 st2 :
  sameShape st0 st1 -> sameShape st1 st2 -> sameShape st0 st2.
Proof.
  intros [K1 R1] [K2 R2]. split; [congruence|].
  intros k. now rewrite R2, R1.
Qed.

Lemma step_sameShape app options st M m o st' :
  buildScopeMethod app options st M m = Ok (o, st') -> sameShape st st'.
Proof.
  intros H. destruct (buildScopeMethod_spec _ _ _ _ _ _ _ H) as (K & R & _).
  split; assumption.
Qed.

Lemma targetClassOf_relations c c' s :
  c_relations c' = c_relations c -> targetClassOf c' s = targetClassOf c s.
Proof. unfold targetClassOf. now intros ->. Qed.


(** ** A pair whose target is unavailable is never exposed *)



(** ** The null entry is a latch *)







(** ** One model *)

Section OneModel.

Variables (app : App) (options : Options).
Variables (st : State) (k : string) (t : list Event) (r : Result State).
Hypothesis Hrun : buildScopesOfModel app options st k = (t, r).

Let reset : State :=
  mkState (heap st) (updModel (models st) k (with_scopes ∅)) (console st).

Lemma reset_sameShape : sameShape st reset.
Proof.
  split; cbn [reset models]; [apply keys_updModel|].
  intros k'. unfold modelRelations. rewrite lookup_updModel.
  destruct (String.eqb_spec k' k) as [->|]; [|reflexivity].
  destruct (lookupModel (models st) k); reflexivity.
Qed.



Lemma model_run :
  (t = [] /\ exists e, r = Throw e)
  \/ exists c,
      lookupModel (models st) k = Some c
      /\ forEachT (callback app options k) (c_methods c) reset = (t, r).
Proof.
  unfold buildScopesOfModel in Hrun.
  destruct (lookupModel (models st) k) as [c|].
  - right. exists c. split; [reflexivity|exact Hrun].
  - left. injection Hrun as <- <-. eauto.
Qed.



Lemma model_sameShape st' : r = Ok st' -> sameShape st st'.
Proof.
  intros E. destruct model_run as [[_ [e He]]|(c & _ & H)]; [congruence|].
  refine (proj2 (forEachT_inv (callback app options k)
                   (fun s => sameShape st s) (fun _ => True) _
                   _ _ _ _ reset_sameShape H) st' E).
  intros s m e s' Hs Hcb. split; [exact I|].
  destruct (callback_inv _ _ _ _ _ _ _ Hcb) as [_ Hb].
  eapply sameShape_trans; [exact Hs|]. eapply step_sameShape; eauto.
Qed.




End OneModel.

(** ** All the models *)





Lemma run_sameShape app options keys : forall st t r st',
  buildScopesOver app options keys st = (t, r) ->
  r = Ok st' -> sameShape st st'.
Proof.
  induction keys as [|k keys IH]; intros st t r st' H E; simpl in H.
  - injection H as <- <-. injection E as <-. apply sameShape_refl.
  - destruct (buildScopesOfModel app options st k) as [tk [st1|e]] eqn:Hk.
    + destruct (buildScopesOver app options keys st1) as [t' r'] eqn:Hrec.
      injection H as <- <-.
      eapply sameShape_trans; [eapply model_sameShape; eauto|].
      eapply IH; eauto.
    + injection H as <- <-. discriminate.
Qed.




End ScopeRuns.




(** ** The reverse method and the API name *)

(** The keys of the model map are formatted names of classes. *)
Lemma setModel_keys_Forall (P : string -> Prop) ms k c :
  P k -> Forall P (map fst ms) -> Forall P (map fst (setModel ms k c)).
Proof.
  intros Hk. induction ms as [|[k1 c1] ms IH]; cbn; intros H.
  - constructor; [exact Hk|constructor].
  - inversion H as [|? ? Hk1 Hrest]; subst.
    destruct (String.eqb_spec k k1) as [->|]; cbn;
      constructor; auto.
Qed.

Lemma collected_keys_are_formatted_names (options : Options)
    (all : list RestClass) (l : list RestClass) :
  let formatted k :=
    exists c, In c all /\ getFormattedModelName (c_name c) options = Ok k in
  forall st st',
    incl l all ->
    Forall formatted (map fst (models st)) ->
    forEachR (describeClass options) l st = Ok st' ->
    Forall formatted (map fst (models st')).
Proof.
  intros formatted.
  induction l as [|c0 l IH]; intros st st' Hincl Hinv Hrun.
  - injection Hrun as <-. exact Hinv.
  - cbn [forEachR mbind Result_bind] in Hrun.
    destruct (describeClass options st c0) as [st1|e] eqn:Hstep; [|discriminate].
    apply (IH st1 st'); [intros x Hx; apply Hincl; now right| |exact Hrun].
    clear IH Hrun. unfold describeClass in Hstep.
    destruct (getFormattedModelName (c_name c0) options) as [name|] eqn:Hn;
      [|discriminate].
    cbn [mbind Result_bind] in Hstep.
    destruct (c_settings c0) as [sd|] eqn:Hsd; [|discriminate].
    cbn [ofOption mbind Result_bind] in Hstep.
    destruct (ignored options name); [injection Hstep as <-; exact Hinv|].
    cbn [with_description c_ctor] in Hstep.
    destruct (c_ctor c0); [|injection Hstep as <-; exact Hinv].
    destruct (augmentMethods _ _) as [[h3 methods1]|]; [|discriminate].
    cbn [mbind Result_bind] in Hstep.
    injection Hstep as <-. cbn [models].
    apply setModel_keys_Forall; [|exact Hinv].
    exists c0. split; [apply Hincl; now left|exact Hn].
Qed.

(** C1.  The comment of line 307 of [buildScopeMethod],
    [Product.__find__categories -> Category.::find::product::categories],
    and the claim name the reverse method with the model name in lower
    case.  On the sample application, whose model is declared [Gadget],
    with the relation [widgets] to [Widget]: the scope resolution appends
    to the methods of [Widget] the objects 8, 10, 12 and 13, the reverse
    method of [prototype.__get__widgets] is the object 8, and line 308
    names it [::get::Gadget::widgets], with the key of the model map, not
    [::get::gadget::widgets]; so it does when the class is declared
    [gadget], whose key is [Gadget] too. *)
Theorem reverse_method_named_with_model_key :
  let run gadgetName :=
    describeModels (Sample.app gadgetName "Widget" "Widget")
      (Sample.options "/" false []) Sample.store in
  Sample.methodsAfter (run "Gadget") "Widget" = Some [5; 7; 8; 10; 12; 13]
  /\ map (Sample.nameAfter (run "Gadget")) [5; 7; 8; 10; 12; 13]
     = [Some "create"; Some "createMany"; Some "::get::Gadget::widgets";
        Some "::findById::Gadget::widgets"; Some "::create::Gadget::widgets";
        Some "::createMany::Gadget::widgets"]
  /\ Sample.nameAfter (run "Gadget") 8
     = Some (reverseNameOf "get" "Gadget" "widgets")
  /\ Sample.nameAfter (run "Gadget") 8 <> Some "::get::gadget::widgets"
  /\ Sample.methodsAfter (run "gadget") "Widget" = Some [5; 7; 8; 10; 12; 13]
  /\ Sample.nameAfter (run "gadget") 8 = Some "::get::Gadget::widgets"
  /\ Sample.nameAfter (run "gadget") 8 <> Some "::get::gadget::widgets".
Proof. vm_compute. repeat split; discriminate. Qed.

(** With a filter on [Gadget] that leaves out every method of the
    relation, [Widget] gains no method from the scope resolution. *)
Lemma filtered_relation_adds_no_reverse_method :
  Sample.methodsAfter
    (describeModels (Sample.filteredApp ∅) (Sample.options "/" false [])
       Sample.store) "Widget"
  = Some [5; 7].
Proof. vm_compute. reflexivity. Qed.

(** What one call of [buildScopeMethod] appends.  For the model under
    the key [M] and a method named [prototype.__<op>__<s>], when the
    target class of [s] is set, its formatted name is that of a
    collected model [T] up to case, and the scope entry of [s] is
    already a descriptor or can be created (the method is not left out by
    the filter of [M]), the call appends to the methods of [T] a new
    method named [::<op>::<M>::<s>], where [M] is the key itself. *)
Lemma buildScopeMethod_appends_reverse_method
    (app : App) (options : Options) (st : State) (M : string) (m : nat)
    (f : MethodFields) (op s : string) (c : RestClass)
    (sc : gmap string (option ScopeDescriptor)) (t tn T : string) :
  lookupModel (models st) M = Some c ->
  c_scopes c = Some sc ->
  view (heap st) m = Some f ->
  scope_method_match (name f) = Some (op, s) ->
  targetClassOf c s = Some t ->
  getFormattedModelName t options = Ok tn ->
  findModelByName (models st) (Some tn) = Ok (Some T) ->
  isDescriptor (sc !! s)
  \/ (sc !! s = None
      /\ inheritedKey s = false
      /\ exists am,
          app_models app !! M = Some am
          /\ swaggerExcludes am
               (JsString.replace_first "prototype." "" (name f)) = false) ->
  exists o st' methods new,
    buildScopeMethod app options st M m = Ok (o, st')
    /\ methodsOf st T = Some methods
    /\ methodsOf st' T = Some (methods ++ length (heap st) :: new)
    /\ view (heap st) (length (heap st)) = None
    /\ (name <$> view (heap st') (length (heap st)))
       = Some ("::" +:+ op +:+ "::" +:+ M +:+ "::" +:+ s).
Proof.
  intros Hc Hsc Hv Hm Ht Hn HT Hentry.
  assert (scopesOf st M = Some sc) as HscM.
  { unfold scopesOf, modelScopes. rewrite Hc. exact Hsc. }
  assert (exists methods, methodsOf st T = Some methods) as [methods HmT].
  { apply ModelFacts.findModelByName_found, ModelFacts.lookup_keys in HT.
    destruct HT as [cT HcT]. exists (c_methods cT).
    unfold methodsOf, modelMethods. now rewrite HcT. }
  unfold buildScopeMethod, readMethod.
  rewrite Hc, Hv. cbn [ofOption mbind Result_bind].
  rewrite Hm, Ht, Hn. cbn [mbind Result_bind]. rewrite Hsc.
  cbn [ofOption mbind Result_bind].
  destruct Hentry as [[d Hd]|(Hnone & Hinh & am & Ham & Hex)].
  - rewrite Hd.
    destruct (Expose.exposeScopeMethod_spec st M m f op s (Some tn) sc d T
                HscM Hd Hv HT)
      as (st' & d' & new & -> & _ & _ & _ & _ & _ & _ & _ & _ & HmT' & Hname & _).
    cbn [mbind Result_bind]. exists (Matched op s (Exposed false)), st', methods, new.
    split; [reflexivity|]. split; [exact HmT|].
    rewrite HmT', HmT. split; [reflexivity|].
    split; [apply HeapFacts.view_fresh|exact Hname].
  - rewrite Hnone, Hinh, HT. cbn [mbind Result_bind]. rewrite Ham.
    cbn [ofOption mbind Result_bind]. rewrite Hex.
    match goal with
    | |- context [exposeScopeMethod ?s1 _ _ _ _ _] => set (st1 := s1)
    end.
    assert (scopesOf st1 M = Some (<[s := Some (mkScope ∅ (Some tn))]> sc))
      as HscM1 by (apply ModelFacts.scopes_setScope_same; exact HscM).
    assert (findModelByName (models st1) (Some tn) = Ok (Some T)) as HT1.
    { rewrite (ModelFacts.findModelByName_keys (models st1) (models st));
        [exact HT|]. unfold st1, setScope. cbn [models].
      apply ModelFacts.keys_updModel. }
    destruct (Expose.exposeScopeMethod_spec st1 M m f op s (Some tn) _ _ T
                HscM1 (lookup_insert_eq _ _ _) Hv HT1)
      as (st' & d' & new & -> & _ & _ & _ & _ & _ & _ & _ & _ & HmT' & Hname & _).
    cbn [mbind Result_bind]. exists (Matched op s (Exposed true)), st', methods, new.
    split; [reflexivity|]. split; [exact HmT|].
    assert (methodsOf st1 T = Some methods) as HmT1.
    { unfold methodsOf, st1. cbn [models].
      rewrite ModelFacts.methods_setScope. exact HmT. }
    rewrite HmT', HmT1. split; [reflexivity|].
    split; [apply HeapFacts.view_fresh|exact Hname].
Qed.



(** ** Further properties of the generator *)

Module StringFacts.

Lemma append_cons a p s : String a p +:+ s = String a (p +:+ s).
Proof. reflexivity. Qed.

Lemma append_nil s : "" +:+ s = s.
Proof. reflexivity. Qed.

Lemma strip_prefix_app p s : JsString.strip_prefix p (p +:+ s) = Some s.
Proof.
  induction p as [|a p IH]; [reflexivity|].
  rewrite append_cons. cbn. now rewrite Ascii.eqb_refl.
Qed.

Lemma strip_prefix_inv p : forall s r,
  JsString.strip_prefix p s = Some r -> s = p +:+ r.
Proof.
  induction p as [|a p IH]; intros s r H; cbn in H.
  - now injection H as <-.
  - destruct s as [|b s]; [discriminate|].
    destruct (Ascii.eqb_spec a b) as [<-|]; [|discriminate].
    rewrite append_cons. f_equal. now apply IH.
Qed.

Lemma span_app op rest :
  no_underscore op = true ->
  JsString.span_not_underscore (op +:+ String "_" rest)
  = (op, String "_" rest).
Proof.
  induction op as [|c op IH]; [reflexivity|].
  rewrite append_cons. cbn.
  intros H. apply andb_prop in H as [Hc Hop].
  destruct (Ascii.eqb c "_"); [discriminate|].
  now rewrite (IH Hop).
Qed.

Lemma span_inv s : forall a b,
  JsString.span_not_underscore s = (a, b) ->
  s = a +:+ b /\ no_underscore a = true.
Proof.
  induction s as [|c s IH]; intros a b H; cbn in H.
  - injection H as <- <-. split; reflexivity.
  - destruct (Ascii.eqb c "_") eqn:Ec.
    + injection H as <- <-. split; reflexivity.
    + destruct (JsString.span_not_underscore s) as [a' b'].
      injection H as <- <-. destruct (IH a' b' eq_refl) as [-> Ha].
      split; [reflexivity|]. cbn. now rewrite Ec, Ha.
Qed.

Lemma is_empty_false s : JsString.is_empty s = false <-> s <> "".
Proof. destruct s; cbn; split; congruence. Qed.

End StringFacts.

(** X1.  [SCOPE_METHOD_REGEX] accepts exactly the names made of
    [prototype], one code unit that is not a line terminator (the dot
    of the pattern is not escaped, so it need not be a dot), two
    underscores, an operation that is not empty and holds no underscore,
    two underscores, and a relation name that is not empty and holds no
    line terminator; the two groups are that operation and that relation
    name. *)
Theorem scope_method_match_iff (name op s : string) :
  scope_method_match name = Some (op, s)
  <-> exists dot,
      name = "prototype" +:+ String dot ("__" +:+ op +:+ "__" +:+ s)
      /\ JsString.is_line_terminator dot = false
      /\ op <> "" /\ no_underscore op = true
      /\ s <> "" /\ JsString.no_line_terminator s = true.
Proof.
  split.
  - unfold scope_method_match. intros H.
    destruct (JsString.strip_prefix "prototype" name) as [[|dot rest1]|] eqn:E1;
      try discriminate.
    apply StringFacts.strip_prefix_inv in E1.
    destruct (JsString.is_line_terminator dot) eqn:Ed; [discriminate|].
    destruct (JsString.strip_prefix "__" rest1) as [rest2|] eqn:E2;
      [|discriminate].
    apply StringFacts.strip_prefix_inv in E2.
    destruct (JsString.span_not_underscore rest2) as [op' rest3] eqn:E3.
    apply StringFacts.span_inv in E3 as [E3 Hop].
    destruct (JsString.is_empty op') eqn:Eop; [discriminate|].
    destruct (JsString.strip_prefix "__" rest3) as [s'|] eqn:E4; [|discriminate].
    apply StringFacts.strip_prefix_inv in E4.
    destruct (JsString.is_empty s') eqn:Es; [discriminate|].
    destruct (JsString.no_line_terminator s') eqn:El; [|discriminate].
    injection H as <- <-. exists dot. subst.
    repeat split; try assumption; now apply StringFacts.is_empty_false.
  - intros (dot & -> & Hd & Hop & Hu & Hs & Hl).
    unfold scope_method_match.
    rewrite StringFacts.strip_prefix_app, Hd, StringFacts.strip_prefix_app.
    change ("__" +:+ s) with (String "_" (String "_" s)).
    rewrite (StringFacts.span_app op _ Hu).
    apply StringFacts.is_empty_false in Hop. rewrite Hop.
    change (String "_" (String "_" s)) with ("__" +:+ s).
    rewrite StringFacts.strip_prefix_app.
    apply StringFacts.is_empty_false in Hs. now rewrite Hs, Hl.
Qed.

Module NameFacts.

Import StringFacts.

Lemma reverse_name_head op M s :
  exists rest, reverseNameOf op M s = String ":" rest.
Proof. unfold reverseNameOf. rewrite append_cons. eauto. Qed.

Lemma replace_first_head pat repl rest :
  JsString.strip_prefix pat (String ":" rest) = None ->
  exists rest',
    JsString.replace_first pat repl (String ":" rest) = String ":" rest'.
Proof. intros H. cbn [JsString.replace_first]. rewrite H. eauto. Qed.

Lemma colon_no_match rest : scope_method_match (String ":" rest) = None.
Proof. reflexivity. Qed.

Lemma reverse_name_no_match op M s :
  scope_method_match (reverseNameOf op M s) = None.
Proof. destruct (reverse_name_head op M s) as [rest ->]. reflexivity. Qed.

Lemma reverse_createMany_no_match op M s :
  scope_method_match
    (JsString.replace_first "create" "createMany" (reverseNameOf op M s))
  = None.
Proof.
  destruct (reverse_name_head op M s) as [rest ->].
  destruct (replace_first_head "create" "createMany" rest eq_refl) as [r ->].
  reflexivity.
Qed.

End NameFacts.

Module UrlFacts.

Import StringFacts.

Lemma all_slashes_app s k :
  JsString.all_slashes (s +:+ JsString.slashes k) = JsString.all_slashes s.
Proof.
  induction s as [|c s IH].
  - rewrite append_nil. induction k; cbn; auto.
  - rewrite append_cons. cbn. now rewrite IH.
Qed.

Lemma strip_slashes k : JsString.strip_trailing_slashes (JsString.slashes k) = "".
Proof.
  destruct k; [reflexivity|]. cbn [JsString.slashes JsString.strip_trailing_slashes].
  replace (JsString.all_slashes (String "/" (JsString.slashes k))) with true;
    [reflexivity|].
  symmetry. change (JsString.all_slashes (JsString.slashes (S k)) = true).
  generalize (S k). intros n. induction n; cbn; auto.
Qed.

End UrlFacts.

(** X2.  Stripping the trailing slashes of the API URL absorbs any
    number of slashes added at the end, and stripping twice is
    stripping once. *)
Theorem strip_trailing_slashes_absorbs (s : string) (k : nat) :
  JsString.strip_trailing_slashes (s +:+ JsString.slashes k)
  = JsString.strip_trailing_slashes s
  /\ JsString.strip_trailing_slashes (JsString.strip_trailing_slashes s)
     = JsString.strip_trailing_slashes s.
Proof.
  assert (forall s k,
             JsString.strip_trailing_slashes (s +:+ JsString.slashes k)
             = JsString.strip_trailing_slashes s) as Habs.
  { clear. intros s k. induction s as [|c s IH].
    - rewrite StringFacts.append_nil. apply UrlFacts.strip_slashes.
    - rewrite StringFacts.append_cons.
      cbn [JsString.strip_trailing_slashes].
      change (String c (s +:+ JsString.slashes k))
        with (String c s +:+ JsString.slashes k) at 1.
      rewrite UrlFacts.all_slashes_app.
      destruct (JsString.all_slashes (String c s)); [reflexivity|].
      now rewrite IH. }
  split; [apply Habs|].
  destruct (UrlBase.strip_decompose s) as [n Hn].
  rewrite Hn at 2. symmetry. apply Habs.
Qed.

Module CaseFacts.

Lemma upper_char_idem c :
  JsString.upper_char (JsString.upper_char c) = JsString.upper_char c.
Proof. destruct c as [[] [] [] [] [] [] [] []]; reflexivity. Qed.

Lemma capitalize_cons c s :
  capitalize (String c s) = String (JsString.upper_char c) s.
Proof. reflexivity. Qed.

Lemma capitalize_idem s : capitalize (capitalize s) = capitalize s.
Proof.
  destruct s as [|c s]; [reflexivity|].
  now rewrite !capitalize_cons, upper_char_idem.
Qed.

Lemma formatted_without_namespace c rest options :
  namespaceModels options = false ->
  getFormattedModelName (String c rest) options
  = Ok (String (JsString.upper_char c) rest).
Proof. intros H. unfold getFormattedModelName. now rewrite H. Qed.

End CaseFacts.

(** X3.  Without model namespacing a formatted model name is a fixed
    point of [getFormattedModelName], and capitalizing it again, as
    [buildScopeMethod] does on line 303 for the [internal] note, changes
    nothing: the note names the model by its key. *)
Theorem plain_formatted_name_is_stable
    (modelName : string) (options : Options) (k api : string) :
  namespaceModels options = false ->
  getFormattedModelName modelName options = Ok k ->
  getFormattedModelName k options = Ok k
  /\ capitalize k = k
  /\ internalNote k api = "Use " +:+ k +:+ "." +:+ api +:+ "() instead.".
Proof.
  intros Hns H. destruct modelName as [|c rest]; [discriminate|].
  rewrite (CaseFacts.formatted_without_namespace c rest options Hns) in H.
  injection H as <-.
  assert (capitalize (String (JsString.upper_char c) rest)
          = String (JsString.upper_char c) rest) as E.
  { rewrite CaseFacts.capitalize_cons. now rewrite CaseFacts.upper_char_idem. }
  split; [|split].
  - rewrite (CaseFacts.formatted_without_namespace _ rest options Hns).
    now rewrite CaseFacts.upper_char_idem.
  - exact E.
  - unfold internalNote. now rewrite E.
Qed.

Lemma plain_formatted_name_is_stable_witness :
  getFormattedModelName "Gadget" (Sample.options "/" false []) = Ok "Gadget"
  /\ capitalize "Gadget" = "Gadget"
  /\ internalNote "Gadget" "widgets" = "Use Gadget.widgets() instead.".
Proof.
  exact (plain_formatted_name_is_stable "gadget" (Sample.options "/" false [])
           "Gadget" "widgets" eq_refl eq_refl).
Defined.

(** X4.  [findModelByName] on a name that is a string never throws; it
    returns the first key, in insertion order, that equals the name up
    to case, and nothing when no key does. *)
Theorem findModelByName_first_match (ms : Models) (n : string) :
  let differs (p : string * RestClass) :=
    JsString.toLowerCase (fst p) <> JsString.toLowerCase n in
  match findModelByName ms (Some n) with
  | Ok (Some k) =>
      exists before c after,
        ms = before ++ (k, c) :: after
        /\ JsString.toLowerCase k = JsString.toLowerCase n
        /\ Forall differs before
  | Ok None => Forall differs ms
  | Throw _ => False
  end.
Proof.
  intros differs. induction ms as [|[k c] ms IH]; cbn; [constructor|].
  destruct (String.eqb_spec (JsString.toLowerCase k) (JsString.toLowerCase n))
    as [E|E].
  - exists [], c, ms. repeat split; [exact E|constructor].
  - destruct (findModelByName ms (Some n)) as [[k'|]|]; [| |contradiction].
    + destruct IH as (before & c' & after & -> & E' & Hb).
      exists ((k, c) :: before), c', after.
      repeat split; [exact E'|]. constructor; assumption.
    + constructor; assumption.
Qed.

Module Collection.

Lemma describeClass_inv options st c0 st' :
  describeClass options st c0 = Ok st' ->
  models st' = models st
  \/ exists name methods1,
      getFormattedModelName (c_name c0) options = Ok name
      /\ ignored options name = false
      /\ c_ctor c0 <> None
      /\ models st'
         = setModel (models st) name
             (with_isUser (c_protoIsUser c0)
                (with_methods methods1
                   (with_description
                      (normalizeDescription (c_settingsDescription c0)) c0))).
Proof.
  unfold describeClass. intros H.
  destruct (getFormattedModelName (c_name c0) options) as [name|] eqn:Hn;
    [|discriminate].
  cbn [mbind Result_bind] in H.
  destruct (c_settings c0) as [sd|] eqn:Hsd; [|discriminate].
  cbn [ofOption mbind Result_bind] in H.
  destruct (ignored options name) eqn:Hi; [injection H as <-; now left|].
  cbn [with_description c_ctor] in H.
  destruct (c_ctor c0) eqn:Hc; [|injection H as <-; now left].
  destruct (augmentMethods _ _) as [[h3 methods1]|]; [|discriminate].
  cbn [mbind Result_bind] in H. injection H as <-. right.
  exists name, methods1. unfold c_settingsDescription. rewrite Hsd.
  repeat split; try assumption. discriminate.
Qed.

Lemma collect_entries options all l : forall st st',
  incl l all ->
  (forall k c, lookupModel (models st) k = Some c ->
     exists c0, In c0 all /\ collectedFrom options k c c0) ->
  forEachR (describeClass options) l st = Ok st' ->
  forall k c, lookupModel (models st') k = Some c ->
    exists c0, In c0 all /\ collectedFrom options k c c0.
Proof.
  induction l as [|c0 l IH]; intros st st' Hincl Hinv Hrun.
  - now injection Hrun as <-.
  - cbn [forEachR mbind Result_bind] in Hrun.
    destruct (describeClass options st c0) as [st1|] eqn:Hstep; [|discriminate].
    apply (IH st1 st'); [intros x Hx; apply Hincl; now right| |exact Hrun].
    destruct (Collection.describeClass_inv _ _ _ _ Hstep)
      as [->|(name & methods1 & Hn & Hi & Hc & ->)]; [exact Hinv|].
    intros k c. rewrite lookup_setModel.
    destruct (String.eqb_spec k name) as [->|]; [|apply Hinv].
    intros [= <-]. exists c0. split; [apply Hincl; now left|].
    repeat split; assumption.
Qed.

Lemma find_some ms n k :
  In k (map fst ms) ->
  JsString.toLowerCase k = JsString.toLowerCase n ->
  exists k',
    findModelByName ms (Some n) = Ok (Some k')
    /\ JsString.toLowerCase k' = JsString.toLowerCase n.
Proof.
  induction ms as [|[k0 c0] ms IH]; cbn; [contradiction|]. intros Hin E.
  destruct (String.eqb_spec (JsString.toLowerCase k0) (JsString.toLowerCase n))
    as [E0|E0]; [eauto|].
  destruct Hin as [->|Hin]; [contradiction|]. now apply IH.
Qed.

End Collection.

(** X5.  Every class of the model map that the loop over the registry
    leaves comes from a class of the registry: its key is the formatted
    name of that class and is not in [modelsToIgnore], the class has a
    shared constructor, it keeps its name, constructor and relations,
    its description is the normalized description of the settings, and
    [isUser] is set. *)
Theorem collected_models_come_from_registry
    (app : App) (options : Options) (h : Heap) (st : State)
    (k : string) (c : RestClass) :
  collectModels app options h = Ok st ->
  lookupModel (models st) k = Some c ->
  exists c0, In c0 (classes app) /\ collectedFrom options k c c0.
Proof.
  intros Hrun. unfold collectModels in Hrun.
  apply (Collection.collect_entries options (classes app) (classes app)
           (mkState h [] []) st (incl_refl _)); [|exact Hrun].
  intros k' c' H. discriminate.
Qed.

(** X6.  After the loop over the registry a model is filed under the
    formatted name of its own name, and [findModelByName] finds a model
    for every spelling of that key that differs by case only, under a
    key that equals it up to case. *)
Theorem collected_model_is_found_by_its_names
    (app : App) (options : Options) (h : Heap) (st : State)
    (k : string) (c : RestClass) :
  collectModels app options h = Ok st ->
  lookupModel (models st) k = Some c ->
  getFormattedModelName (c_name c) options = Ok k
  /\ forall n,
      JsString.toLowerCase n = JsString.toLowerCase k ->
      exists k',
        findModelByName (models st) (Some n) = Ok (Some k')
        /\ JsString.toLowerCase k' = JsString.toLowerCase k.
Proof.
  intros Hrun Hk.
  destruct (Collection.collect_entries options (classes app) (classes app)
              (mkState h [] []) st (incl_refl _)
              (fun k' c' H => ltac:(discriminate)) Hrun k c Hk)
    as (c0 & _ & Hn & _ & Hname & _).
  split; [now rewrite Hname|].
  intros n En. rewrite <- En.
  apply Collection.find_some with (k := k); [|now symmetry].
  apply ModelFacts.lookup_keys; eauto.
Qed.

Module StoreFacts.

Import HeapFacts.

Lemma inherited_butInternal : inherited butInternal.
Proof.
  intros o f f' H. destruct o, f, f'. unfold butInternal in *. cbn in *.
  injection H as -> -> -> -> -> -> -> -> ->. reflexivity.
Qed.

Lemma update_keeps {A} (pi : MethodFields -> A) g phi h j :
  inherited pi -> acts g phi -> (forall f, pi (phi f) = pi f) ->
  forall m, (pi <$> view (update g h j) m) = (pi <$> view h m).
Proof.
  intros Hpi [Hp Hc] Hphi.
  induction h as [|cell older IH]; intros m; [reflexivity|].
  cbn [update].
  destruct (Nat.eqb_spec j (length older)) as [->|Hj]; cbn [view].
  - destruct (Nat.eqb m (length older)); [|reflexivity].
    destruct cell as [f|p o].
    + rewrite Hp. cbn. now rewrite Hphi.
    + destruct (Hc p o) as (o' & -> & Ho').
      destruct (view older p); cbn; [|reflexivity].
      now rewrite Ho', Hphi.
  - rewrite length_update.
    destruct (Nat.eqb m (length older)); [|apply IH].
    destruct cell as [f|p o]; [reflexivity|].
    specialize (IH p).
    destruct (view (update g older j) p), (view older p); cbn in *;
      try congruence.
    injection IH as IH. f_equal. now apply Hpi.
Qed.

Lemma view_app_older cells h j :
  j < length h -> view (cells ++ h) j = view h j.
Proof.
  intros Hlt. induction cells as [|c cells IH]; [reflexivity|].
  cbn [app]. rewrite view_cons_older; [exact IH|].
  rewrite length_app. lia.
Qed.

Lemma view_beyond h j : length h <= j -> view h j = None.
Proof.
  intros H. destruct (view h j) eqn:E; [|reflexivity].
  apply view_lt in E. lia.
Qed.

(** An object among named clones put on a store answers to the name it
    owns. *)
Lemma view_namedClone cells h j f :
  Forall namedClone cells ->
  length h <= j ->
  view (cells ++ h) j = Some f ->
  scope_method_match (name f) = None.
Proof.
  intros Hall Hj. induction Hall as [|c cells Hc _ IH]; cbn [app view].
  - now rewrite view_beyond.
  - destruct (Nat.eqb j (length (cells ++ h))) eqn:E; [|exact IH].
    destruct Hc as (p & o & n & -> & Hn & Hno).
    destruct (view (cells ++ h) p) as [fp|]; [|discriminate].
    intros [= <-]. destruct o; cbn in *. subst. exact Hno.
Qed.

End StoreFacts.

Module ExposeShape.

Import HeapFacts ModelFacts StoreFacts.

Lemma setScopeMethod_inv ms M s api id ms' :
  setScopeMethod ms M s api id = Ok ms' ->
  exists v, ms' = setScope ms M s v.
Proof.
  unfold setScopeMethod.
  destruct (lookupModel ms M) as [c|]; [|discriminate].
  cbn [ofOption mbind Result_bind].
  destruct (c_scopes c) as [sc|]; [|discriminate].
  cbn [ofOption mbind Result_bind].
  destruct (sc !! s) as [[d|]|]; try discriminate.
  intros [= <-]. eauto.
Qed.

(** The store and the method lists after lines 293-351. *)
Lemma expose_shape st M m op s tn st' :
  exposeScopeMethod st M m op s tn = Ok st' ->
  exists cells T news,
    heap st'
    = cells ++ update (set_internal (JsString (internalNote M (apiNameOf op s))))
                 (heap st) m
    /\ Forall namedClone cells
    /\ console st' = console st
    /\ findModelByName (models st) tn = Ok (Some T)
    /\ (forall k,
          modelMethods (models st') k
          = if String.eqb k T
            then (fun l => l ++ news) <$> modelMethods (models st) k
            else modelMethods (models st) k)
    /\ Forall (fun j => length (heap st) <= j < length (heap st')) news
    /\ (is_Some (view (heap st) m) ->
        forall j, length (heap st) <= j < length (heap st') ->
                  is_Some (view (heap st') j)).
Proof.
  unfold exposeScopeMethod. cbn [objectCreate]. intros H.
  destruct (findModelByName (models st) tn) as [[T|]|] eqn:HT;
    cbn [mbind Result_bind ofOption] in H; try discriminate.
  rewrite !update_head in H.
  set (api := apiNameOf op s) in *. set (note := internalNote M api) in *.
  set (rn := reverseNameOf op M s) in *.
  set (h0 := update (set_internal (JsString note)) (heap st) m) in *.
  assert (length h0 = length (heap st)) as Hlen by apply length_update.
  assert (is_Some (view (heap st) m) -> exists f0, view h0 m = Some f0) as Hv0.
  { intros [f Hf]. unfold h0.
    rewrite (view_update_same _ _ _ _ (acts_set_internal _)), Hf. cbn. eauto. }
  assert (scope_method_match rn = None) as Hrn
      by apply NameFacts.reverse_name_no_match.
  assert (scope_method_match (JsString.replace_first "create" "createMany" rn)
          = None) as Hrn' by apply NameFacts.reverse_createMany_no_match.
  destruct (JsString.contains "create" rn).
  - rewrite !update_head in H.
    destruct (setScopeMethod _ M s api _) as [ms1|] eqn:E1; [|discriminate].
    cbn [mbind Result_bind] in H.
    destruct (setScopeMethod ms1 M s _ _) as [ms2|] eqn:E2; [|discriminate].
    cbn [mbind Result_bind] in H. injection H as <-.
    destruct (setScopeMethod_inv _ _ _ _ _ _ E1) as [v1 Ev1]. subst ms1.
    destruct (setScopeMethod_inv _ _ _ _ _ _ E2) as [v2 Ev2]. subst ms2.
    cbn [heap models console set_name set_internal set_deprecated
           set_isReturningArray length] in *.
    eexists [_; _; _; _], T, [length h0; S (length h0)].
    split; [reflexivity|].
    split.
    { repeat constructor; eexists _, _, _; (split; [reflexivity|]);
        (split; [reflexivity|]); assumption. }
    split; [reflexivity|]. split; [reflexivity|].
    split.
    { intros k. rewrite !methods_setScope, !methods_pushMethod.
      destruct (String.eqb k T); [|reflexivity].
      destruct (modelMethods (models st) k); [|reflexivity].
      cbn. now rewrite <- app_assoc. }
    split; [repeat constructor; cbn [app length]; lia|].
    intros Hm j Hj. destruct (Hv0 Hm) as [f0 Hf0].
    pose proof (view_lt _ _ _ Hf0) as Hlt.
    cbn [app length] in Hj |- *.
    assert (j = length h0 \/ j = S (length h0) \/ j = S (S (length h0))
            \/ j = S (S (S (length h0)))) as [-> | [-> | [-> | ->]]] by lia.
    + rewrite !view_cons_older by (cbn [length]; lia).
      rewrite view_cons_new, Hf0. cbn. eauto.
    + rewrite !view_cons_older by (cbn [length]; lia).
      change (S (length h0)) with (length (Clone m
        (o_set_deprecated (JsBool false) (o_set_internal (JsString note)
           (o_set_name rn noOverrides))) :: h0)).
      rewrite view_cons_new, view_cons_new, Hf0. cbn. eauto.
    + rewrite view_cons_older by (cbn [length]; lia).
      match goal with
      | |- is_Some (view (?c :: ?rest) _) =>
          change (S (S (length h0))) with (length rest)
      end.
      rewrite view_cons_new.
      rewrite !view_cons_older by (cbn [length]; lia).
      rewrite Hf0. cbn. eauto.
    + match goal with
      | |- is_Some (view (?c :: ?rest) _) =>
          change (S (S (S (length h0)))) with (length rest)
      end.
      rewrite view_cons_new.
      match goal with
      | |- is_Some (_ <$> view (?c :: ?rest) _) =>
          change (S (S (length h0))) with (length rest)
      end.
      rewrite view_cons_new.
      rewrite !view_cons_older by (cbn [length]; lia).
      rewrite Hf0. cbn. eauto.
  - rewrite !update_head in H.
    destruct (setScopeMethod _ M s api _) as [ms1|] eqn:E1; [|discriminate].
    cbn [mbind Result_bind] in H. injection H as <-.
    destruct (setScopeMethod_inv _ _ _ _ _ _ E1) as [v1 Ev1]. subst ms1.
    cbn [heap models console set_name set_internal set_deprecated
           set_isReturningArray length] in *.
    eexists [_; _], T, [length h0].
    split; [reflexivity|].
    split.
    { repeat constructor; eexists _, _, _; (split; [reflexivity|]);
        (split; [reflexivity|]); assumption. }
    split; [reflexivity|]. split; [reflexivity|].
    split.
    { intros k. rewrite !methods_setScope, !methods_pushMethod.
      destruct (String.eqb k T); reflexivity. }
    split; [repeat constructor; cbn [app length]; lia|].
    intros Hm j Hj. destruct (Hv0 Hm) as [f0 Hf0].
    pose proof (view_lt _ _ _ Hf0) as Hlt.
    cbn [app length] in Hj |- *.
    assert (j = length h0 \/ j = S (length h0)) as [-> | ->] by lia.
    + rewrite !view_cons_older by (cbn [length]; lia).
      rewrite view_cons_new, Hf0. cbn. eauto.
    + match goal with
      | |- is_Some (view (?c :: ?rest) _) =>
          change (S (length h0)) with (length rest)
      end.
      rewrite view_cons_new.
      rewrite !view_cons_older by (cbn [length]; lia).
      rewrite Hf0. cbn. eauto.
Qed.

End ExposeShape.

Module Growth.

Import HeapFacts ModelFacts StoreFacts ExposeShape.

Lemma grownFrom_refl st : grownFrom st st.
Proof.
  repeat split; auto.
  - intros j f Hj Hv. apply view_lt in Hv. lia.
  - intros j Hj. lia.
  - intros k. exists []. split; [|constructor].
    destruct (modelMethods (models st) k); cbn; [|reflexivity].
    now rewrite app_nil_r.
Qed.

Lemma butInternal_name f f' : butInternal f = butInternal f' -> name f = name f'.
Proof. intros H. apply (f_equal name) in H. exact H. Qed.

Lemma fmap_butInternal_Some h h' j f :
  (butInternal <$> view h' j) = (butInternal <$> view h j) ->
  view h' j = Some f ->
  exists f0, view h j = Some f0 /\ name f0 = name f.
Proof.
  intros E Hv. rewrite Hv in E. destruct (view h j) as [f0|]; [|discriminate].
  exists f0. split; [reflexivity|].
  apply (f_equal (fmap name)) in E. cbn in E. congruence.
Qed.

Lemma grownFrom_trans st0 st1 st2 :
  grownFrom st0 st1 -> grownFrom st1 st2 -> grownFrom st0 st2.
Proof.
  intros (L1 & O1 & N1 & V1 & M1 & C1) (L2 & O2 & N2 & V2 & M2 & C2).
  split; [lia|]. split; [|split; [|split; [|split]]].
  - intros j Hj. rewrite O2 by lia. now apply O1.
  - intros j f Hj Hv. destruct (le_lt_dec (length (heap st1)) j) as [Hge|Hlt].
    + eapply N2; eauto.
    + destruct (fmap_butInternal_Some _ _ _ _ (O2 j Hlt) Hv) as (f0 & Hf0 & <-).
      eapply N1; eauto.
  - intros j Hj. destruct (le_lt_dec (length (heap st1)) j) as [Hge|Hlt].
    + apply V2. lia.
    + assert (is_Some (view (heap st1) j)) as [f1 Hf1] by (apply V1; lia).
      pose proof (O2 j Hlt) as E. rewrite Hf1 in E.
      destruct (view (heap st2) j); [eauto|discriminate].
  - intros k. destruct (M1 k) as (n1 & E1 & B1), (M2 k) as (n2 & E2 & B2).
    exists (n1 ++ n2). split.
    + rewrite E2, E1. destruct (modelMethods (models st0) k); cbn; [|reflexivity].
      now rewrite app_assoc.
    + apply List.Forall_app. split.
      * eapply List.Forall_impl; [|exact B1]. cbn. lia.
      * eapply List.Forall_impl; [|exact B2]. cbn. lia.
  - congruence.
Qed.

Lemma expose_grows st M m op s tn st' :
  exposeScopeMethod st M m op s tn = Ok st' ->
  is_Some (view (heap st) m) ->
  grownFrom st st'.
Proof.
  intros H Hm.
  destruct (expose_shape _ _ _ _ _ _ _ H)
    as (cells & T & news & Hh & Hcl & Hc & _ & Hms & Hnews & Hvalid).
  assert (length (heap st) <= length (heap st')) as Hle.
  { rewrite Hh, length_app, length_update. lia. }
  split; [exact Hle|]. split; [|split; [|split; [|split]]].
  - intros j Hj. rewrite Hh.
    rewrite view_app_older by (now rewrite length_update).
    apply (update_keeps butInternal _ _ _ _ inherited_butInternal
             (acts_set_internal _)). reflexivity.
  - intros j f Hj Hv. rewrite Hh in Hv.
    refine (view_namedClone cells _ j f Hcl _ Hv).
    now rewrite length_update.
  - intros j Hj. now apply Hvalid.
  - intros k. rewrite Hms. destruct (String.eqb k T).
    + exists news. split; [reflexivity|exact Hnews].
    + exists []. split; [|constructor].
      destruct (modelMethods (models st) k); cbn; [|reflexivity].
      now rewrite app_nil_r.
  - exact Hc.
Qed.

(** A change of scopes only. *)
Lemma setScope_grows st M s v :
  grownFrom st (mkState (heap st) (setScope (models st) M s v) (console st)).
Proof.
  destruct (grownFrom_refl st) as (L & O & N & V & _ & C).
  repeat split; auto.
  intros k. exists []. split; [|constructor]. cbn [models].
  rewrite methods_setScope.
  destruct (modelMethods (models st) k); cbn; [|reflexivity].
  now rewrite app_nil_r.
Qed.

Lemma step_grows app options st M m o st' :
  buildScopeMethod app options st M m = Ok (o, st') -> grownFrom st st'.
Proof.
  unfold buildScopeMethod, readMethod. intros H.
  destruct (lookupModel (models st) M) as [c|]; [|discriminate].
  cbn [ofOption mbind Result_bind] in H.
  destruct (view (heap st) m) as [f|] eqn:Hv; [|discriminate].
  cbn [ofOption mbind Result_bind] in H.
  destruct (scope_method_match (name f)) as [[op s]|];
    [|injection H as <- <-; apply grownFrom_refl].
  destruct (match targetClassOf c s with
            | Some t => getFormattedModelName t options ≫= λ n, Ok (Some n)
            | None => Ok None
            end) as [tn|]; [|discriminate].
  cbn [mbind Result_bind] in H.
  destruct (c_scopes c) as [sc|]; [|discriminate].
  cbn [ofOption mbind Result_bind] in H.
  destruct (sc !! s) as [[d|]|].
  - destruct (exposeScopeMethod st M m op s tn) as [st2|] eqn:Hex;
      [|discriminate].
    injection H as <- <-. eapply expose_grows; eauto.
  - injection H as <- <-. apply grownFrom_refl.
  - destruct (inheritedKey s).
    { destruct (exposeScopeMethod st M m op s tn) as [st2|] eqn:Hex;
        [|discriminate].
      injection H as <- <-. eapply expose_grows; eauto. }
    destruct (targetClassOf c s);
      [|injection H as <- <-; apply grownFrom_refl].
    destruct (findModelByName (models st) tn) as [[T|]|];
      [| |discriminate]; cbn [mbind Result_bind] in H.
    + destruct (app_models app !! M) as [am|]; [|discriminate].
      cbn [ofOption mbind Result_bind] in H.
      destruct (swaggerExcludes am _);
        [injection H as <- <-; apply grownFrom_refl|].
      match type of H with
      | context [exposeScopeMethod ?s1 _ _ _ _ _] => set (st1 := s1) in *
      end.
      destruct (exposeScopeMethod st1 M m op s tn) as [st2|] eqn:Hex;
        [|discriminate].
      injection H as <- <-.
      eapply grownFrom_trans; [apply (setScope_grows st M s)|].
      eapply expose_grows; eauto.
    + injection H as <- <-. apply setScope_grows.
Qed.

Lemma step_no_match app options st M m o st' f :
  buildScopeMethod app options st M m = Ok (o, st') ->
  view (heap st) m = Some f ->
  scope_method_match (name f) = None ->
  o = NoMatch.
Proof.
  unfold buildScopeMethod, readMethod. intros H Hv Hn.
  destruct (lookupModel (models st) M) as [c|]; [|discriminate].
  cbn [ofOption mbind Result_bind] in H. rewrite Hv in H.
  cbn [ofOption mbind Result_bind] in H. rewrite Hn in H.
  now injection H as <- <-.
Qed.

End Growth.

Module GrowthRuns.

Import HeapFacts ModelFacts StoreFacts Growth ScopeRuns.

Lemma step_reads app options st M m o st' :
  buildScopeMethod app options st M m = Ok (o, st') ->
  exists f, view (heap st) m = Some f.
Proof.
  unfold buildScopeMethod, readMethod.
  destruct (lookupModel (models st) M); [|discriminate].
  cbn [ofOption mbind Result_bind].
  destruct (view (heap st) m); [eauto|discriminate].
Qed.

Lemma callback_grows app options st0 M s m e s' :
  grownFrom st0 s ->
  callback app options M s m = Ok (e, s') ->
  newObjectsUnmatched (length (heap st0)) e /\ grownFrom st0 s'.
Proof.
  intros G Hcb. pose proof (callback_inv _ _ _ _ _ _ _ Hcb) as [_ Hb].
  split; [|eapply grownFrom_trans; [exact G|eapply step_grows; eauto]].
  assert (ev_method e = m) as Em.
  { unfold callback in Hcb.
    destruct (buildScopeMethod app options s M m) as [[o s1]|]; [|discriminate].
    cbn in Hcb. now injection Hcb as <- _. }
  intros Hn. rewrite Em in Hn.
  destruct (step_reads _ _ _ _ _ _ _ Hb) as [f Hf].
  destruct G as (_ & _ & N & _).
  eapply step_no_match; eauto.
Qed.

Lemma reset_grows st k :
  grownFrom st
    (mkState (heap st) (updModel (models st) k (with_scopes ∅)) (console st)).
Proof.
  destruct (grownFrom_refl st) as (L & O & N & V & _ & C).
  repeat split; auto.
  intros k'. exists []. split; [|constructor]. cbn [models].
  unfold modelMethods. rewrite lookup_updModel.
  destruct (String.eqb_spec k' k) as [->|].
  - destruct (lookupModel (models st) k); cbn; [|reflexivity].
    now rewrite app_nil_r.
  - destruct (lookupModel (models st) k'); cbn; [|reflexivity].
    now rewrite app_nil_r.
Qed.

Lemma model_grows app options st0 st k t r :
  grownFrom st0 st ->
  buildScopesOfModel app options st k = (t, r) ->
  Forall (newObjectsUnmatched (length (heap st0))) t
  /\ forall st', r = Ok st' -> grownFrom st0 st'.
Proof.
  intros G H. unfold buildScopesOfModel in H.
  destruct (lookupModel (models st) k) as [c|].
  - refine (forEachT_inv (callback app options k) (grownFrom st0)
              (newObjectsUnmatched (length (heap st0))) _ _ _ _ _ _ H).
    + intros s m e s' Gs Hcb. eapply callback_grows; eauto.
    + eapply grownFrom_trans; [exact G|apply reset_grows].
  - injection H as <- <-. split; [constructor|discriminate].
Qed.

Lemma run_grows app options st0 keys : forall st t r,
  grownFrom st0 st ->
  buildScopesOver app options keys st = (t, r) ->
  Forall (newObjectsUnmatched (length (heap st0))) t
  /\ forall st', r = Ok st' -> grownFrom st0 st'.
Proof.
  induction keys as [|k keys IH]; intros st t r G H; simpl in H.
  - injection H as <- <-. split; [constructor|]. now intros st' [= <-].
  - destruct (buildScopesOfModel app options st k) as [tk [st1|e]] eqn:Hk.
    + destruct (buildScopesOver app options keys st1) as [t' r'] eqn:Hrec.
      injection H as <- <-.
      destruct (model_grows _ _ _ _ _ _ _ G Hk) as [Ht Hr].
      destruct (IH _ _ _ (Hr st1 eq_refl) Hrec) as [Ht' Hr'].
      split; [apply List.Forall_app; split; assumption|exact Hr'].
    + injection H as <- <-.
      destruct (model_grows _ _ _ _ _ _ _ G Hk) as [Ht _].
      split; [exact Ht|discriminate].
Qed.

End GrowthRuns.

(** X7.  A run of [buildScopes] that returns writes nothing to the
    console and only adds objects to the store; an object that was there
    answers as before except for its [internal] note; no object added
    is named like a relation method, and no call on an added object got
    past the pattern test. *)
Theorem scope_resolution_keeps_the_methods
    (app : App) (options : Options) (st st' : State) (t : list Event) :
  buildScopes app options st = (t, Ok st') ->
  length (heap st) <= length (heap st')
  /\ console st' = console st
  /\ (forall j f,
        view (heap st) j = Some f ->
        exists f',
          view (heap st') j = Some f'
          /\ f_set_internal (internal f) f' = f)
  /\ (forall j,
        length (heap st) <= j < length (heap st') ->
        exists f',
          view (heap st') j = Some f'
          /\ scope_method_match (name f') = None)
  /\ Forall (newObjectsUnmatched (length (heap st))) t.
Proof.
  intros H. unfold buildScopes in H.
  destruct (GrowthRuns.run_grows app options st _ st t (Ok st')
              (Growth.grownFrom_refl st) H) as [Ht Hr].
  destruct (Hr st' eq_refl) as (L & O & N & V & _ & C).
  split; [exact L|]. split; [exact C|]. split; [|split; [|exact Ht]].
  - intros j f Hf. pose proof (HeapFacts.view_lt _ _ _ Hf) as Hlt.
    pose proof (O j Hlt) as E. rewrite Hf in E.
    destruct (view (heap st') j) as [f'|]; [|discriminate].
    exists f'. split; [reflexivity|].
    assert (butInternal f' = butInternal f) as E' by (cbn in E; congruence).
    clear - E'. destruct f, f'. unfold butInternal, f_set_internal in *.
    cbn in *. injection E' as -> -> -> -> -> -> -> -> ->. reflexivity.
  - intros j Hj. destruct (V j Hj) as [f' Hf'].
    exists f'. split; [exact Hf'|]. eapply N; [|exact Hf']. lia.
Qed.

(** X8.  A run of [buildScopes] that returns keeps the keys of the
    model map in their order, and the method list of every model as a
    prefix of the list it leaves: what follows are objects that the run
    added to the store. *)
Theorem scope_resolution_continues_method_lists
    (app : App) (options : Options) (st st' : State) (t : list Event)
    (k : string) :
  buildScopes app options st = (t, Ok st') ->
  map fst (models st') = map fst (models st)
  /\ exists news,
      methodsOf st' k = (fun l => l ++ news) <$> methodsOf st k
      /\ Forall (fun j => length (heap st) <= j < length (heap st')) news.
Proof.
  intros H. unfold buildScopes in H. split.
  - exact (proj1 (ScopeRuns.run_sameShape _ _ _ _ _ _ _ H eq_refl)).
  - destruct (GrowthRuns.run_grows app options st _ st t (Ok st')
                (Growth.grownFrom_refl st) H) as [_ Hr].
    destruct (Hr st' eq_refl) as (_ & _ & _ & _ & M & _).
    exact (M k).
Qed.

Module Derived.

Import HeapFacts ModelFacts StoreFacts ExposeShape Growth.

Lemma takenOver_butInternal f f' :
  butInternal f = butInternal f' -> takenOver f = takenOver f'.
Proof.
  intros H. destruct f, f'. unfold butInternal, f_set_internal in H.
  cbn in *. injection H as -> -> -> -> -> -> -> -> ->. reflexivity.
Qed.

Lemma expose_derived st M m op s tn st' f0 :
  exposeScopeMethod st M m op s tn = Ok st' ->
  view (heap st) m = Some f0 ->
  forall j, length (heap st) <= j < length (heap st') ->
    exists f, view (heap st') j = Some f /\ takenOver f = takenOver f0.
Proof.
  unfold exposeScopeMethod. cbn [objectCreate]. intros H Hf.
  destruct (findModelByName (models st) tn) as [[T|]|] eqn:HT;
    cbn [mbind Result_bind ofOption] in H; try discriminate.
  rewrite !update_head in H.
  set (api := apiNameOf op s) in *. set (note := internalNote M api) in *.
  set (rn := reverseNameOf op M s) in *.
  set (h0 := update (set_internal (JsString note)) (heap st) m) in *.
  assert (length h0 = length (heap st)) as Hlen by apply length_update.
  assert (view h0 m = Some (f_set_internal (JsString note) f0)) as Hf0.
  { unfold h0.
    rewrite (view_update_same _ _ _ _ (acts_set_internal _)), Hf.
    reflexivity. }
  pose proof (view_lt _ _ _ Hf0) as Hlt.
  destruct (JsString.contains "create" rn).
  - rewrite !update_head in H.
    destruct (setScopeMethod _ M s api _) as [ms1|] eqn:E1; [|discriminate].
    cbn [mbind Result_bind] in H.
    destruct (setScopeMethod ms1 M s _ _) as [ms2|] eqn:E2; [|discriminate].
    cbn [mbind Result_bind] in H. injection H as <-.
    cbn [heap models console set_name set_internal set_deprecated
           set_isReturningArray length] in *.
    intros j Hj. rewrite <- Hlen in Hj.
    assert (j = length h0 \/ j = S (length h0) \/ j = S (S (length h0))
            \/ j = S (S (S (length h0)))) as [-> | [-> | [-> | ->]]] by lia.
    + rewrite !view_cons_older by (cbn [length]; lia).
      rewrite view_cons_new, Hf0. cbn. eauto.
    + rewrite !view_cons_older by (cbn [length]; lia).
      change (S (length h0)) with (length (Clone m
        (o_set_deprecated (JsBool false) (o_set_internal (JsString note)
           (o_set_name rn noOverrides))) :: h0)).
      rewrite view_cons_new, view_cons_new, Hf0. cbn. eauto.
    + rewrite view_cons_older by (cbn [length]; lia).
      match goal with
      | |- exists f, view (?c :: ?rest) _ = _ /\ _ =>
          change (S (S (length h0))) with (length rest)
      end.
      rewrite view_cons_new.
      rewrite !view_cons_older by (cbn [length]; lia).
      rewrite Hf0. cbn. eauto.
    + match goal with
      | |- exists f, view (?c :: ?rest) _ = _ /\ _ =>
          change (S (S (S (length h0)))) with (length rest)
      end.
      rewrite view_cons_new.
      match goal with
      | |- exists f, _ <$> view (?c :: ?rest) _ = _ /\ _ =>
          change (S (S (length h0))) with (length rest)
      end.
      rewrite view_cons_new.
      rewrite !view_cons_older by (cbn [length]; lia).
      rewrite Hf0. cbn. eauto.
  - rewrite !update_head in H.
    destruct (setScopeMethod _ M s api _) as [ms1|] eqn:E1; [|discriminate].
    cbn [mbind Result_bind] in H. injection H as <-.
    cbn [heap models console set_name set_internal set_deprecated
           set_isReturningArray length] in *.
    intros j Hj. rewrite <- Hlen in Hj.
    assert (j = length h0 \/ j = S (length h0)) as [-> | ->] by lia.
    + rewrite !view_cons_older by (cbn [length]; lia).
      rewrite view_cons_new, Hf0. cbn. eauto.
    + match goal with
      | |- exists f, view (?c :: ?rest) _ = _ /\ _ =>
          change (S (length h0)) with (length rest)
      end.
      rewrite view_cons_new.
      rewrite !view_cons_older by (cbn [length]; lia).
      rewrite Hf0. cbn. eauto.
Qed.

(** One call: the objects it adds are made from the method it was
    called on, and that method is named like a relation method. *)
Lemma step_derived app options st M m o st' :
  buildScopeMethod app options st M m = Ok (o, st') ->
  length (heap st) < length (heap st') ->
  exists f0,
    view (heap st) m = Some f0
    /\ is_Some (scope_method_match (name f0))
    /\ forall j, length (heap st) <= j < length (heap st') ->
         exists f, view (heap st') j = Some f /\ takenOver f = takenOver f0.
Proof.
  unfold buildScopeMethod, readMethod. intros H Hgrow.
  destruct (lookupModel (models st) M) as [c|]; [|discriminate].
  cbn [ofOption mbind Result_bind] in H.
  destruct (view (heap st) m) as [f|] eqn:Hv; [|discriminate].
  cbn [ofOption mbind Result_bind] in H.
  destruct (scope_method_match (name f)) as [[op s]|] eqn:Hm;
    [|injection H as <- <-; lia].
  exists f. split; [reflexivity|]. split; [eauto|].
  destruct (match targetClassOf c s with
            | Some t => getFormattedModelName t options ≫= λ n, Ok (Some n)
            | None => Ok None
            end) as [tn|]; [|discriminate].
  cbn [mbind Result_bind] in H.
  destruct (c_scopes c) as [sc|]; [|discriminate].
  cbn [ofOption mbind Result_bind] in H.
  destruct (sc !! s) as [[d|]|].
  - destruct (exposeScopeMethod st M m op s tn) as [st2|] eqn:Hex;
      [|discriminate].
    injection H as <- <-. eapply expose_derived; eauto.
  - injection H as <- <-. lia.
  - destruct (inheritedKey s).
    { destruct (exposeScopeMethod st M m op s tn) as [st2|] eqn:Hex;
        [|discriminate].
      injection H as <- <-. eapply expose_derived; eauto. }
    destruct (targetClassOf c s); [|injection H as <- <-; lia].
    destruct (findModelByName (models st) tn) as [[T|]|];
      [| |discriminate]; cbn [mbind Result_bind] in H.
    + destruct (app_models app !! M) as [am|]; [|discriminate].
      cbn [ofOption mbind Result_bind] in H.
      destruct (swaggerExcludes am _); [injection H as <- <-; lia|].
      match type of H with
      | context [exposeScopeMethod ?s1 _ _ _ _ _] => set (st1 := s1) in *
      end.
      destruct (exposeScopeMethod st1 M m op s tn) as [st2|] eqn:Hex;
        [|discriminate].
      injection H as <- <-.
      exact (expose_derived st1 M m op s tn st2 f Hex Hv).
    + injection H as <- <-. cbn [heap] in Hgrow. lia.
Qed.

End Derived.

Module DerivedRuns.

Import HeapFacts ModelFacts StoreFacts Growth GrowthRuns Derived ScopeRuns.

Lemma forEachT_inv_in {A S E} (f : S -> A -> Result (E * S))
    (I : S -> Prop) (l0 : list A) :
  (forall s x e s', In x l0 -> I s -> f s x = Ok (e, s') -> I s') ->
  forall l s t r,
    incl l l0 -> I s -> forEachT f l s = (t, r) ->
    forall s', r = Ok s' -> I s'.
Proof.
  intros Hstep. induction l as [|x l IH]; intros s t r Hincl Hs H; simpl in H.
  - injection H as <- <-. now intros s' [= <-].
  - destruct (f s x) as [[e s1]|err] eqn:Hf.
    + destruct (forEachT f l s1) as [t1 r1] eqn:Hrec.
      injection H as <- <-.
      apply (IH s1 t1 r1); [intros y Hy; apply Hincl; now right| |exact Hrec].
      eapply Hstep; eauto. apply Hincl. now left.
    + injection H as <- <-. discriminate.
Qed.

Lemma keeps_view st s' j f :
  grownFrom st s' -> view (heap st) j = Some f ->
  exists f', view (heap s') j = Some f' /\ butInternal f' = butInternal f.
Proof.
  intros (_ & O & _) Hf. pose proof (view_lt _ _ _ Hf) as Hlt.
  pose proof (O j Hlt) as E. rewrite Hf in E.
  destruct (view (heap s') j) as [f'|]; [|discriminate].
  exists f'. split; [reflexivity|]. cbn in E. congruence.
Qed.

Lemma madeFrom_grows st0 s s' j m :
  grownFrom s s' -> madeFrom st0 (heap s) j m -> madeFrom st0 (heap s') j m.
Proof.
  intros G (f & f0 & Hm & Hl & Hj & Hv & Hn & Ht).
  destruct (keeps_view _ _ _ _ G Hj) as (f' & Hj' & Ej).
  destruct (keeps_view _ _ _ _ G Hv) as (f0' & Hv' & Ev).
  exists f', f0'. repeat split; try assumption.
  - now rewrite (butInternal_name _ _ Ev).
  - rewrite (takenOver_butInternal _ _ Ej), (takenOver_butInternal _ _ Ev).
    exact Ht.
Qed.

Lemma callback_derived app options st0 methods0 M s x e s' :
  (forall m, In m methods0 -> m < length (heap st0) -> listed st0 m) ->
  In x methods0 ->
  allMadeFrom st0 s ->
  callback app options M s x = Ok (e, s') ->
  allMadeFrom st0 s'.
Proof.
  intros Hlisted Hx [G D] Hcb.
  pose proof (callback_inv _ _ _ _ _ _ _ Hcb) as [_ Hb].
  pose proof (step_grows _ _ _ _ _ _ _ Hb) as G'.
  split; [eapply grownFrom_trans; eauto|].
  intros j Hj. destruct (le_lt_dec (length (heap s)) j) as [Hnew|Hold].
  - destruct (step_derived _ _ _ _ _ _ _ Hb) as (f0 & Hf0 & Hn & Hall); [lia|].
    destruct (Hall j) as (f & Hf & Ht); [lia|].
    destruct (keeps_view _ _ _ _ G' Hf0) as (f0' & Hf0' & E0).
    assert (x < length (heap st0)) as Hxold.
    { destruct (le_lt_dec (length (heap st0)) x) as [Hge|]; [|assumption].
      destruct G as (_ & _ & N & _). rewrite (N x f0 Hge Hf0) in Hn.
      now destruct Hn. }
    exists x, f, f0'. repeat split; auto.
    + now rewrite (butInternal_name _ _ E0).
    + now rewrite (takenOver_butInternal _ _ E0).
  - destruct (D j) as [m Hm]; [lia|]. exists m.
    eapply madeFrom_grows; eauto.
Qed.

Lemma model_derived app options st0 st k t r :
  allMadeFrom st0 st ->
  buildScopesOfModel app options st k = (t, r) ->
  forall st', r = Ok st' -> allMadeFrom st0 st'.
Proof.
  intros [G D] H. unfold buildScopesOfModel in H.
  destruct (lookupModel (models st) k) as [c|] eqn:Hc.
  - refine (forEachT_inv_in (callback app options k) (allMadeFrom st0)
              (c_methods c) _ (c_methods c) _ t r (incl_refl _) _ H).
    + intros s x e s' Hx Hs Hcb.
      eapply (callback_derived app options st0 (c_methods c)); eauto.
      intros m Hm Hold.
      destruct G as (_ & _ & _ & _ & Ms & _).
      destruct (Ms k) as (news & E & Hnews).
      unfold modelMethods in E. rewrite Hc in E. cbn in E.
      destruct (lookupModel (models st0) k) as [c0|] eqn:Hc0; [|discriminate].
      cbn in E. injection E as E. rewrite E in Hm.
      apply in_app_or in Hm as [Hm|Hm].
      * exists k, (c_methods c0). split; [|exact Hm].
        unfold methodsOf, modelMethods. now rewrite Hc0.
      * rewrite List.Forall_forall in Hnews. apply Hnews in Hm. lia.
    + split; [eapply grownFrom_trans; [exact G|apply reset_grows]|exact D].
  - injection H as <- <-. discriminate.
Qed.

Lemma run_derived app options st0 keys : forall st t r,
  allMadeFrom st0 st ->
  buildScopesOver app options keys st = (t, r) ->
  forall st', r = Ok st' -> allMadeFrom st0 st'.
Proof.
  induction keys as [|k keys IH]; intros st t r G H; simpl in H.
  - injection H as <- <-. now intros st' [= <-].
  - destruct (buildScopesOfModel app options st k) as [tk [st1|e]] eqn:Hk.
    + destruct (buildScopesOver app options keys st1) as [t' r'] eqn:Hrec.
      injection H as <- <-.
      eapply IH; [|exact Hrec]. eapply model_derived; eauto.
    + injection H as <- <-. discriminate.
Qed.

End DerivedRuns.

(** X9.  Every object that a run of [buildScopes] adds to the store was
    made from a relation method that a model listed when the run began:
    it accepts the same parameters, is static or not as that method is,
    and has its shared constructor, resource parameters and
    description. *)
Theorem added_methods_are_made_from_relation_methods
    (app : App) (options : Options) (st st' : State) (t : list Event)
    (j : nat) :
  buildScopes app options st = (t, Ok st') ->
  length (heap st) <= j < length (heap st') ->
  exists m, madeFrom st (heap st') j m.
Proof.
  intros H Hj. unfold buildScopes in H.
  assert (allMadeFrom st st) as Hinit.
  { split; [apply Growth.grownFrom_refl|]. intros i Hi. lia. }
  destruct (DerivedRuns.run_derived app options st _ st t (Ok st') Hinit H
              st' eq_refl) as [_ D].
  now apply D.
Qed.

Module Twins.

Import HeapFacts ModelFacts StringFacts CaseFacts.

Lemma expose_twins st M m f op s tn sc d T :
  scopesOf st M = Some sc ->
  sc !! s = Some (Some d) ->
  view (heap st) m = Some f ->
  findModelByName (models st) tn = Ok (Some T) ->
  let rn := reverseNameOf op M s in
  let api := apiNameOf op s in
  let n := length (heap st) in
  let reverse := reverseMethodOf rn (internalNote M api) f in
  let scopeMethod := scopeMethodOf rn f in
  exists st',
    exposeScopeMethod st M m op s tn = Ok st'
    /\ view (heap st') n = Some reverse
    /\ if JsString.contains "create" rn then
         methodsOf st' T = (fun l => l ++ [n; n + 1]) <$> methodsOf st T
         /\ view (heap st') (n + 1) = Some (twinOf noteToMany reverse)
         /\ view (heap st') (n + 2) = Some scopeMethod
         /\ view (heap st') (n + 3) = Some (twinOf id scopeMethod)
         /\ scopesOf st' M
            = Some (<[s := Some (mkScope
                                   (<[toMany api := n + 3]>
                                      (<[api := n + 2]> (sd_methods d)))
                                   (sd_targetClass d))]> sc)
       else
         methodsOf st' T = (fun l => l ++ [n]) <$> methodsOf st T
         /\ view (heap st') (n + 1) = Some scopeMethod
         /\ scopesOf st' M
            = Some (<[s := Some (mkScope (<[api := n + 1]> (sd_methods d))
                                   (sd_targetClass d))]> sc).
Proof.
  intros Hsc Hs Hv Hfind rn api n reverse scopeMethod.
  unfold scopesOf, methodsOf in *.
  unfold exposeScopeMethod. cbn [objectCreate].
  rewrite Hfind. cbn [mbind Result_bind ofOption].
  rewrite !update_head.
  fold api rn. set (note := internalNote M api) in *.
  set (h0 := update (set_internal (JsString note)) (heap st) m).
  assert (length h0 = n) as Hlen by apply length_update.
  assert (view h0 m = Some (f_set_internal (JsString note) f)) as Hv0.
  { unfold h0. rewrite (view_update_same _ _ _ _ (acts_set_internal _)), Hv.
    reflexivity. }
  pose proof (view_lt _ _ _ Hv) as Hm. fold n in Hm.
  replace (n + 1) with (S n) by lia.
  replace (n + 2) with (S (S n)) by lia.
  replace (n + 3) with (S (S (S n))) by lia.
  destruct (JsString.contains "create" rn) eqn:Hc.
  - rewrite !update_head.
    erewrite setScopeMethod_ok;
      [|rewrite !scopes_pushMethod; exact Hsc|exact Hs].
    cbn [mbind Result_bind].
    erewrite setScopeMethod_ok;
      [|apply scopes_setScope_same; rewrite !scopes_pushMethod; exact Hsc
       |apply lookup_insert_eq].
    cbn [mbind Result_bind sd_methods sd_targetClass length].
    rewrite !Hlen.
    eexists. split; [reflexivity|]. cbn [models heap console].
    cbn [set_name set_internal set_deprecated set_isReturningArray].
    split.
    { rewrite !view_cons_older by (simpl; lia).
      rewrite <- Hlen, view_cons_new, Hv0. destruct f. reflexivity. }
    split.
    { rewrite !methods_setScope, !methods_pushMethod, String.eqb_refl.
      destruct (modelMethods (models st) T); [|reflexivity].
      simpl. now rewrite <- app_assoc. }
    split.
    { rewrite !view_cons_older by (simpl; lia).
      match goal with
      | |- view (?c :: ?rest) _ = _ =>
          replace (S n) with (length rest) by (simpl; lia)
      end.
      rewrite view_cons_new. rewrite <- Hlen at 1.
      rewrite view_cons_new, Hv0. destruct f. reflexivity. }
    split.
    { rewrite !view_cons_older by (simpl; lia).
      match goal with
      | |- view (?c :: ?rest) _ = _ =>
          replace (S (S n)) with (length rest) by (simpl; lia)
      end.
      rewrite view_cons_new.
      rewrite !view_cons_older by (simpl; lia).
      rewrite Hv0. destruct f. reflexivity. }
    split.
    { match goal with
      | |- view (?c :: ?rest) _ = _ =>
          replace (S (S (S n))) with (length rest) by (simpl; lia)
      end.
      rewrite view_cons_new.
      match goal with
      | |- _ <$> view (?c :: ?rest) _ = _ =>
          replace (S (S n)) with (length rest) by (simpl; lia)
      end.
      rewrite view_cons_new.
      rewrite !view_cons_older by (simpl; lia).
      rewrite Hv0. destruct f. reflexivity. }
    erewrite scopes_setScope_same;
      [|apply scopes_setScope_same; rewrite !scopes_pushMethod; exact Hsc].
    now rewrite insert_insert_eq.
  - rewrite !update_head.
    erewrite setScopeMethod_ok;
      [|rewrite !scopes_pushMethod; exact Hsc|exact Hs].
    cbn [mbind Result_bind sd_methods sd_targetClass length].
    rewrite !Hlen.
    eexists. split; [reflexivity|]. cbn [models heap console].
    cbn [set_name set_internal set_deprecated set_isReturningArray].
    split.
    { rewrite !view_cons_older by (simpl; lia).
      rewrite <- Hlen, view_cons_new, Hv0. destruct f. reflexivity. }
    split.
    { now rewrite !methods_setScope, !methods_pushMethod, String.eqb_refl. }
    split.
    { match goal with
      | |- view (?c :: ?rest) _ = _ =>
          replace (S n) with (length rest) by (simpl; lia)
      end.
      rewrite view_cons_new.
      rewrite !view_cons_older by (simpl; lia).
      rewrite Hv0. destruct f. reflexivity. }
    apply scopes_setScope_same. rewrite !scopes_pushMethod. exact Hsc.
Qed.

End Twins.

Module TwinNames.

Import StringFacts CaseFacts.

Lemma append_assoc' (a b c : string) : (a +:+ b) +:+ c = a +:+ (b +:+ c).
Proof.
  induction a as [|x a IH]; [reflexivity|].
  rewrite !append_cons. now rewrite IH.
Qed.

Lemma append_inj (a b c : string) : a +:+ b = a +:+ c -> b = c.
Proof.
  induction a as [|x a IH]; [now rewrite !append_nil|].
  rewrite !append_cons. intros [= E]. now apply IH.
Qed.

(** A prefix that ends before a code unit foreign to the pattern does
    not start an occurrence. *)
Lemma strip_prefix_sep p : forall c s rest,
  JsString.contains (String c "") p = false ->
  JsString.strip_prefix p s = None ->
  JsString.strip_prefix p (s +:+ String c rest) = None.
Proof.
  induction p as [|b p IH]; intros c s rest Hc Hs; [discriminate|].
  cbn in Hc. destruct (Ascii.eqb_spec c b) as [->|Hne].
  { destruct p; discriminate. }
  destruct s as [|a s].
  - rewrite append_nil. cbn.
    destruct (Ascii.eqb_spec b c); [congruence|reflexivity].
  - rewrite append_cons. cbn in Hs |- *.
    destruct (Ascii.eqb b a); [|reflexivity].
    apply IH; [|exact Hs]. destruct p; [reflexivity|exact Hc].
Qed.

Lemma contains_cons pat a s :
  JsString.contains pat (String a s) = false ->
  JsString.strip_prefix pat (String a s) = None
  /\ JsString.contains pat s = false.
Proof.
  cbn [JsString.contains].
  destruct (JsString.strip_prefix pat (String a s)); [discriminate|].
  intros H. split; [reflexivity|exact H].
Qed.

Lemma replace_first_skip pat repl c rest : forall s,
  JsString.contains (String c "") pat = false ->
  JsString.contains pat s = false ->
  JsString.replace_first pat repl (s +:+ String c rest)
  = s +:+ String c (JsString.replace_first pat repl rest).
Proof.
  intros s Hc. induction s as [|a s IH]; intros Hs.
  - rewrite !append_nil. cbn [JsString.replace_first].
    assert (JsString.strip_prefix pat (String c rest) = None) as ->;
      [|reflexivity].
    destruct pat as [|b p]; [discriminate|]. cbn in Hc |- *.
    destruct (Ascii.eqb_spec c b) as [->|Hne].
    { destruct p; discriminate. }
    destruct (Ascii.eqb_spec b c); [congruence|reflexivity].
  - apply contains_cons in Hs as [Hp Hs].
    rewrite !append_cons. cbn [JsString.replace_first].
    assert (JsString.strip_prefix pat (String a (s +:+ String c rest)) = None)
      as E by (rewrite <- append_cons; now apply strip_prefix_sep).
    rewrite E. now rewrite (IH Hs).
Qed.

Lemma upper_char_not_c a : Ascii.eqb "c" (JsString.upper_char a) = false.
Proof. destruct a as [[] [] [] [] [] [] [] []]; reflexivity. Qed.

Lemma contains_capitalize M :
  JsString.contains "create" M = false ->
  JsString.contains "create" (capitalize M) = false.
Proof.
  destruct M as [|a M]; [reflexivity|]. intros H.
  apply contains_cons in H as [_ H]. rewrite capitalize_cons.
  cbn [JsString.contains JsString.strip_prefix].
  now rewrite upper_char_not_c.
Qed.

Lemma toMany_reverse M s :
  toMany (reverseNameOf "create" M s) = "::createMany::" +:+ M +:+ "::" +:+ s.
Proof. reflexivity. Qed.

Lemma toMany_api s :
  JsString.contains "create" s = false ->
  toMany (apiNameOf "create" s) = s +:+ ".createMany".
Proof.
  intros H. unfold toMany.
  change (apiNameOf "create" s) with (s +:+ String "." "create").
  now rewrite (replace_first_skip "create" "createMany" "." "create" s eq_refl H).
Qed.

Lemma toMany_note M s :
  JsString.contains "create" M = false ->
  JsString.contains "create" s = false ->
  toMany (internalNote M (apiNameOf "create" s))
  = "Use " +:+ capitalize M +:+ "." +:+ s +:+ ".createMany() instead.".
Proof.
  intros HM Hs. unfold toMany, internalNote.
  change (apiNameOf "create" s) with (s +:+ String "." "create").
  rewrite append_assoc'.
  change (JsString.replace_first "create" "createMany"
            ("Use " +:+ capitalize M +:+ "." +:+ s
               +:+ String "." "create" +:+ "() instead."))
    with ("Use " +:+ JsString.replace_first "create" "createMany"
            (capitalize M +:+ String "."
               (s +:+ String "." "create() instead."))).
  rewrite (replace_first_skip "create" "createMany" "." _ (capitalize M)
             eq_refl (contains_capitalize M HM)).
  rewrite (replace_first_skip "create" "createMany" "." _ s eq_refl Hs).
  reflexivity.
Qed.

End TwinNames.

(** X10.  Lines 293-351 on a scope entry that is a descriptor, for a
    target that is a collected model.  The reverse method is the first
    object added.  The [createMany] twins are made exactly when
    [create] occurs in the reverse name, be it in the operation, in the
    key of the model or in the name of the relation: then the target
    gains the reverse method and its twin, named and noted with the
    first [create] replaced, and the descriptor gains the scope method
    under the API name and its twin under the API name with the first
    [create] replaced, which is the same entry when the API name holds
    no [create]; otherwise the target gains the reverse method and the
    descriptor the scope method only. *)
Theorem createMany_twins_follow_the_reverse_name
    (st : State) (M : string) (m : nat) (f : MethodFields) (op s : string)
    (tn : option string) (sc : gmap string (option ScopeDescriptor))
    (d : ScopeDescriptor) (T : string) :
  scopesOf st M = Some sc ->
  sc !! s = Some (Some d) ->
  view (heap st) m = Some f ->
  findModelByName (models st) tn = Ok (Some T) ->
  let rn := reverseNameOf op M s in
  let api := apiNameOf op s in
  let n := length (heap st) in
  let reverse := reverseMethodOf rn (internalNote M api) f in
  let scopeMethod := scopeMethodOf rn f in
  exists st',
    exposeScopeMethod st M m op s tn = Ok st'
    /\ view (heap st') n = Some reverse
    /\ if JsString.contains "create" rn then
         methodsOf st' T = (fun l => l ++ [n; n + 1]) <$> methodsOf st T
         /\ view (heap st') (n + 1) = Some (twinOf noteToMany reverse)
         /\ view (heap st') (n + 2) = Some scopeMethod
         /\ view (heap st') (n + 3) = Some (twinOf id scopeMethod)
         /\ scopesOf st' M
            = Some (<[s := Some (mkScope
                                   (<[toMany api := n + 3]>
                                      (<[api := n + 2]> (sd_methods d)))
                                   (sd_targetClass d))]> sc)
       else
         methodsOf st' T = (fun l => l ++ [n]) <$> methodsOf st T
         /\ view (heap st') (n + 1) = Some scopeMethod
         /\ scopesOf st' M
            = Some (<[s := Some (mkScope (<[api := n + 1]> (sd_methods d))
                                   (sd_targetClass d))]> sc).
Proof. exact (Twins.expose_twins st M m f op s tn sc d T). Qed.

(** X11.  For the operation [create] on a relation [s] of the model
    [M], neither name holding [create]: the target gains the reverse
    method and a twin named [::createMany::M::s] that returns an array
    and is noted [Use M.s.createMany() instead.], and the descriptor
    files the scope method under [s.create] and an array-returning twin
    under [s.createMany]. *)
Theorem create_relation_gets_createMany
    (st : State) (M : string) (m : nat) (f : MethodFields) (s : string)
    (tn : option string) (sc : gmap string (option ScopeDescriptor))
    (d : ScopeDescriptor) (T : string) :
  scopesOf st M = Some sc ->
  sc !! s = Some (Some d) ->
  view (heap st) m = Some f ->
  findModelByName (models st) tn = Ok (Some T) ->
  JsString.contains "create" M = false ->
  JsString.contains "create" s = false ->
  let n := length (heap st) in
  let manyName := "::createMany::" +:+ M +:+ "::" +:+ s in
  let manyNote :=
    "Use " +:+ capitalize M +:+ "." +:+ s +:+ ".createMany() instead." in
  exists st' d',
    exposeScopeMethod st M m "create" s tn = Ok st'
    /\ methodsOf st' T = (fun l => l ++ [n; n + 1]) <$> methodsOf st T
    /\ view (heap st') (n + 1)
       = Some (f_set_isReturningArray true (reverseMethodOf manyName manyNote f))
    /\ scopesOf st' M = Some (<[s := Some d']> sc)
    /\ sd_methods d' !! (s +:+ ".create") = Some (n + 2)
    /\ sd_methods d' !! (s +:+ ".createMany") = Some (n + 3)
    /\ view (heap st') (n + 3)
       = Some (f_set_isReturningArray true (scopeMethodOf manyName f)).
Proof.
  intros Hsc Hs Hv HT HM Hcs n manyName manyNote.
  destruct (Twins.expose_twins st M m f "create" s tn sc d T Hsc Hs Hv HT)
    as (st' & Hex & _ & Htw).
  change (JsString.contains "create" (reverseNameOf "create" M s)) with true
    in Htw.
  destruct Htw as (Hms & Hr & _ & Hsm & Hscopes).
  eexists st', _. split; [exact Hex|]. split; [exact Hms|].
  split.
  { fold n in Hr. rewrite Hr. f_equal.
    unfold twinOf, reverseMethodOf, noteToMany.
    destruct f as [x1 x2 x3 x4 x5 x6 x7 x8 x9 x10].
    cbn [name internal f_set_name f_set_internal f_set_deprecated
           f_set_isReturningArray accepts isStatic restClass_ctor
           isReturningArray resourceParams hasResourceParams description
           deprecated].
    now rewrite TwinNames.toMany_reverse, (TwinNames.toMany_note M s HM Hcs). }
  split; [exact Hscopes|]. cbn [sd_methods].
  rewrite (TwinNames.toMany_api s Hcs).
  change (apiNameOf "create" s) with (s +:+ ".create").
  split.
  { rewrite lookup_insert_ne; [apply lookup_insert_eq|].
    intros E. apply TwinNames.append_inj in E. discriminate. }
  split; [apply lookup_insert_eq|].
  fold n in Hsm. rewrite Hsm. reflexivity.
Qed.

Module Schemas.

Import ModelFacts.

Lemma buildSchemaOf_step app ms0 ms done k ms' :
  schemasDone app ms0 ms done ->
  buildSchemaOf app ms k = Ok ms' ->
  is_Some (app_models app !! k) /\ schemasDone app ms0 ms' (done ++ [k]).
Proof.
  intros [K Inv] H. unfold buildSchemaOf in H.
  destruct (app_models app !! k) as [am|] eqn:Ham; [|discriminate].
  cbn [ofOption mbind Result_bind] in H.
  destruct (lookupModel ms k) as [ck|] eqn:Hk; [|discriminate].
  injection H as <-. split; [eauto|]. split.
  - rewrite keys_setModel by eauto. exact K.
  - intros k' c Hc. rewrite lookup_setModel.
    destruct (Inv k' c Hc) as [Hdone Hnot].
    destruct (String.eqb_spec k' k) as [->|Hne]; split.
    + intros _. exists am. split; [exact Ham|]. f_equal.
      destruct (in_dec string_dec k done) as [Hin|Hnin].
      * destruct (Hdone Hin) as (am' & Ham' & E).
        rewrite Ham in Ham'. injection Ham' as <-.
        rewrite Hk in E. injection E as ->. reflexivity.
      * rewrite (Hnot Hnin) in Hk. now injection Hk as ->.
    + intros Hn. exfalso. apply Hn, in_or_app. right. now left.
    + intros Hin. apply in_app_or in Hin as [Hin|[->|[]]];
        [now apply Hdone|congruence].
    + intros Hn. apply Hnot. intros Hin. apply Hn, in_or_app. now left.
Qed.

Lemma loop_ok app ms0 keys : forall ms done ms',
  schemasDone app ms0 ms done ->
  forEachR (buildSchemaOf app) keys ms = Ok ms' ->
  schemasDone app ms0 ms' (done ++ keys).
Proof.
  induction keys as [|k keys IH]; intros ms done ms' Inv H.
  - injection H as <-. now rewrite app_nil_r.
  - cbn [forEachR mbind Result_bind] in H.
    destruct (buildSchemaOf app ms k) as [ms1|] eqn:Hk; [|discriminate].
    destruct (buildSchemaOf_step _ _ _ _ _ _ Inv Hk) as [_ Inv1].
    specialize (IH _ _ _ Inv1 H). now rewrite <- app_assoc in IH.
Qed.

Lemma loop_throws app ms0 keys : forall ms done e,
  schemasDone app ms0 ms done ->
  incl keys (map fst ms0) ->
  forEachR (buildSchemaOf app) keys ms = Throw e ->
  e = TypeError "Cannot read properties of undefined (reading 'definition')"
  /\ exists k, In k keys /\ app_models app !! k = None.
Proof.
  induction keys as [|k keys IH]; intros ms done e Inv Hincl H;
    [discriminate|].
  cbn [forEachR mbind Result_bind] in H.
  destruct (buildSchemaOf app ms k) as [ms1|e1] eqn:Hk.
  - destruct (buildSchemaOf_step _ _ _ _ _ _ Inv Hk) as [_ Inv1].
    destruct (IH _ _ _ Inv1 (fun x Hx => Hincl x (or_intror Hx)) H)
      as (-> & k' & Hin & Hnone).
    split; [reflexivity|]. exists k'. split; [now right|exact Hnone].
  - injection H as <-. unfold buildSchemaOf in Hk.
    destruct (app_models app !! k) as [am|] eqn:Ham.
    + cbn [ofOption mbind Result_bind] in Hk. exfalso.
      assert (is_Some (lookupModel ms k)) as [c Hc].
      { apply lookup_keys. destruct Inv as [-> _]. apply Hincl. now left. }
      rewrite Hc in Hk. discriminate.
    + cbn in Hk. injection Hk as <-. split; [reflexivity|].
      exists k. split; [now left|exact Ham].
Qed.

Lemma schemasDone_init app ms0 : schemasDone app ms0 ms0 [].
Proof.
  split; [reflexivity|]. intros k c Hc. split; [contradiction|auto].
Qed.

Lemma normalizeType_not_constructor t : isConstructor (normalizeType t) = false.
Proof.
  destruct t as [| |[mn|] fname|]; try reflexivity.
  cbn. destruct (JsString.is_empty mn); reflexivity.
Qed.

Lemma normalizeType_fixed t :
  isConstructor t = false -> normalizeType t = t.
Proof. destruct t; [reflexivity|reflexivity|discriminate|reflexivity]. Qed.

End Schemas.

(** X12.  [buildSchemas] either returns, and then the store, the
    console and the keys are as before and every model has the schema
    built from the definition that [app.models] holds under its key, or
    throws the [TypeError] of reading [definition] of [undefined], and
    then some key of the model map is not a key of [app.models]. *)
Theorem schemas_are_built_for_every_model (app : App) (st : State) :
  match buildSchemas app st with
  | Ok st' =>
      heap st' = heap st
      /\ console st' = console st
      /\ map fst (models st') = map fst (models st)
      /\ forall k c,
           lookupModel (models st) k = Some c ->
           exists am,
             app_models app !! k = Some am
             /\ lookupModel (models st') k
                = Some (with_modelSchema (schemaOf k am) c)
  | Throw e =>
      e = TypeError "Cannot read properties of undefined (reading 'definition')"
      /\ exists k, In k (map fst (models st)) /\ app_models app !! k = None
  end.
Proof.
  unfold buildSchemas.
  destruct (forEachR (buildSchemaOf app) (map fst (models st)) (models st))
    as [ms|e] eqn:H; cbn [mbind Result_bind].
  - pose proof (Schemas.loop_ok app (models st) _ _ [] ms
                  (Schemas.schemasDone_init app (models st)) H) as [K Inv].
    cbn [heap console models]. repeat split; try reflexivity; [exact K|].
    intros k c Hc. apply (Inv k c Hc). rewrite app_nil_l.
    apply ModelFacts.lookup_keys. eauto.
  - exact (Schemas.loop_throws app (models st) _ _ [] e
             (Schemas.schemasDone_init app (models st)) (incl_refl _) H).
Qed.

(** X13.  The schema of a model is named by the key and lists the
    properties of the definition under their names and in their order;
    no type in it is a constructor, a type that was not one is kept, and
    so is the rest of each property; building the schema again from its
    own properties changes nothing. *)
Theorem schema_types_are_names (k : string) (am : AppModel) :
  let sch := schemaOf k am in
  schema_name sch = k
  /\ map fst (schema_properties sch) = map fst (properties am)
  /\ Forall (fun q => isConstructor (p_type (snd q)) = false)
       (schema_properties sch)
  /\ Forall2 (fun p q =>
                p_rest (snd q) = p_rest (snd p)
                /\ (isConstructor (p_type (snd p)) = false ->
                    p_type (snd q) = p_type (snd p)))
       (properties am) (schema_properties sch)
  /\ schemaOf k (mkAppModel (swaggerMethods am) (schema_properties sch)) = sch.
Proof.
  unfold schemaOf. cbn [schema_name schema_properties properties].
  split; [reflexivity|].
  induction (properties am) as [|[n p] ps (E1 & F1 & F2 & E2)];
    cbn [map]; [repeat split; constructor|].
  split; [cbn; now f_equal|].
  split; [constructor; [apply Schemas.normalizeType_not_constructor|exact F1]|].
  split.
  { constructor; [|exact F2]. cbn. split; [reflexivity|].
    intros H. now apply Schemas.normalizeType_fixed. }
  injection E2 as E2. cbn [p_type p_rest].
  rewrite (Schemas.normalizeType_fixed _
             (Schemas.normalizeType_not_constructor (p_type p))).
  now rewrite E2.
Qed.

Module Dots.

Import StringFacts.

Lemma hasDot_cons c s :
  hasDot (String c s) = Ascii.eqb "." c || hasDot s.
Proof.
  unfold hasDot. cbn [JsString.contains JsString.strip_prefix].
  destruct (Ascii.eqb "." c); reflexivity.
Qed.

Lemma hasDot_app a b : hasDot (a +:+ b) = hasDot a || hasDot b.
Proof.
  induction a as [|c a IH].
  - rewrite append_nil. reflexivity.
  - rewrite append_cons, !hasDot_cons, IH. now rewrite orb_assoc.
Qed.

Lemma hasDollar_cons c s :
  JsString.contains "$" (String c s)
  = Ascii.eqb c "$" || JsString.contains "$" s.
Proof.
  cbn [JsString.contains JsString.strip_prefix]. rewrite (Ascii.eqb_sym "$" c).
  destruct (Ascii.eqb c "$"); reflexivity.
Qed.

(** A replacement string without a dollar stands for itself. *)
Lemma substitution_plain d before after :
  JsString.contains "$" d = false -> substitution d before after = d.
Proof.
  induction d as [|c d IH]; [reflexivity|].
  rewrite hasDollar_cons. intros H. apply orb_false_elim in H as [Hc Hd].
  cbn [substitution]. rewrite Hc. now rewrite (IH Hd).
Qed.

Lemma replace_dots_from_clean d s : forall before,
  JsString.contains "$" d = false ->
  hasDot d = false -> hasDot (replace_dots_from d before s) = false.
Proof.
  induction s as [|c s IH]; intros before Hp Hd; [reflexivity|].
  cbn [replace_dots_from]. destruct (Ascii.eqb c ".") eqn:E.
  - rewrite substitution_plain by exact Hp.
    now rewrite hasDot_app, Hd, IH.
  - rewrite hasDot_cons, IH, Ascii.eqb_sym, E by assumption. reflexivity.
Qed.

Lemma replace_dots_from_dotted d s : forall before,
  JsString.contains "$" d = false ->
  hasDot d = true -> hasDot s = true ->
  hasDot (replace_dots_from d before s) = true.
Proof.
  induction s as [|c s IH]; intros before Hp Hd; [discriminate|].
  rewrite hasDot_cons. cbn [replace_dots_from]. rewrite Ascii.eqb_sym.
  destruct (Ascii.eqb c ".").
  - intros _. rewrite substitution_plain by exact Hp.
    now rewrite hasDot_app, Hd.
  - cbn [orb]. intros H. rewrite hasDot_cons, (IH _ Hp Hd H).
    apply orb_true_r.
Qed.

End Dots.

(** X14.  With common-model namespacing on and a delimiter that is not
    the dot alone and holds no dollar (a dollar is a pattern of
    [String.prototype.replace]), every renderer is applied to data in
    which each of the four names of the common services holds a dot
    exactly when the delimiter does: a delimiter without a dot gives
    names without a dot whatever the module name, and a delimiter that
    holds a dot among other code units passes the test of line 93 and
    gives names with dots. *)
Theorem namespaced_common_names_follow_the_delimiter
    (template : string) (app : App) (options : Options) (h : Heap)
    (t : list Event) (models : State) :
  describeModels app options h = (t, Ok models) ->
  namespaceCommonModels options = true ->
  namespaceDelimiter options <> "." ->
  JsString.contains "$" (namespaceDelimiter options) = false ->
  exists d,
    Forall (fun n => hasDot n = hasDot (namespaceDelimiter options))
      (commonNames d)
    /\ forall (render : string -> RenderData -> Result string)
              (transform : string -> Result string),
         snd (generateServices (Ok template) render transform app options h)
         = match render template d with
           | Throw e => Throw e
           | Ok sdk =>
               match transform sdk with
               | Ok code => Ok code
               | Throw e => Throw (PlainError (errorMessage e))
               end
           end.
Proof.
  intros Hrun Hns Hdelim Hplain.
  pose proof (generateServices_renders template app options h t models
                Hrun (fun _ => Hdelim)) as H.
  cbv zeta in H. rewrite Hns in H.
  eexists. split; [|exact H].
  set (delim := namespaceDelimiter options) in *.
  assert (hasDot (replace_dots delim (ngModuleName options +:+ delim))
          = hasDot delim) as E.
  { unfold replace_dots. destruct (hasDot delim) eqn:Hd.
    - apply Dots.replace_dots_from_dotted; [exact Hplain|exact Hd|].
      rewrite Dots.hasDot_app, Hd. apply orb_true_r.
    - now apply Dots.replace_dots_from_clean. }
  unfold commonNames.
  cbn [rd_commonAuth rd_commonAuthRequestInterceptor rd_commonResource
       rd_commonResourceProvider].
  repeat constructor; rewrite Dots.hasDot_app, E; apply orb_false_r.
Qed.

Module Descriptions.

Import HeapFacts StoreFacts AugmenterRuns.

Lemma normalized_plain d f :
  plainDescription (f_set_description (normalizeDescription d) f).
Proof. intros l. destruct d; discriminate. Qed.

Lemma inherited_description : inherited description.
Proof. intros o f f' H. destruct o as [? ? ? ? ? [d|] ? ?]; cbn; congruence. Qed.

Lemma keepsDescribed_refl h : keepsDescribed h h.
Proof. intros m f H. eauto. Qed.

Lemma keepsDescribed_trans h1 h2 h3 :
  keepsDescribed h1 h2 -> keepsDescribed h2 h3 -> keepsDescribed h1 h3.
Proof.
  intros H12 H23 m f Hf. destruct (H12 m f Hf) as (f2 & Hf2 & Q2).
  destruct (H23 m f2 Hf2) as (f3 & Hf3 & Q3). eauto.
Qed.

Lemma keepsDescribed_eq h h' :
  (forall m, (description <$> view h' m) = (description <$> view h m)) ->
  keepsDescribed h h'.
Proof.
  intros E m f Hf. specialize (E m). rewrite Hf in E.
  destruct (view h' m) as [f'|]; [|discriminate].
  exists f'. split; [reflexivity|]. cbn in E. injection E as E.
  unfold plainDescription. now rewrite E.
Qed.

Lemma described_keeps h h' m :
  keepsDescribed h h' -> described h m -> described h' m.
Proof. intros K (f & Hf & Q). destruct (K m f Hf) as (f' & Hf' & Q'). exists f'. auto. Qed.

(** A push on the array of resource parameters changes no other
    answer. *)
Lemma push_keeps {A} (pi : MethodFields -> A) a h :
  inherited pi ->
  (forall l f, pi (f_set_resourceParams l f) = pi f) ->
  forall j m,
    (pi <$> view (push_resourceParams a h j) m) = (pi <$> view h m).
Proof.
  intros Hpi Hset.
  induction h as [|cell older IH]; intros j m; [reflexivity|].
  cbn [push_resourceParams].
  assert (forall cell' older',
             length older' = length older ->
             (forall p, (pi <$> view older' p) = (pi <$> view older p)) ->
             match cell, cell' with
             | Plain f, Plain f' => pi f' = pi f
             | Clone p o, Clone p' o' =>
                 p' = p
                 /\ forall f f0, pi f = pi f0 ->
                      pi (apply_overrides o' f) = pi (apply_overrides o f0)
             | _, _ => False
             end ->
             (pi <$> view (cell' :: older') m)
             = (pi <$> view (cell :: older) m)) as Hgen.
  { intros cell' older' Hlen Hold Hcell. cbn [view]. rewrite Hlen.
    destruct (Nat.eqb m (length older)); [|apply Hold].
    destruct cell as [f|p o], cell' as [f'|p' o']; try contradiction.
    - cbn. now rewrite Hcell.
    - destruct Hcell as [-> Hov]. specialize (Hold p).
      destruct (view older' p), (view older p); cbn in *; try congruence.
      injection Hold as Hold. f_equal. now apply Hov. }
  destruct (Nat.eqb j (length older)).
  - destruct cell as [f|p o].
    + destruct (resourceParams f); [|reflexivity].
      apply Hgen; [reflexivity|reflexivity|]. cbn. apply Hset.
    + destruct (o_resourceParams o).
      * apply Hgen; [reflexivity|reflexivity|]. split; [reflexivity|].
        intros f f0 E.
        destruct (acts_set_resourceParams (l ++ [a])) as [_ Hc].
        destruct (Hc p o) as (o' & Eo & Ho'). cbn in Eo.
        injection Eo as <-. rewrite Ho', Hset. now apply Hpi.
      * apply Hgen; [apply length_push|intros p'; apply IH|].
        split; [reflexivity|]. intros f f0 E. now apply Hpi.
  - apply Hgen; [apply length_push|intros p'; apply IH|].
    destruct cell; [reflexivity|]. split; [reflexivity|].
    intros f f0 E. now apply Hpi.
Qed.

Lemma findResourceParams_keeps {A} (pi : MethodFields -> A) j h a :
  inherited pi ->
  (forall l f, pi (f_set_resourceParams l f) = pi f) ->
  (forall b f, pi (f_set_hasResourceParams b f) = pi f) ->
  forall m, (pi <$> view (findResourceParams j h a) m) = (pi <$> view h m).
Proof.
  intros Hpi H1 H2 m.
  unfold findResourceParams. destruct (isResourceParam a); [|reflexivity].
  rewrite (push_keeps pi) by assumption.
  destruct (view h j) as [f|]; [|reflexivity].
  destruct (resourceParams f); [reflexivity|].
  rewrite (update_keeps pi _ _ _ _ Hpi (acts_set_hasResourceParams true))
    by (intros; apply H2).
  now rewrite (update_keeps pi _ _ _ _ Hpi (acts_set_resourceParams []))
    by (intros; apply H1).
Qed.

Lemma fold_findResourceParams_keeps {A} (pi : MethodFields -> A) j args :
  inherited pi ->
  (forall l f, pi (f_set_resourceParams l f) = pi f) ->
  (forall b f, pi (f_set_hasResourceParams b f) = pi f) ->
  forall h m,
    (pi <$> view (fold_left (findResourceParams j) args h) m)
    = (pi <$> view h m).
Proof.
  intros Hpi H1 H2.
  induction args as [|a args IH]; intros h m; [reflexivity|].
  cbn [fold_left]. now rewrite IH, (findResourceParams_keeps pi).
Qed.

Lemma fixArgs_keeps_description h j h' :
  fixArgsOfPrototypeMethods h j = Ok h' ->
  forall m, (description <$> view h' m) = (description <$> view h m).
Proof.
  unfold fixArgsOfPrototypeMethods, readMethod.
  destruct (view h j) as [f|]; [|discriminate].
  cbn [ofOption mbind Result_bind].
  destruct (restClass_ctor f) as [ctor|]; [|now intros [= <-]].
  destruct (isStatic f); [now intros [= <-]|].
  intros [= <-] m.
  rewrite (fold_findResourceParams_keeps description)
    by (reflexivity || apply inherited_description).
  now rewrite (update_keeps description _ _ _ _ inherited_description
                 (acts_set_accepts _)) by reflexivity.
Qed.

(** An assignment of a description that is not an array. *)
Lemma update_described d h j :
  keepsDescribed h (update (set_description (normalizeDescription d)) h j).
Proof.
  set (g := set_description (normalizeDescription d)).
  destruct (acts_set_description (normalizeDescription d)) as [Hp Hc].
  fold g in Hp, Hc.
  induction h as [|cell older IH]; intros m f; [discriminate|].
  cbn [update].
  destruct (Nat.eqb_spec j (length older)) as [->|Hj]; cbn [view].
  - destruct (Nat.eqb m (length older)); [|eauto].
    destruct cell as [f0|p o].
    + rewrite Hp. intros [= <-]. eexists. split; [reflexivity|].
      intros _. apply normalized_plain.
    + destruct (Hc p o) as (o' & -> & Ho').
      destruct (view older p) as [fp|]; [|discriminate].
      cbn. intros [= <-]. eexists. split; [reflexivity|].
      intros _. rewrite Ho'. apply normalized_plain.
  - rewrite length_update.
    destruct (Nat.eqb m (length older)); [|apply IH].
    destruct cell as [f0|p o]; [eauto|].
    destruct (view older p) as [fp|] eqn:Hfp; [|discriminate].
    destruct (IH p fp Hfp) as (fp' & -> & Q). cbn.
    intros [= <-]. eexists. split; [reflexivity|].
    unfold plainDescription in *.
    destruct o as [? ? ? ? ? [d0|] ? ?]; cbn in *; auto.
Qed.

Lemma fixDescription_described h j h' :
  fixDescription h j = Ok h' -> keepsDescribed h h' /\ described h' j.
Proof.
  unfold fixDescription, readMethod.
  destruct (view h j) as [f|] eqn:Hf; [|discriminate].
  cbn [ofOption mbind Result_bind]. intros [= <-].
  split; [apply update_described|]. unfold described.
  rewrite (view_update_same _ _ _ _ (acts_set_description _)), Hf.
  eexists. split; [reflexivity|]. apply normalized_plain.
Qed.

Lemma fixArgs_loop_keeps methods : forall h h',
  forEachR fixArgsOfPrototypeMethods methods h = Ok h' -> keepsDescribed h h'.
Proof.
  induction methods as [|j methods IH]; intros h h' H.
  - injection H as <-. apply keepsDescribed_refl.
  - cbn [forEachR mbind Result_bind] in H.
    destruct (fixArgsOfPrototypeMethods h j) as [h1|] eqn:H1; [|discriminate].
    eapply keepsDescribed_trans; [|eapply IH; eauto].
    apply keepsDescribed_eq. eapply fixArgs_keeps_description; eauto.
Qed.

Lemma fixDescription_loop_described methods : forall h h',
  forEachR fixDescription methods h = Ok h' ->
  keepsDescribed h h' /\ Forall (described h') methods.
Proof.
  induction methods as [|j methods IH]; intros h h' H.
  - injection H as <-. split; [apply keepsDescribed_refl|constructor].
  - cbn [forEachR mbind Result_bind] in H.
    destruct (fixDescription h j) as [h1|] eqn:H1; [|discriminate].
    destruct (fixDescription_described _ _ _ H1) as [K1 D1].
    destruct (IH _ _ H) as [K D].
    split; [eapply keepsDescribed_trans; eauto|].
    constructor; [eapply described_keeps; eauto|exact D].
Qed.

Lemma addCreateMany_keeps h methods h1 methods1 :
  addCreateMany h methods = Ok (h1, methods1) -> keepsDescribed h h1.
Proof.
  unfold addCreateMany.
  destruct (filterR (isCreate h) methods) as [[|m [|? ?]]|];
    cbn [mbind Result_bind objectCreate]; try discriminate;
    try (intros [= <- <-]; apply keepsDescribed_refl).
  rewrite !update_head. intros [= <- <-].
  intros j f Hf. exists f. split; [|auto].
  rewrite view_cons_older; [exact Hf|]. now apply view_lt in Hf.
Qed.

Lemma augmentMethods_described h methods h3 methods1 :
  augmentMethods h methods = Ok (h3, methods1) ->
  keepsDescribed h h3 /\ Forall (described h3) methods1.
Proof.
  unfold augmentMethods.
  destruct (addCreateMany h methods) as [[h1 ms1]|] eqn:Ha; [|discriminate].
  cbn [mbind Result_bind].
  destruct (forEachR fixArgsOfPrototypeMethods ms1 h1) as [h2|] eqn:H2;
    [|discriminate].
  cbn [mbind Result_bind].
  destruct (forEachR fixDescription ms1 h2) as [h3'|] eqn:H3; [|discriminate].
  cbn [mbind Result_bind]. intros [= <- <-].
  destruct (fixDescription_loop_described _ _ _ H3) as [K3 D3].
  split; [|exact D3].
  eapply keepsDescribed_trans; [eapply addCreateMany_keeps; eauto|].
  eapply keepsDescribed_trans; [eapply fixArgs_loop_keeps; eauto|exact K3].
Qed.

(** The invariant of the loop over the classes. *)
Lemma describeClass_described options st c st' :
  describeClass options st c = Ok st' ->
  keepsDescribed (heap st) (heap st')
  /\ forall k methods,
       methodsOf st' k = Some methods ->
       methodsOf st k = Some methods \/ Forall (described (heap st')) methods.
Proof.
  unfold describeClass. intros H.
  destruct (getFormattedModelName (c_name c) options) as [name|];
    [|discriminate].
  cbn [mbind Result_bind] in H.
  destruct (c_settings c) as [sd|] eqn:Hsd; [|discriminate].
  cbn [ofOption mbind Result_bind] in H.
  destruct (ignored options name).
  { injection H as <-. split; [apply keepsDescribed_refl|auto]. }
  cbn [with_description c_ctor] in H.
  destruct (c_ctor c).
  2:{ injection H as <-. split; [apply keepsDescribed_refl|auto]. }
  destruct (augmentMethods _ _) as [[h3 methods1]|] eqn:Ha; [|discriminate].
  cbn [mbind Result_bind] in H. injection H as <-.
  destruct (augmentMethods_described _ _ _ _ Ha) as [K D].
  split; [exact K|]. intros k methods. unfold methodsOf, modelMethods.
  cbn [models heap]. rewrite lookup_setModel.
  destruct (String.eqb k name); [|auto].
  cbn. intros [= <-]. now right.
Qed.

Lemma collect_described options classes : forall st st',
  (forall k methods, methodsOf st k = Some methods ->
     Forall (described (heap st)) methods) ->
  forEachR (describeClass options) classes st = Ok st' ->
  keepsDescribed (heap st) (heap st')
  /\ forall k methods, methodsOf st' k = Some methods ->
       Forall (described (heap st')) methods.
Proof.
  induction classes as [|c classes IH]; intros st st' Inv H.
  - injection H as <-. split; [apply keepsDescribed_refl|exact Inv].
  - cbn [forEachR mbind Result_bind] in H.
    destruct (describeClass options st c) as [st1|] eqn:Hstep; [|discriminate].
    destruct (describeClass_described _ _ _ _ Hstep) as [K1 D1].
    destruct (IH st1 st') as [K D]; [|exact H|].
    + intros k methods Hk. destruct (D1 k methods Hk) as [Hold|Hnew];
        [|exact Hnew].
      eapply List.Forall_impl; [|exact (Inv k methods Hold)].
      intros m. now apply described_keeps.
    + split; [eapply keepsDescribed_trans; eauto|exact D].
Qed.

End Descriptions.

Module DescribedRuns.

Import HeapFacts ModelFacts StoreFacts Growth GrowthRuns Derived DerivedRuns
  Descriptions Schemas.

Lemma takenOver_description f f' :
  takenOver f = takenOver f' -> description f = description f'.
Proof. unfold takenOver. now intros [= _ _ _ _ _ E]. Qed.

Lemma scopes_described app options st st' t :
  (forall m, listed st m -> described (heap st) m) ->
  buildScopes app options st = (t, Ok st') ->
  forall m, listed st' m -> described (heap st') m.
Proof.
  intros Inv H m (k & methods & Hk & Hm). unfold buildScopes in H.
  assert (allMadeFrom st st) as Hinit.
  { split; [apply grownFrom_refl|]. intros i Hi. lia. }
  destruct (run_derived app options st _ st t (Ok st') Hinit H st' eq_refl)
    as [G D].
  assert (forall j, listed st j -> described (heap st') j) as Hold.
  { intros j Hj. destruct (Inv j Hj) as (f & Hf & Q).
    destruct (keeps_view _ _ _ _ G Hf) as (f' & Hf' & E).
    exists f'. split; [exact Hf'|].
    apply takenOver_butInternal, takenOver_description in E.
    unfold plainDescription. now rewrite E. }
  destruct G as (_ & _ & _ & _ & Ms & _).
  destruct (Ms k) as (news & E & Hnews).
  unfold methodsOf in Hk. rewrite Hk in E.
  destruct (modelMethods (models st) k) as [l|] eqn:Hl; [|discriminate].
  cbn in E. injection E as ->.
  apply in_app_or in Hm as [Hm|Hm].
  - apply Hold. exists k, l. split; [exact Hl|exact Hm].
  - rewrite List.Forall_forall in Hnews. apply Hnews in Hm.
    destruct (D m Hm) as (m0 & f & f0 & _ & Hl0 & Hf & Hf0 & _ & Et).
    destruct (Hold m0 Hl0) as (f0' & Hf0' & Q). rewrite Hf0 in Hf0'.
    injection Hf0' as <-. exists f. split; [exact Hf|].
    unfold plainDescription. now rewrite (takenOver_description _ _ Et).
Qed.

Lemma schemas_keep_methods app st st' :
  buildSchemas app st = Ok st' ->
  heap st' = heap st /\ forall k, methodsOf st' k = methodsOf st k.
Proof.
  unfold buildSchemas.
  destruct (forEachR (buildSchemaOf app) (map fst (models st)) (models st))
    as [ms|e] eqn:H; cbn [mbind Result_bind]; [|discriminate].
  intros [= <-]. split; [reflexivity|]. intros k.
  unfold methodsOf, modelMethods. cbn [models].
  destruct (loop_ok app (models st) _ _ [] ms
              (schemasDone_init app (models st)) H) as [K Inv].
  rewrite app_nil_l in Inv.
  destruct (lookupModel (models st) k) as [c|] eqn:Hc.
  - destruct (Inv k c Hc) as [Hdone _].
    destruct Hdone as (am & _ & ->); [apply lookup_keys; eauto|reflexivity].
  - destruct (lookupModel ms k) as [c'|] eqn:Hc'; [|reflexivity].
    exfalso. assert (is_Some (lookupModel (models st) k)) as [c Hc0].
    { apply lookup_keys. rewrite <- K. apply lookup_keys. eauto. }
    congruence.
Qed.

End DescribedRuns.

(** X15.  After a run of [describeModels] that returns, every method
    that a model lists, collected or added by the scope resolution, is
    an object of the store whose description is not an array. *)
Theorem descriptions_are_never_arrays
    (app : App) (options : Options) (h : Heap) (t : list Event) (st : State)
    (m : nat) :
  describeModels app options h = (t, Ok st) ->
  listed st m ->
  described (heap st) m.
Proof.
  unfold describeModels. intros H.
  destruct (collectModels app options h) as [st0|] eqn:Hc;
    [|injection H as _ H; discriminate].
  assert (forall j, listed st0 j -> described (heap st0) j) as H0.
  { intros j (k & methods & Hk & Hj).
    destruct (Descriptions.collect_described options (classes app)
                (mkState h [] []) st0) as [_ D]; [|exact Hc|].
    - intros k' ms' Hk'. discriminate.
    - specialize (D k methods Hk). rewrite List.Forall_forall in D. auto. }
  destruct (buildScopes app options st0) as [t1 [st1|e]] eqn:Hb;
    [|injection H as _ H; discriminate].
  pose proof (DescribedRuns.scopes_described _ _ _ _ _ H0 Hb) as H1.
  destruct (includeSchema options).
  - injection H as _ H.
    destruct (DescribedRuns.schemas_keep_methods _ _ _ H) as [Eh Em].
    intros (k & methods & Hk & Hm). rewrite Eh. apply H1.
    exists k, methods. rewrite <- Em. auto.
  - injection H as _ <-. apply H1.
Qed.

Module Kept.

Import HeapFacts StoreFacts Descriptions.

Lemma inherited_name : inherited name.
Proof. intros o f f' H. destruct o as [[n|] ? ? ? ? ? ? ?]; cbn; congruence. Qed.

Section Projection.

Context {A : Type} (pi : MethodFields -> A).
Hypothesis Hpi : inherited pi.
Hypothesis Haccepts : forall v f, pi (f_set_accepts v f) = pi f.
Hypothesis Hparams : forall v f, pi (f_set_resourceParams v f) = pi f.
Hypothesis Hhas : forall v f, pi (f_set_hasResourceParams v f) = pi f.
Hypothesis Hdescription : forall v f, pi (f_set_description v f) = pi f.

(** What neither the assignment of [accepts] nor the resource
    parameters change is kept by [fixArgsOfPrototypeMethods], for every
    object. *)
Lemma fixArgs_projection h j h' :
  fixArgsOfPrototypeMethods h j = Ok h' ->
  forall m, (pi <$> view h' m) = (pi <$> view h m).
Proof.
  unfold fixArgsOfPrototypeMethods, readMethod.
  destruct (view h j) as [f|]; [|discriminate].
  cbn [ofOption mbind Result_bind].
  destruct (restClass_ctor f) as [ctor|]; [|now intros [= <-]].
  destruct (isStatic f); [now intros [= <-]|].
  intros [= <-] m.
  rewrite (fold_findResourceParams_keeps pi) by assumption.
  now rewrite (update_keeps pi _ _ _ _ Hpi (acts_set_accepts _))
    by (intros; apply Haccepts).
Qed.

Lemma fixDescription_projection h j h' :
  fixDescription h j = Ok h' ->
  forall m, (pi <$> view h' m) = (pi <$> view h m).
Proof.
  unfold fixDescription, readMethod.
  destruct (view h j) as [f|]; [|discriminate].
  cbn [ofOption mbind Result_bind]. intros [= <-] m.
  now rewrite (update_keeps pi _ _ _ _ Hpi (acts_set_description _))
    by (intros; apply Hdescription).
Qed.

Lemma loop_projection (step : Heap -> nat -> Result Heap) :
  (forall h j h', step h j = Ok h' ->
     forall m, (pi <$> view h' m) = (pi <$> view h m)) ->
  forall methods h h',
    forEachR step methods h = Ok h' ->
    forall m, (pi <$> view h' m) = (pi <$> view h m).
Proof.
  intros Hstep. induction methods as [|j methods IH]; intros h h' H m.
  - now injection H as <-.
  - cbn [forEachR mbind Result_bind] in H.
    destruct (step h j) as [h1|] eqn:H1; [|discriminate].
    rewrite (IH _ _ H m). eapply Hstep; eauto.
Qed.

(** The two loops of the augmenter. *)
Lemma loops_projection methods1 h1 h2 h3 :
  forEachR fixArgsOfPrototypeMethods methods1 h1 = Ok h2 ->
  forEachR fixDescription methods1 h2 = Ok h3 ->
  forall m, (pi <$> view h3 m) = (pi <$> view h1 m).
Proof.
  intros H2 H3 m.
  rewrite (loop_projection fixDescription fixDescription_projection _ _ _ H3).
  apply (loop_projection fixArgsOfPrototypeMethods fixArgs_projection _ _ _ H2).
Qed.

Lemma augmentMethods_projection h methods h3 methods1 :
  augmentMethods h methods = Ok (h3, methods1) ->
  forall m, m < length h -> (pi <$> view h3 m) = (pi <$> view h m).
Proof.
  unfold augmentMethods.
  destruct (addCreateMany h methods) as [[h1 ms1]|] eqn:Ha; [|discriminate].
  cbn [mbind Result_bind].
  destruct (forEachR fixArgsOfPrototypeMethods ms1 h1) as [h2|] eqn:H2;
    [|discriminate].
  cbn [mbind Result_bind].
  destruct (forEachR fixDescription ms1 h2) as [h3'|] eqn:H3; [|discriminate].
  cbn [mbind Result_bind]. intros [= <- <-] m Hm.
  rewrite (loops_projection _ _ _ _ H2 H3).
  unfold addCreateMany in Ha.
  destruct (filterR (isCreate h) methods) as [[|m0 [|? ?]]|];
    cbn [mbind Result_bind objectCreate] in Ha; try discriminate;
    try (injection Ha as <- <-; reflexivity).
  rewrite !update_head in Ha. injection Ha as <- <-.
  now rewrite view_cons_older.
Qed.

Lemma describeClass_projection options st c st' :
  describeClass options st c = Ok st' ->
  forall m, m < length (heap st) ->
    (pi <$> view (heap st') m) = (pi <$> view (heap st) m).
Proof.
  unfold describeClass. intros H.
  destruct (getFormattedModelName (c_name c) options) as [name|];
    [|discriminate].
  cbn [mbind Result_bind] in H.
  destruct (c_settings c) as [sd|]; [|discriminate].
  cbn [ofOption mbind Result_bind] in H.
  destruct (ignored options name); [now injection H as <-|].
  cbn [with_description c_ctor] in H.
  destruct (c_ctor c); [|now injection H as <-].
  destruct (augmentMethods _ _) as [[h3 methods1]|] eqn:Ha; [|discriminate].
  cbn [mbind Result_bind] in H. injection H as <-. cbn [heap].
  eapply augmentMethods_projection; eauto.
Qed.

End Projection.

(** The names of the method list that the augmenter returns: those the
    list had, and [createMany] for the clone. *)
Lemma augmentMethods_own h methods h3 methods1 :
  augmentMethods h methods = Ok (h3, methods1) ->
  Forall (ownRelation h) methods ->
  Forall (ownRelation h3) methods1.
Proof.
  intros H Hown.
  assert (forall m, m < length h ->
            (name <$> view h3 m) = (name <$> view h m)) as Hold.
  { exact (augmentMethods_projection name inherited_name
             (fun _ _ => eq_refl) (fun _ _ => eq_refl) (fun _ _ => eq_refl)
             (fun _ _ => eq_refl) _ _ _ _ H). }
  assert (forall m, ownRelation h m -> is_Some (view h m) -> ownRelation h3 m)
    as Hkeep.
  { intros m Hm [f0 Hf0] f op s Hf Hmatch.
    pose proof (Hold m (view_lt _ _ _ Hf0)) as E. rewrite Hf, Hf0 in E.
    cbn in E. injection E as E. rewrite E in Hmatch. eauto. }
  revert H. unfold augmentMethods.
  destruct (addCreateMany h methods) as [[h1 ms1]|] eqn:Ha; [|discriminate].
  cbn [mbind Result_bind].
  destruct (forEachR fixArgsOfPrototypeMethods ms1 h1) as [h2|] eqn:H2;
    [|discriminate].
  cbn [mbind Result_bind].
  destruct (forEachR fixDescription ms1 h2) as [h3'|] eqn:H3; [|discriminate].
  cbn [mbind Result_bind]. intros [= <- <-].
  pose proof (loops_projection name inherited_name
                (fun _ _ => eq_refl) (fun _ _ => eq_refl) (fun _ _ => eq_refl)
                (fun _ _ => eq_refl) _ _ _ _ H2 H3) as Hnew.
  unfold addCreateMany in Ha.
  destruct (filterR (isCreate h) methods) as [l|] eqn:Hf; [|discriminate].
  pose proof (RegistryMethods.filterR_all _ _ _ Hf) as Hall.
  assert (Forall (ownRelation h3') methods) as Hsame.
  { unfold allMethods in Hall. rewrite List.Forall_forall in Hall, Hown |- *.
    intros m Hm. apply Hkeep; auto. }
  cbn [mbind Result_bind] in Ha.
  destruct l as [|m0 [|? ?]]; try (injection Ha as <- <-; exact Hsame).
  cbn [objectCreate] in Ha. rewrite !update_head in Ha.
  injection Ha as <- <-. apply List.Forall_app. split; [exact Hsame|].
  constructor; [|constructor]. intros f op s Hv Hmatch.
  specialize (Hnew (length h)). rewrite Hv in Hnew.
  cbn [set_name set_isReturningArray] in Hnew.
  rewrite view_cons_new in Hnew.
  destruct (view h m0); [|discriminate]. cbn in Hnew.
  injection Hnew as Hnew. rewrite Hnew in Hmatch. discriminate.
Qed.

Lemma ownRelation_kept h h' m :
  (forall j, j < length h -> (name <$> view h' j) = (name <$> view h j)) ->
  is_Some (view h m) -> ownRelation h m -> ownRelation h' m.
Proof.
  intros Hold [f0 Hf0] Hm f op s Hf Hmatch.
  pose proof (Hold m (view_lt _ _ _ Hf0)) as E. rewrite Hf, Hf0 in E.
  cbn in E. injection E as E. rewrite E in Hmatch. eauto.
Qed.

Lemma valid_kept h h' m :
  keepsDescribed h h' -> is_Some (view h m) -> is_Some (view h' m).
Proof. intros K [f Hf]. destruct (K m f Hf) as (f' & Hf' & _). eauto. Qed.

(** The invariant of the loop over the classes: the methods that the
    models list are objects of the store whose relations are not members
    of [Object.prototype]. *)
Lemma collect_own options classes : forall st st',
  (forall k methods, methodsOf st k = Some methods ->
     Forall (fun m => is_Some (view (heap st) m)
                      /\ ownRelation (heap st) m) methods) ->
  Forall (fun c => allMethods (heap st) (c_methods c)
                   /\ Forall (ownRelation (heap st)) (c_methods c)) classes ->
  forEachR (describeClass options) classes st = Ok st' ->
  forall k methods, methodsOf st' k = Some methods ->
    Forall (fun m => is_Some (view (heap st') m)
                     /\ ownRelation (heap st') m) methods.
Proof.
  induction classes as [|c classes IH]; intros st st' Inv Hreg H.
  - now injection H as <-.
  - cbn [forEachR mbind Result_bind] in H.
    destruct (describeClass options st c) as [st1|] eqn:H1; [|discriminate].
    inversion Hreg as [|? ? [Hall Hown] Hrest]; subst.
    pose proof (describeClass_projection name inherited_name
                  (fun _ _ => eq_refl) (fun _ _ => eq_refl)
                  (fun _ _ => eq_refl) (fun _ _ => eq_refl) _ _ _ _ H1)
      as Hold.
    pose proof (proj1 (describeClass_described _ _ _ _ H1)) as K.
    assert (forall methods,
              Forall (fun m => is_Some (view (heap st) m)
                               /\ ownRelation (heap st) m) methods ->
              Forall (fun m => is_Some (view (heap st1) m)
                               /\ ownRelation (heap st1) m) methods)
      as Hkeep.
    { intros methods F. eapply List.Forall_impl; [|exact F].
      intros m [Hv Ho]. split; [eapply valid_kept; eauto|].
      eapply ownRelation_kept; eauto. }
    apply (IH st1 st'); [| |exact H].
    + intros k methods. revert H1. unfold describeClass.
      destruct (getFormattedModelName (c_name c) options) as [nm|];
        [|discriminate].
      cbn [mbind Result_bind].
      destruct (c_settings c) as [sd|]; [|discriminate].
      cbn [ofOption mbind Result_bind].
      destruct (ignored options nm);
        [intros [= E] Hk; subst st1; apply Hkeep, (Inv k); exact Hk|].
      cbn [with_description c_ctor c_methods].
      destruct (c_ctor c);
        [|intros [= E] Hk; subst st1; apply Hkeep, (Inv k); exact Hk].
      destruct (augmentMethods _ _) as [[h3 methods1]|] eqn:Ha;
        [|discriminate].
      cbn [mbind Result_bind]. intros E. injection E as E.
      subst st1. cbn [heap] in *.
      unfold methodsOf, modelMethods. cbn [models].
      rewrite lookup_setModel.
      destruct (String.eqb k nm).
      * cbn. intros [= <-].
        destruct (augmentMethods_described _ _ _ _ Ha) as [_ D].
        pose proof (augmentMethods_own _ _ _ _ Ha Hown) as O.
        rewrite List.Forall_forall in D, O |- *.
        intros m Hm. split; [|now apply O].
        destruct (D m Hm) as (f & Hf & _). eauto.
      * intros Hk. apply Hkeep, (Inv k). exact Hk.
    + eapply List.Forall_impl; [|exact Hrest]. intros c' [Hall' Hown'].
      unfold allMethods in *.
      split; [eapply List.Forall_impl; [|exact Hall'];
              intros m; now apply valid_kept|].
      rewrite List.Forall_forall in Hall', Hown' |- *.
      intros m Hm. eapply ownRelation_kept; eauto.
Qed.

End Kept.

Module Returns.

Import HeapFacts ModelFacts StoreFacts Expose ScopeSteps ScopeRuns Growth
  GrowthRuns DerivedRuns Descriptions Schemas.

(** *** The loop over the classes *)

Lemma addCreateMany_returns h methods :
  allMethods h methods ->
  exists h1 methods1,
    addCreateMany h methods = Ok (h1, methods1) /\ allMethods h1 methods1.
Proof.
  intros Hall. unfold addCreateMany.
  rewrite (Augmenter.filterR_isCreate h methods Hall).
  cbn [mbind Result_bind].
  destruct (List.filter (namedCreate h) methods) as [|m [|m' l]] eqn:E;
    try (eexists _, _; split; [reflexivity|exact Hall]).
  cbn [objectCreate]. rewrite !update_head.
  eexists _, _. split; [reflexivity|].
  assert (is_Some (view h m)) as [f Hf].
  { unfold allMethods in Hall. rewrite List.Forall_forall in Hall.
    apply Hall. apply (proj1 (List.filter_In (namedCreate h) m methods)).
    rewrite E. now left. }
  apply List.Forall_app. split.
  - eapply List.Forall_impl; [|exact Hall]. intros j [fj Hj].
    rewrite view_cons_older by (now apply view_lt in Hj). eauto.
  - constructor; [|constructor]. cbn [set_name set_isReturningArray].
    rewrite view_cons_new, Hf. cbn. eauto.
Qed.

Lemma formatted_nonempty t options :
  t <> "" -> exists n, getFormattedModelName t options = Ok n.
Proof.
  intros Ht. destruct t as [|c rest]; [contradiction|].
  unfold getFormattedModelName. destruct (namespaceModels options); eauto.
Qed.

Lemma describeClass_returns options st c :
  c_name c <> "" ->
  c_settings c <> None ->
  allMethods (heap st) (c_methods c) ->
  exists st', describeClass options st c = Ok st'.
Proof.
  intros Hn Hset Hall. unfold describeClass.
  destruct (formatted_nonempty _ options Hn) as [name ->].
  cbn [mbind Result_bind].
  destruct (c_settings c) as [sd|]; [|contradiction].
  cbn [ofOption mbind Result_bind].
  destruct (ignored options name); [eauto|].
  cbn [with_description c_ctor c_methods].
  destruct (c_ctor c); [|eauto].
  destruct (addCreateMany_returns _ _ Hall) as (h1 & ms1 & Ha & Hall1).
  destruct (AugmenterRuns.augmentMethods_returns _ _ _ _ Ha Hall1)
    as (h2 & h3 & _ & _ & ->).
  cbn [mbind Result_bind]. eauto.
Qed.

Lemma allMethods_keeps h h' methods :
  keepsDescribed h h' -> allMethods h methods -> allMethods h' methods.
Proof.
  intros K Hall. eapply List.Forall_impl; [|exact Hall].
  intros m [f Hf]. destruct (K m f Hf) as (f' & Hf' & _). eauto.
Qed.

Lemma collect_returns options classes : forall st,
  Forall (fun c => c_name c <> "" /\ c_settings c <> None
                   /\ allMethods (heap st) (c_methods c))
    classes ->
  exists st', forEachR (describeClass options) classes st = Ok st'.
Proof.
  induction classes as [|c classes IH]; intros st Hall; [eexists; reflexivity|].
  inversion Hall as [|? ? (Hn & Hs & Hm) Hrest]; subst.
  destruct (describeClass_returns options st c Hn Hs Hm) as [st1 H1].
  cbn [forEachR mbind Result_bind]. rewrite H1.
  apply IH. eapply List.Forall_impl; [|exact Hrest].
  intros c' (Hn' & Hs' & Hm'). split; [exact Hn'|]. split; [exact Hs'|].
  eapply allMethods_keeps; [|exact Hm'].
  exact (proj1 (describeClass_described _ _ _ _ H1)).
Qed.

(** *** One call of [buildScopeMethod] *)

Lemma find_returns ms n : exists r, findModelByName ms (Some n) = Ok r.
Proof.
  induction ms as [|[k c] ms [r IH]]; cbn; [eauto|].
  destruct (String.eqb _ _); eauto.
Qed.

Lemma step_returns app options st M m :
  resolvable options st M ->
  is_Some (view (heap st) m) ->
  ownRelation (heap st) m ->
  is_Some (app_models app !! M) ->
  exists o st', buildScopeMethod app options st M m = Ok (o, st').
Proof.
  intros (c & sc & Hc & Hsc & K) [f Hv] Hown [am Ham].
  assert (scopesOf st M = Some sc) as HscM.
  { unfold scopesOf, modelScopes. rewrite Hc. exact Hsc. }
  unfold buildScopeMethod, readMethod.
  rewrite Hc, Hv. cbn [ofOption mbind Result_bind].
  destruct (scope_method_match (name f)) as [[op s]|] eqn:Hmatch; [|eauto].
  pose proof (Hown f op s Hv Hmatch) as Hinh.
  destruct (sc !! s) as [[d|]|] eqn:Hs.
  - destruct (K s) as (t & tn & T & Ht & Hn & HT); [now exists d|].
    rewrite Ht, Hn. cbn [mbind Result_bind]. rewrite Hsc.
    cbn [ofOption mbind Result_bind]. rewrite Hs.
    destruct (exposeScopeMethod_spec st M m f op s (Some tn) sc d T
                HscM Hs Hv HT) as (st' & _ & _ & -> & _).
    cbn [mbind Result_bind]. eauto.
  - destruct (targetClassOf c s) as [t|] eqn:Ht.
    + assert (t <> "") as Hne.
      { unfold targetClassOf in Ht. destruct (c_relations c !! s) as [t'|];
          [|discriminate].
        destruct (JsString.is_empty t') eqn:E; [discriminate|].
        injection Ht as <-. now destruct t'. }
      destruct (formatted_nonempty t options Hne) as [tn ->].
      cbn [mbind Result_bind]. rewrite Hsc.
      cbn [ofOption mbind Result_bind]. rewrite Hs. eauto.
    + cbn [mbind Result_bind]. rewrite Hsc.
      cbn [ofOption mbind Result_bind]. rewrite Hs. eauto.
  - destruct (targetClassOf c s) as [t|] eqn:Ht.
    2:{ cbn [mbind Result_bind]. rewrite Hsc.
        cbn [ofOption mbind Result_bind]. rewrite Hs, Hinh. eauto. }
    assert (t <> "") as Hne.
    { unfold targetClassOf in Ht. destruct (c_relations c !! s) as [t'|];
        [|discriminate].
      destruct (JsString.is_empty t') eqn:E; [discriminate|].
      injection Ht as <-. now destruct t'. }
    destruct (formatted_nonempty t options Hne) as [tn ->].
    cbn [mbind Result_bind]. rewrite Hsc.
    cbn [ofOption mbind Result_bind]. rewrite Hs, Hinh.
    destruct (find_returns (models st) tn) as [[T|] HT]; rewrite HT;
      cbn [mbind Result_bind]; [|eauto].
    rewrite Ham. cbn [ofOption mbind Result_bind].
    destruct (swaggerExcludes am _); [eauto|].
    match goal with
    | |- context [exposeScopeMethod ?s1 _ _ _ _ _] => set (st1 := s1)
    end.
    assert (scopesOf st1 M = Some (<[s := Some (mkScope ∅ (Some tn))]> sc))
      as HscM1 by (apply scopes_setScope_same; exact HscM).
    assert (findModelByName (models st1) (Some tn) = Ok (Some T)) as HT1.
    { rewrite (findModelByName_keys (models st1) (models st)); [exact HT|].
      unfold st1, setScope. cbn [models]. apply keys_updModel. }
    destruct (exposeScopeMethod_spec st1 M m f op s (Some tn) _ _ T
                HscM1 (lookup_insert_eq _ _ _) Hv HT1)
      as (st' & _ & _ & -> & _).
    cbn [mbind Result_bind]. eauto.
Qed.

Lemma step_resolvable app options st M m o st' :
  resolvable options st M ->
  buildScopeMethod app options st M m = Ok (o, st') ->
  resolvable options st' M.
Proof.
  intros (c & sc & Hc & Hsc & K) H.
  destruct (buildScopeMethod_spec _ _ _ _ _ _ _ H)
    as (Hkeys & Hrel & _ & c0 & Hc0 & Heff).
  rewrite Hc in Hc0. injection Hc0 as <-.
  assert (forall sc',
             scopesOf st' M = Some sc' ->
             (forall s, isDescriptor (sc' !! s) ->
                exists t tn T,
                  targetClassOf c s = Some t
                  /\ getFormattedModelName t options = Ok tn
                  /\ findModelByName (models st) (Some tn) = Ok (Some T)) ->
             resolvable options st' M) as Hmk.
  { intros sc' Hsc' K'. unfold scopesOf, modelScopes in Hsc'.
    destruct (lookupModel (models st') M) as [c'|] eqn:Hc'; [|discriminate].
    cbn in Hsc'. exists c', sc'. split; [exact Hc'|]. split; [exact Hsc'|].
    intros s Hd. destruct (K' s Hd) as (t & tn & T & Ht & Hn & HT).
    exists t, tn, T. split; [|split; [exact Hn|]].
    - rewrite <- Ht. apply targetClassOf_relations.
      specialize (Hrel M). unfold modelRelations in Hrel.
      rewrite Hc, Hc' in Hrel. cbn in Hrel. congruence.
    - now rewrite (findModelByName_keys _ _ _ Hkeys). }
  assert (st' = st -> resolvable options st' M) as Hsame.
  { intros ->. exists c, sc. auto. }
  destruct o as [|op s d]; cbn in Heff; [now apply Hsame|].
  destruct Heff as (sc0 & Esc & Heff). rewrite Hsc in Esc. injection Esc as <-.
  destruct d as [| | | |[|]]; cbn in Heff.
  - now apply Hsame.
  - destruct Heff as (_ & E & _). apply (Hmk _ E).
    intros s0 [d Hd]. rewrite lookup_insert in Hd.
    case_decide; [discriminate|]. apply K. now exists d.
  - now apply Hsame.
  - now apply Hsame.
  - destruct Heff as (_ & (d' & E) & Hex). apply (Hmk _ E).
    intros s0 [d Hd]. rewrite lookup_insert in Hd.
    case_decide; [subst; exact Hex|]. apply K. now exists d.
  - destruct Heff as (Hd0 & (d' & E)). apply (Hmk _ E).
    intros s0 [d Hd]. rewrite lookup_insert in Hd.
    case_decide; [subst; now apply K|]. apply K. now exists d.
Qed.

(** *** The loops of [buildScopes] *)

Lemma forEachT_returns {A S E} (f : S -> A -> Result (E * S))
    (I : S -> Prop) (l0 : list A) :
  (forall s x, In x l0 -> I s -> exists e s', f s x = Ok (e, s') /\ I s') ->
  forall l s,
    incl l l0 -> I s ->
    exists t s', forEachT f l s = (t, Ok s') /\ I s'.
Proof.
  intros Hstep. induction l as [|x l IH]; intros s Hincl Hs.
  - exists [], s. split; [reflexivity|exact Hs].
  - destruct (Hstep s x (Hincl x (or_introl eq_refl)) Hs) as (e & s1 & Hf & Hs1).
    destruct (IH s1 (fun y Hy => Hincl y (or_intror Hy)) Hs1)
      as (t & s' & Hrec & Hs').
    exists (e :: t), s'. cbn [forEachT]. rewrite Hf, Hrec. auto.
Qed.

Lemma valid_grows st s m :
  grownFrom st s -> is_Some (view (heap st) m) -> is_Some (view (heap s) m).
Proof.
  intros G [f Hf]. destruct (keeps_view _ _ _ _ G Hf) as (f' & Hf' & _). eauto.
Qed.

Lemma listed_valid st0 s m :
  (forall j, listed st0 j -> is_Some (view (heap st0) j)) ->
  grownFrom st0 s ->
  listed s m -> is_Some (view (heap s) m).
Proof.
  intros V0 G (k & methods & Hk & Hm).
  pose proof G as (_ & _ & _ & V & Ms & _).
  destruct (Ms k) as (news & E & Hnews).
  unfold methodsOf in Hk. rewrite Hk in E.
  destruct (modelMethods (models st0) k) as [l|] eqn:Hl; [|discriminate].
  cbn in E. injection E as ->.
  apply in_app_or in Hm as [Hm|Hm].
  - eapply valid_grows; [exact G|]. apply V0. exists k, l. auto.
  - rewrite List.Forall_forall in Hnews. apply V. now apply Hnews.
Qed.

Lemma own_grows st s m :
  grownFrom st s ->
  (m < length (heap st) -> ownRelation (heap st) m) ->
  ownRelation (heap s) m.
Proof.
  intros (_ & O & N & _) Hm f op sn Hf Hmatch.
  destruct (Nat.lt_ge_cases m (length (heap st))) as [Hlt|Hge].
  - pose proof (O m Hlt) as E. rewrite Hf in E.
    destruct (view (heap st) m) as [f0|] eqn:Hf0; [|discriminate].
    cbn in E. injection E as E.
    assert (name f = name f0) as En.
    { destruct f, f0. unfold butInternal in E. cbn in E |- *. congruence. }
    rewrite En in Hmatch. eapply (Hm Hlt); eauto.
  - rewrite (N m f Hge Hf) in Hmatch. discriminate.
Qed.

Lemma listed_own st0 s m :
  (forall j, listed st0 j -> ownRelation (heap st0) j) ->
  grownFrom st0 s ->
  listed s m -> ownRelation (heap s) m.
Proof.
  intros O0 G (k & methods & Hk & Hm). apply (own_grows st0 s m G).
  intros Hlt. apply O0.
  pose proof G as (_ & _ & _ & _ & Ms & _).
  destruct (Ms k) as (news & E & Hnews).
  unfold methodsOf in Hk. rewrite Hk in E.
  destruct (modelMethods (models st0) k) as [l|] eqn:Hl; [|discriminate].
  cbn in E. injection E as ->.
  apply in_app_or in Hm as [Hm|Hm]; [exists k, l; auto|].
  rewrite List.Forall_forall in Hnews. apply Hnews in Hm. lia.
Qed.

Lemma reset_shape st k :
  sameShape st
    (mkState (heap st) (updModel (models st) k (with_scopes ∅)) (console st)).
Proof.
  split; cbn [models]; [apply keys_updModel|].
  intros k'. unfold modelRelations. rewrite lookup_updModel.
  destruct (String.eqb_spec k' k) as [->|]; [|reflexivity].
  destruct (lookupModel (models st) k); reflexivity.
Qed.

Lemma model_returns app options st0 s k :
  (forall j, listed st0 j -> is_Some (view (heap st0) j)) ->
  (forall j, listed st0 j -> ownRelation (heap st0) j) ->
  (forall k', In k' (map fst (models st0)) -> is_Some (app_models app !! k')) ->
  betweenModels st0 s ->
  In k (map fst (models st0)) ->
  exists t s',
    buildScopesOfModel app options s k = (t, Ok s') /\ betweenModels st0 s'.
Proof.
  intros V0 O0 A0 [G Sh] Hk. unfold buildScopesOfModel.
  assert (is_Some (lookupModel (models s) k)) as [c Hc].
  { apply lookup_keys. destruct Sh as [-> _]. exact Hk. }
  rewrite Hc.
  set (sM := mkState (heap s) (updModel (models s) k (with_scopes ∅))
               (console s)).
  assert (inModel options sM k sM) as Hinit.
  { split; [apply grownFrom_refl|]. split; [apply sameShape_refl|].
    exists (with_scopes ∅ c), ∅. unfold sM. cbn [models].
    rewrite lookup_updModel, String.eqb_refl, Hc.
    split; [reflexivity|]. split; [reflexivity|].
    intros s0 [d Hd]. rewrite lookup_empty in Hd. discriminate. }
  destruct (forEachT_returns (callback app options k) (inModel options sM k)
              (c_methods c)) with (l := c_methods c) (s := sM)
    as (t & s' & Hrun & G' & Sh' & _); [|apply incl_refl|exact Hinit|].
  - intros x m Hm (Gx & Shx & Rx).
    assert (is_Some (view (heap x) m)) as Hvalid.
    { eapply valid_grows; [exact Gx|]. unfold sM. cbn [heap].
      apply (listed_valid st0 s m V0 G). exists k, (c_methods c).
      split; [|exact Hm]. unfold methodsOf, modelMethods. now rewrite Hc. }
    assert (ownRelation (heap x) m) as Hown.
    { apply (own_grows sM x m Gx). intros _. unfold sM. cbn [heap].
      apply (listed_own st0 s m O0 G). exists k, (c_methods c).
      split; [|exact Hm]. unfold methodsOf, modelMethods. now rewrite Hc. }
    destruct (step_returns app options x k m Rx Hvalid Hown (A0 k Hk))
      as (o & x' & Hstep).
    exists (mkEvent k m o), x'. unfold callback. rewrite Hstep.
    split; [reflexivity|].
    split; [eapply grownFrom_trans; [exact Gx|eapply step_grows; eauto]|].
    split; [eapply sameShape_trans; [exact Shx|eapply step_sameShape; eauto]|].
    eapply step_resolvable; eauto.
  - exists t, s'. split; [exact Hrun|]. split.
    + eapply grownFrom_trans; [exact G|].
      eapply grownFrom_trans; [apply (reset_grows s k)|exact G'].
    + eapply sameShape_trans; [exact Sh|].
      eapply sameShape_trans; [apply (reset_shape s k)|exact Sh'].
Qed.

Lemma run_returns app options st0 keys : forall s,
  (forall j, listed st0 j -> is_Some (view (heap st0) j)) ->
  (forall j, listed st0 j -> ownRelation (heap st0) j) ->
  (forall k', In k' (map fst (models st0)) -> is_Some (app_models app !! k')) ->
  betweenModels st0 s ->
  incl keys (map fst (models st0)) ->
  exists t s',
    buildScopesOver app options keys s = (t, Ok s') /\ betweenModels st0 s'.
Proof.
  induction keys as [|k keys IH]; intros s V0 O0 A0 B Hincl.
  - exists [], s. split; [reflexivity|exact B].
  - destruct (model_returns app options st0 s k V0 O0 A0 B
                (Hincl k (or_introl eq_refl))) as (t1 & s1 & H1 & B1).
    destruct (IH s1 V0 O0 A0 B1 (fun y Hy => Hincl y (or_intror Hy)))
      as (t2 & s2 & H2 & B2).
    exists (t1 ++ t2), s2. cbn [buildScopesOver]. rewrite H1, H2. auto.
Qed.

End Returns.

(** ** The augmenter on the methods of a class *)

Module Frames.

Import HeapFacts AugmenterRuns RegistryMethods.

Lemma ancestry_cons_older cell h j :
  j < length h -> ancestry (cell :: h) j = ancestry h j.
Proof.
  intros Hlt. cbn [ancestry].
  destruct (Nat.eqb_spec j (length h)); [lia|reflexivity].
Qed.

Lemma ancestry_update g phi h j :
  acts g phi -> forall x, ancestry (update g h j) x = ancestry h x.
Proof.
  intros [Hp Hc]. induction h as [|cell older IH]; intros x; [reflexivity|].
  cbn [update].
  destruct (Nat.eqb_spec j (length older)) as [->|Hj]; cbn [ancestry].
  - destruct (Nat.eqb x (length older)); [|reflexivity].
    destruct cell as [f|p o]; [now rewrite Hp|].
    destruct (Hc p o) as (o' & -> & _). reflexivity.
  - rewrite length_update.
    destruct (Nat.eqb x (length older)); [|apply IH].
    destruct cell as [f|p o]; [reflexivity|]. now rewrite IH.
Qed.

Lemma ancestry_push a h : forall j x,
  ancestry (push_resourceParams a h j) x = ancestry h x.
Proof.
  induction h as [|cell older IH]; intros j x; [reflexivity|].
  cbn [push_resourceParams].
  destruct (Nat.eqb j (length older)).
  - destruct cell as [f|p o].
    + destruct (resourceParams f); reflexivity.
    + destruct (o_resourceParams o); [reflexivity|].
      cbn [ancestry]. rewrite length_push.
      destruct (Nat.eqb x (length older)); [|apply IH]. now rewrite IH.
  - cbn [ancestry]. rewrite length_push.
    destruct (Nat.eqb x (length older)); [|apply IH].
    destruct cell as [f|p o]; [reflexivity|]. now rewrite IH.
Qed.

Lemma cellAt_update_frame g h j m :
  j <> m -> cellAt (update g h j) m = cellAt h m.
Proof.
  intros Hne. induction h as [|cell older IH]; [reflexivity|].
  cbn [update].
  destruct (Nat.eqb_spec j (length older)) as [->|Hj]; cbn [cellAt].
  - destruct (Nat.eqb_spec m (length older)); [congruence|reflexivity].
  - rewrite length_update.
    destruct (Nat.eqb m (length older)); [reflexivity|exact IH].
Qed.

(** A push changes no object outside the ancestry of the method. *)
Lemma cellAt_push_frame a h : forall j m,
  ~ In m (ancestry h j) ->
  cellAt (push_resourceParams a h j) m = cellAt h m.
Proof.
  induction h as [|cell older IH]; intros j m Hnin; [reflexivity|].
  cbn [push_resourceParams]. cbn [ancestry] in Hnin.
  destruct (Nat.eqb_spec j (length older)) as [->|Hj].
  - assert (m <> length older) as Hm by (intros ->; apply Hnin; now left).
    assert (forall cell' older',
               length older' = length older ->
               cellAt older' m = cellAt older m ->
               cellAt (cell' :: older') m = cellAt (cell :: older) m) as Hgen.
    { intros cell' older' Hlen E. cbn [cellAt]. rewrite Hlen.
      destruct (Nat.eqb_spec m (length older)); [contradiction|exact E]. }
    destruct cell as [f|p o].
    + destruct (resourceParams f); [|reflexivity]. now apply Hgen.
    + destruct (o_resourceParams o); [now apply Hgen|].
      apply Hgen; [apply length_push|]. apply IH.
      intros Hin. apply Hnin. now right.
  - cbn [cellAt]. rewrite length_push.
    destruct (Nat.eqb m (length older)); [reflexivity|now apply IH].
Qed.

Lemma findResourceParams_frame j h a m :
  j <> m -> ~ In m (ancestry h j) ->
  cellAt (findResourceParams j h a) m = cellAt h m
  /\ forall x, ancestry (findResourceParams j h a) x = ancestry h x.
Proof.
  intros Hne Hnin. unfold findResourceParams.
  destruct (isResourceParam a); [|split; reflexivity].
  destruct (view h j) as [f|]; [destruct (resourceParams f)|].
  - split; [now apply cellAt_push_frame|apply ancestry_push].
  - split.
    + rewrite cellAt_push_frame.
      * now rewrite !cellAt_update_frame.
      * rewrite (ancestry_update _ _ _ _ (acts_set_hasResourceParams true)).
        now rewrite (ancestry_update _ _ _ _ (acts_set_resourceParams [])).
    + intros x. rewrite ancestry_push.
      rewrite (ancestry_update _ _ _ _ (acts_set_hasResourceParams true)).
      now rewrite (ancestry_update _ _ _ _ (acts_set_resourceParams [])).
  - split; [now apply cellAt_push_frame|apply ancestry_push].
Qed.

Lemma fold_findResourceParams_frame j m args : forall h,
  j <> m -> ~ In m (ancestry h j) ->
  cellAt (fold_left (findResourceParams j) args h) m = cellAt h m
  /\ forall x, ancestry (fold_left (findResourceParams j) args h) x
               = ancestry h x.
Proof.
  induction args as [|a args IH]; intros h Hne Hnin; [split; reflexivity|].
  cbn [fold_left].
  destruct (findResourceParams_frame j h a m Hne Hnin) as [E1 A1].
  destruct (IH (findResourceParams j h a) Hne) as [E2 A2];
    [now rewrite A1|].
  split; [now rewrite E2|]. intros x. now rewrite A2.
Qed.

(** The ancestries are those of the store the augmenter was given. *)
Lemma fixArgs_ancestry h j h' :
  fixArgsOfPrototypeMethods h j = Ok h' ->
  forall x, ancestry h' x = ancestry h x.
Proof.
  unfold fixArgsOfPrototypeMethods, readMethod.
  destruct (view h j) as [f|]; [|discriminate].
  cbn [ofOption mbind Result_bind].
  destruct (restClass_ctor f) as [ctor|]; [|now intros [= <-]].
  destruct (isStatic f); [now intros [= <-]|].
  intros [= <-] x.
  generalize (update (set_accepts (ctor_accepts ctor ++ accepts f)) h j)
    (ancestry_update _ _ h j (acts_set_accepts (ctor_accepts ctor ++ accepts f)) x).
  induction (ctor_accepts ctor ++ accepts f) as [|a args IH]; intros h0 E;
    [exact E|].
  cbn [fold_left]. apply IH. rewrite <- E.
  unfold findResourceParams. destruct (isResourceParam a); [|reflexivity].
  rewrite ancestry_push.
  destruct (view h0 j) as [f0|]; [|reflexivity].
  destruct (resourceParams f0); [reflexivity|].
  rewrite (ancestry_update _ _ _ _ (acts_set_hasResourceParams true)).
  now rewrite (ancestry_update _ _ _ _ (acts_set_resourceParams [])).
Qed.

(** A call on another method, one whose lookups do not go through [m],
    leaves the object at [m] as it is. *)
Lemma fixArgs_frame h j h' m :
  fixArgsOfPrototypeMethods h j = Ok h' ->
  j <> m -> ~ In m (ancestry h j) ->
  cellAt h' m = cellAt h m.
Proof.
  unfold fixArgsOfPrototypeMethods, readMethod.
  destruct (view h j) as [f|]; [|discriminate].
  cbn [ofOption mbind Result_bind].
  destruct (restClass_ctor f) as [ctor|]; [|now intros [= <-]].
  destruct (isStatic f); [now intros [= <-]|].
  intros [= <-] Hne Hnin.
  destruct (fold_findResourceParams_frame j m (ctor_accepts ctor ++ accepts f)
              (update (set_accepts (ctor_accepts ctor ++ accepts f)) h j) Hne)
    as [E _].
  { now rewrite (ancestry_update _ _ _ _ (acts_set_accepts _)). }
  rewrite E. now apply cellAt_update_frame.
Qed.

Lemma fixArgs_loop_frame m methods : forall h h',
  Forall (fun j => j <> m /\ ~ In m (ancestry h j)) methods ->
  forEachR fixArgsOfPrototypeMethods methods h = Ok h' ->
  cellAt h' m = cellAt h m /\ forall x, ancestry h' x = ancestry h x.
Proof.
  induction methods as [|j methods IH]; intros h h' Hall H.
  - injection H as <-. split; reflexivity.
  - cbn [forEachR mbind Result_bind] in H.
    destruct (fixArgsOfPrototypeMethods h j) as [h1|] eqn:H1; [|discriminate].
    inversion Hall as [|? ? [Hne Hnin] Hrest]; subst.
    pose proof (fixArgs_ancestry _ _ _ H1) as A1.
    destruct (IH h1 h') as [E A]; [|exact H|].
    { eapply List.Forall_impl; [|exact Hrest]. intros x [? ?].
      split; [assumption|]. now rewrite A1. }
    split; [|intros x; now rewrite A, A1].
    rewrite E. eapply fixArgs_frame; eauto.
Qed.

Lemma cellAt_plain_view h m f :
  cellAt h m = Some (Plain f) -> view h m = Some f.
Proof.
  induction h as [|cell older IH]; cbn; [discriminate|].
  destruct (Nat.eqb m (length older)); [|exact IH]. now intros [= ->].
Qed.

Lemma cellAt_plain_ancestry h m f :
  cellAt h m = Some (Plain f) -> ancestry h m = [m].
Proof.
  induction h as [|cell older IH]; cbn; [discriminate|].
  destruct (Nat.eqb m (length older)); [|exact IH]. now intros [= ->].
Qed.

Lemma plainSignature_cell h m sg f :
  plainSignature h m = Some sg -> view h m = Some f ->
  cellAt h m = Some (Plain f).
Proof.
  unfold plainSignature. intros Hp Hv.
  destruct (cellAt h m) as [[g|p o]|] eqn:Hc; try discriminate.
  rewrite (cellAt_plain_view _ _ _ Hc) in Hv. congruence.
Qed.

Lemma plainMethods_all h methods : plainMethods h methods -> allMethods h methods.
Proof.
  intros H. eapply List.Forall_impl; [|exact H].
  intros j [g Hg]. rewrite (cellAt_plain_view _ _ _ Hg). eauto.
Qed.

End Frames.

Module ClassMethods.

Import HeapFacts AugmenterRuns RegistryMethods StoreFacts Frames.

(** What a class filed under [k] becomes: the augmenter runs on its
    methods. *)
Lemma describeClass_filed options st c k sd h3 methods1 :
  filedUnder options k c ->
  c_settings c = Some sd ->
  augmentMethods (heap st) (c_methods c) = Ok (h3, methods1) ->
  exists st',
    describeClass options st c = Ok st'
    /\ heap st' = h3
    /\ (c_methods <$> lookupModel (models st') k) = Some methods1.
Proof.
  intros (Hctor & Hn & Hi) Hs Ha. unfold describeClass.
  rewrite Hn. cbn [mbind Result_bind]. rewrite Hs.
  cbn [ofOption mbind Result_bind]. rewrite Hi.
  cbn [with_description c_ctor c_methods].
  destruct (c_ctor c); [|contradiction].
  rewrite Ha. cbn [mbind Result_bind]. eexists. split; [reflexivity|].
  split; [reflexivity|]. cbn [models].
  rewrite lookup_setModel, String.eqb_refl. reflexivity.
Qed.

(** The lists and the store that [addCreateMany] returns on methods of
    the registry. *)
Lemma addCreateMany_plain h methods m f :
  plainMethods h methods ->
  List.NoDup methods ->
  In m methods ->
  view h m = Some f ->
  List.filter (namedCreate h) methods <> [m] ->
  exists h1 methods1,
    addCreateMany h methods = Ok (h1, methods1)
    /\ allMethods h1 methods1
    /\ List.NoDup methods1
    /\ In m methods1
    /\ (forall j, In j methods -> In j methods1)
    /\ cellAt h1 m = Some (Plain f)
    /\ Forall (fun j => j <> m -> ~ In m (ancestry h1 j)) methods1.
Proof.
  intros Hplain Hnd Hin Hv Hsingle.
  pose proof (plainMethods_all _ _ Hplain) as Hall.
  pose proof (Augmenter.filterR_isCreate h methods Hall) as E.
  assert (cellAt h m = Some (Plain f)) as Hcell.
  { unfold plainMethods in Hplain. rewrite List.Forall_forall in Hplain.
    destruct (Hplain m Hin) as [g Hg].
    rewrite (cellAt_plain_view _ _ _ Hg) in Hv. congruence. }
  assert (Forall (fun j => j <> m -> ~ In m (ancestry h j)) methods) as Hanc.
  { unfold plainMethods in Hplain. eapply List.Forall_impl; [|exact Hplain].
    intros j [g Hg] Hne. rewrite (cellAt_plain_ancestry _ _ _ Hg).
    intros [->|[]]. now apply Hne. }
  destruct (List.filter (namedCreate h) methods) as [|m0 [|m1 l]] eqn:F.
  - exists h, methods. unfold addCreateMany. rewrite E. auto 10.
  - pose proof (Augmenter.addCreateMany_single h methods m0 E) as Hadd.
    assert (In m0 methods) as Hin0.
    { apply (proj1 (List.filter_In (namedCreate h) m0 methods)).
      rewrite F. now left. }
    assert (m0 <> m) as Hne0 by congruence.
    cbn [set_name set_isReturningArray] in Hadd.
    eexists _, _. split; [exact Hadd|].
    assert (forall j, In j methods -> j < length h) as Hlt.
    { intros j Hj. unfold allMethods in Hall.
      rewrite List.Forall_forall in Hall. destruct (Hall j Hj) as [fj Hfj].
      eapply view_lt; eauto. }
    split.
    { unfold allMethods. apply List.Forall_app. split.
      - unfold allMethods in Hall. rewrite List.Forall_forall in Hall |- *.
        intros j Hj. rewrite view_cons_older by auto. auto.
      - constructor; [|constructor]. rewrite view_cons_new.
        unfold allMethods in Hall. rewrite List.Forall_forall in Hall.
        destruct (Hall m0 Hin0) as [f0 ->]. cbn. eauto. }
    split.
    { apply List.NoDup_app; [exact Hnd|repeat constructor; intros []|].
      intros x Hx [<-|[]]. apply Hlt in Hx. lia. }
    split; [apply in_or_app; now left|].
    split; [intros j Hj; apply in_or_app; now left|].
    split.
    { cbn [cellAt]. destruct (Nat.eqb_spec m (length h)) as [->|_];
        [apply Hlt in Hin; lia|exact Hcell]. }
    apply List.Forall_app. split.
    + rewrite List.Forall_forall in Hanc |- *. intros j Hj Hne.
      rewrite ancestry_cons_older by auto. auto.
    + constructor; [|constructor]. intros Hne. cbn [ancestry].
      rewrite Nat.eqb_refl. intros [E1|Hin1]; [now apply Hne|].
      unfold plainMethods in Hplain. rewrite List.Forall_forall in Hplain.
      destruct (Hplain m0 Hin0) as [g0 Hg0].
      rewrite (cellAt_plain_ancestry _ _ _ Hg0) in Hin1.
      destruct Hin1 as [->|[]]. now apply Hne0.
  - exists h, methods. unfold addCreateMany. rewrite E. auto 10.
Qed.

(** The loop of [fixArgsOfPrototypeMethods] on an instance method that
    nothing but its own call reaches. *)
Lemma fixArgs_loop_collects m f ctor methods : forall h h2,
  List.NoDup methods ->
  In m methods ->
  cellAt h m = Some (Plain f) ->
  restClass_ctor f = Some ctor ->
  isStatic f = false ->
  Forall (fun j => j <> m -> ~ In m (ancestry h j)) methods ->
  forEachR fixArgsOfPrototypeMethods methods h = Ok h2 ->
  exists f2,
    view h2 m = Some f2
    /\ match List.filter isResourceParam (ctor_accepts ctor ++ accepts f) with
       | [] =>
           resourceParams f2 = resourceParams f
           /\ hasResourceParams f2 = hasResourceParams f
       | found =>
           resourceParams f2 = Some (default [] (resourceParams f) ++ found)
           /\ hasResourceParams f2
              = match resourceParams f with
                | None => true
                | Some _ => hasResourceParams f
                end
       end.
Proof.
  induction methods as [|j methods IH]; intros h h2 Hnd Hin Hcell Hctor Hst
    Hanc H; [contradiction|].
  inversion Hnd as [|? ? Hnin Hnd']; subst.
  inversion Hanc as [|? ? Hj Hrest]; subst.
  cbn [forEachR mbind Result_bind] in H.
  destruct (fixArgsOfPrototypeMethods h j) as [h1|] eqn:H1; [|discriminate].
  cbn [mbind Result_bind] in H.
  pose proof (fixArgs_ancestry _ _ _ H1) as A1.
  destruct (Nat.eq_dec j m) as [->|Hne].
  - pose proof (cellAt_plain_view _ _ _ Hcell) as Hv.
    pose proof (fixArgs_collects_resource_params h m f Hv) as Hone.
    rewrite Hctor, Hst in Hone.
    destruct Hone as (h' & f' & E' & Hv' & Hrp).
    rewrite H1 in E'. injection E' as <-.
    assert (plainSignature h m = Some (signature f)) as Hp
      by (unfold plainSignature; now rewrite Hcell).
    pose proof (fixArgs_here _ _ _ _ H1 Hp) as Hp1.
    pose proof (plainSignature_cell _ _ _ _ Hp1 Hv') as Hcell1.
    destruct (fixArgs_loop_frame m methods h1 h2) as [E _]; [|exact H|].
    { rewrite List.Forall_forall in Hrest |- *. intros x Hx.
      assert (x <> m) as Hxm by (intros ->; contradiction).
      split; [exact Hxm|]. rewrite A1. now apply Hrest. }
    exists f'. split; [|exact Hrp].
    apply cellAt_plain_view. now rewrite E.
  - destruct Hin as [->|Hin]; [contradiction|].
    apply (IH h1 h2 Hnd' Hin); try assumption.
    + rewrite (fixArgs_frame _ _ _ m H1 Hne (Hj Hne)). exact Hcell.
    + eapply List.Forall_impl; [|exact Hrest]. intros x Hx Hxm.
      rewrite A1. now apply Hx.
Qed.

Lemma inherited_resourceParams :
  inherited (fun f => (resourceParams f, hasResourceParams f)).
Proof.
  intros o f f' [= E1 E2]. destruct o as [? ? ? [l|] [b|] ? ? ?]; cbn;
    congruence.
Qed.

End ClassMethods.

(** C4.  When [describeModels] has processed a class that it files as
    a model, one whose constructor has settings and whose method list
    holds objects of the registry, each once: the store that
    [describeClass] returns is the one that the augmenter of lines
    176-217 returns on the methods of the class, the model lists the
    method, and the method accepts the parameters of the shared
    constructor of its class followed by the parameters it declared, in
    that order, when it is an instance method of a class with a shared
    constructor; a static method, and a method whose class has no shared
    constructor, accept what they declared. *)
Theorem ctor_params_prepended_to_instance_method
    (options : Options) (st : State) (c : RestClass) (k : string)
    (m : nat) (f : MethodFields) :
  filedUnder options k c ->
  c_settings c <> None ->
  plainMethods (heap st) (c_methods c) ->
  List.NoDup (c_methods c) ->
  In m (c_methods c) ->
  view (heap st) m = Some f ->
  exists st' methods1 f',
    describeClass options st c = Ok st'
    /\ augmentMethods (heap st) (c_methods c) = Ok (heap st', methods1)
    /\ (c_methods <$> lookupModel (models st') k) = Some methods1
    /\ In m methods1
    /\ view (heap st') m = Some f'
    /\ accepts f'
       = match restClass_ctor f with
         | Some ctor =>
             if isStatic f then accepts f else ctor_accepts ctor ++ accepts f
         | None => accepts f
         end
    /\ isStatic f' = isStatic f
    /\ restClass_ctor f' = restClass_ctor f.
Proof.
  intros Hfiled Hset Hplain Hnd Hin Hv.
  destruct (c_settings c) as [sd|] eqn:Hsd; [clear Hset|contradiction].
  pose proof (Frames.plainMethods_all _ _ Hplain) as Hall.
  destruct (Returns.addCreateMany_returns _ _ Hall)
    as (h1 & methods1 & Hadd & Hall1).
  destruct (AugmenterRuns.augmentMethods_returns _ _ _ _ Hadd Hall1)
    as (h2 & h3 & _ & _ & Haug).
  assert (plainSignature (heap st) m = Some (signature f)) as Hp.
  { unfold plainMethods in Hplain. rewrite List.Forall_forall in Hplain.
    destruct (Hplain m Hin) as [g Hg]. unfold plainSignature. rewrite Hg.
    rewrite (Frames.cellAt_plain_view _ _ _ Hg) in Hv. congruence. }
  destruct (RegistryMethods.registry_method_after_augmenter
              _ _ _ _ _ _ Hnd Hin Hp Haug) as [_ Hsig].
  destruct (ClassMethods.describeClass_filed options st c k sd h3 methods1
              Hfiled Hsd Haug) as (st' & Hd & Hh & Hm).
  destruct (view h3 m) as [f'|] eqn:Hv'; [|discriminate].
  exists st', methods1, f'. rewrite Hh.
  split; [exact Hd|]. split; [exact Haug|]. split; [exact Hm|].
  split.
  { unfold addCreateMany in Hadd.
    destruct (filterR (isCreate (heap st)) (c_methods c)) as [[|m0 [|? ?]]|];
      cbn [mbind Result_bind objectCreate] in Hadd; try discriminate;
      try (injection Hadd as <- <-; exact Hin).
    injection Hadd as _ <-. apply in_or_app. now left. }
  split; [exact Hv'|].
  change (Some (signature f') = Some (effective (signature f))) in Hsig.
  unfold signature, effective in Hsig. injection Hsig as Ha Hs Hc.
  rewrite Ha, Hs, Hc. repeat split.
Qed.

Lemma ctor_params_prepended_to_instance_method_witness :
  exists st' f',
    describeClass (Sample.options "/" false []) (mkState Sample.store [] [])
      (Sample.gadget "Gadget" "Widget") = Ok st'
    /\ view (heap st') 2 = Some f'
    /\ accepts f' = [Sample.argId; Sample.argFk].
Proof.
  destruct (ctor_params_prepended_to_instance_method
              (Sample.options "/" false []) (mkState Sample.store [] [])
              (Sample.gadget "Gadget" "Widget") "Gadget" 2
              (Sample.restMethod "prototype.__findById__widgets" false
                 [Sample.argFk]))
    as (st' & methods1 & f' & Hd & _ & _ & _ & Hv & Ha & _).
  - repeat split. discriminate.
  - discriminate.
  - repeat constructor; eexists; reflexivity.
  - repeat constructor; cbn; intros H; repeat destruct H as [H|H];
      try discriminate; assumption.
  - right. right. left. reflexivity.
  - reflexivity.
  - exists st', f'. split; [exact Hd|]. split; [exact Hv|exact Ha].
Defined.

(** C7, as the code has it.  When [describeModels] has processed a
    class that it files as a model, one whose constructor has settings
    and whose method list holds objects of the registry, each once: the
    resource parameters of an instance method of a class with a shared
    constructor, a method that is not the one named [create], are those
    it had followed by every parameter, of the constructor then of the
    method, that comes from the path and is not named [id], in order,
    and nothing else; the method is marked when the list had to be
    created.  The store is the one that the augmenter of lines 176-217
    returns, after the calls of [fixArgsOfPrototypeMethods] and
    [fixDescription] on every method of the list. *)
Theorem resource_params_of_instance_method
    (options : Options) (st : State) (c : RestClass) (k : string)
    (m : nat) (f : MethodFields) (ctor : Ctor) :
  filedUnder options k c ->
  c_settings c <> None ->
  plainMethods (heap st) (c_methods c) ->
  List.NoDup (c_methods c) ->
  In m (c_methods c) ->
  view (heap st) m = Some f ->
  restClass_ctor f = Some ctor ->
  isStatic f = false ->
  name f <> "create" ->
  exists st' methods1 f',
    describeClass options st c = Ok st'
    /\ augmentMethods (heap st) (c_methods c) = Ok (heap st', methods1)
    /\ (c_methods <$> lookupModel (models st') k) = Some methods1
    /\ In m methods1
    /\ view (heap st') m = Some f'
    /\ match List.filter isResourceParam (ctor_accepts ctor ++ accepts f) with
       | [] =>
           resourceParams f' = resourceParams f
           /\ hasResourceParams f' = hasResourceParams f
       | found =>
           resourceParams f' = Some (default [] (resourceParams f) ++ found)
           /\ hasResourceParams f'
              = match resourceParams f with
                | None => true
                | Some _ => hasResourceParams f
                end
       end.
Proof.
  intros Hfiled Hset Hplain Hnd Hin Hv Hctor Hst Hname.
  destruct (c_settings c) as [sd|] eqn:Hsd; [clear Hset|contradiction].
  assert (List.filter (namedCreate (heap st)) (c_methods c) <> [m]) as Hsingle.
  { intros E.
    assert (In m (List.filter (namedCreate (heap st)) (c_methods c))) as Hm
      by (rewrite E; now left).
    apply List.filter_In in Hm as [_ Hm]. unfold namedCreate in Hm.
    rewrite Hv in Hm. apply String.eqb_eq in Hm. contradiction. }
  destruct (ClassMethods.addCreateMany_plain _ _ _ _ Hplain Hnd Hin Hv Hsingle)
    as (h1 & methods1 & Hadd & Hall1 & Hnd1 & Hin1 & _ & Hcell1 & Hanc1).
  destruct (AugmenterRuns.augmentMethods_returns _ _ _ _ Hadd Hall1)
    as (h2 & h3 & H2 & H3 & Haug).
  destruct (ClassMethods.fixArgs_loop_collects m f ctor methods1 h1 h2
              Hnd1 Hin1 Hcell1 Hctor Hst Hanc1 H2) as (f2 & Hv2 & Hrp).
  pose proof (Kept.loop_projection
                (fun f => (resourceParams f, hasResourceParams f))
                fixDescription
                (Kept.fixDescription_projection _
                   ClassMethods.inherited_resourceParams
                   (fun _ _ => eq_refl))
                methods1 h2 h3 H3 m) as E.
  rewrite Hv2 in E.
  destruct (view h3 m) as [f3|] eqn:Hv3; [|discriminate].
  cbn in E. injection E as E1 E2.
  destruct (ClassMethods.describeClass_filed options st c k sd h3 methods1
              Hfiled Hsd Haug) as (st' & Hd & Hh & Hm).
  exists st', methods1, f3. rewrite Hh.
  split; [exact Hd|]. split; [exact Haug|]. split; [exact Hm|].
  split; [exact Hin1|]. split; [exact Hv3|].
  rewrite E1, E2. exact Hrp.
Qed.

Lemma resource_params_of_instance_method_witness :
  exists st' f',
    describeClass (Sample.options "/" false []) (mkState Sample.store [] [])
      (Sample.gadget "Gadget" "Widget") = Ok st'
    /\ view (heap st') 2 = Some f'
    /\ resourceParams f' = Some [Sample.argFk]
    /\ hasResourceParams f' = true.
Proof.
  destruct (resource_params_of_instance_method
              (Sample.options "/" false []) (mkState Sample.store [] [])
              (Sample.gadget "Gadget" "Widget") "Gadget" 2
              (Sample.restMethod "prototype.__findById__widgets" false
                 [Sample.argFk]) Sample.sharedCtor)
    as (st' & methods1 & f' & Hd & _ & _ & _ & Hv & Hr & Hh).
  - repeat split. discriminate.
  - discriminate.
  - repeat constructor; eexists; reflexivity.
  - repeat constructor; cbn; intros H; repeat destruct H as [H|H];
      try discriminate; assumption.
  - right. right. left. reflexivity.
  - reflexivity.
  - reflexivity.
  - reflexivity.
  - discriminate.
  - exists st', f'. split; [exact Hd|]. split; [exact Hv|].
    split; [exact Hr|exact Hh].
Defined.

(** X16.  [describeModels] returns when every class of the registry
    has a name that is not empty, a constructor with settings, and
    lists objects of the store only, none of them a method of a
    relation named like a member of [Object.prototype], and when the
    formatted name of every class that has a shared constructor and is
    not ignored is not [__proto__] and is a key of [app.models]. *)
Theorem describeModels_returns (app : App) (options : Options) (h : Heap) :
  Forall (fun c => c_name c <> ""
                   /\ c_settings c <> None
                   /\ allMethods h (c_methods c)
                   /\ Forall (ownRelation h) (c_methods c))
    (classes app) ->
  (forall c k,
     In c (classes app) ->
     c_ctor c <> None ->
     getFormattedModelName (c_name c) options = Ok k ->
     ignored options k = false ->
     k <> "__proto__" /\ is_Some (app_models app !! k)) ->
  exists t st, describeModels app options h = (t, Ok st).
Proof.
  intros Hreg Hmodels. unfold describeModels.
  destruct (Returns.collect_returns options (classes app) (mkState h [] []))
    as [st0 Hc].
  { eapply List.Forall_impl; [|exact Hreg]. cbn [heap]. tauto. }
  fold (collectModels app options h) in Hc. rewrite Hc.
  assert (forall j, listed st0 j ->
            is_Some (view (heap st0) j) /\ ownRelation (heap st0) j) as VO.
  { intros j (k & methods & Hk & Hj).
    pose proof (Kept.collect_own options (classes app) (mkState h [] []) st0)
      as D.
    specialize (D (fun k' ms' (Hk' : methodsOf (mkState h [] []) k' = Some ms')
                   => ltac:(discriminate))).
    assert (Forall (fun c => allMethods h (c_methods c)
                             /\ Forall (ownRelation h) (c_methods c))
              (classes app)) as Hreg'
      by (eapply List.Forall_impl; [|exact Hreg]; cbn; tauto).
    specialize (D Hreg' Hc k methods Hk).
    rewrite List.Forall_forall in D. now apply D. }
  assert (forall j, listed st0 j -> is_Some (view (heap st0) j)) as V0
    by (intros j Hj; now apply VO).
  assert (forall j, listed st0 j -> ownRelation (heap st0) j) as O0
    by (intros j Hj; now apply VO).
  assert (forall k, In k (map fst (models st0)) ->
                    is_Some (app_models app !! k)) as A0.
  { intros k Hk. apply ModelFacts.lookup_keys in Hk as [c Hk].
    destruct (Collection.collect_entries options (classes app) (classes app)
                (mkState h [] []) st0 (incl_refl _)
                (fun k' c' H => ltac:(discriminate)) Hc k c Hk)
      as (c0 & Hin & Hn & Hi & _ & _ & Hctor & _).
    now apply (Hmodels c0 k). }
  destruct (Returns.run_returns app options st0 (map fst (models st0)) st0
              V0 O0 A0) as (t & st1 & Hb & _ & [K _]).
  { split; [apply Growth.grownFrom_refl|apply ScopeRuns.sameShape_refl]. }
  { apply incl_refl. }
  fold (buildScopes app options st0) in Hb. rewrite Hb.
  destruct (includeSchema options); [|eauto].
  pose proof (Schemas.loop_throws app (models st1) (map fst (models st1))
                (models st1) []) as Hthrow.
  unfold buildSchemas.
  destruct (forEachR (buildSchemaOf app) (map fst (models st1)) (models st1))
    as [ms|e] eqn:Hs; cbn [mbind Result_bind]; [eauto|].
  destruct (Hthrow e (Schemas.schemasDone_init app (models st1))
              (incl_refl _) eq_refl) as (_ & k & Hk & Hnone).
  rewrite K in Hk. destruct (A0 k Hk) as [am Ham]. congruence.
Qed.

Module Missing.

Import HeapFacts ModelFacts StoreFacts ScopeSteps ScopeRuns Growth GrowthRuns
  DerivedRuns Returns.

Lemma forEachT_reaches {A S E} (f : S -> A -> Result (E * S))
    (I : S -> Prop) :
  (forall s x e s1, I s -> f s x = Ok (e, s1) -> I s1) ->
  forall l s t s',
    I s -> forEachT f l s = (t, Ok s') ->
    forall x, In x l -> exists sx e s1, I sx /\ f sx x = Ok (e, s1).
Proof.
  intros Hstep. induction l as [|y l IH]; intros s t s' Hs H x Hx;
    [contradiction|].
  cbn [forEachT] in H.
  destruct (f s y) as [[e s1]|err] eqn:Hf; [|discriminate].
  destruct (forEachT f l s1) as [t1 r1] eqn:Hrec. injection H as <- ->.
  destruct Hx as [->|Hx]; [exists s, e, s1; auto|].
  apply (IH s1 t1 s'); [eapply Hstep; eauto|exact Hrec|exact Hx].
Qed.

Section MissingModel.

Variables (app : App) (options : Options) (st0 : State) (M s : string)
  (m : nat).
Hypothesis Hexp : exposable options st0 M s m.
Hypothesis Hnone : app_models app !! M = None.

Lemma target_found x c' :
  sameShape st0 x ->
  lookupModel (models x) M = Some c' ->
  exists t tn T,
    targetClassOf c' s = Some t
    /\ getFormattedModelName t options = Ok tn
    /\ findModelByName (models x) (Some tn) = Ok (Some T).
Proof.
  intros [K R] Hc'.
  destruct Hexp as (c & f & op & t & tn & T & Hc & _ & _ & _ & Ht & Hn & HT).
  exists t, tn, T. split; [|split; [exact Hn|]].
  - rewrite <- Ht. apply targetClassOf_relations.
    specialize (R M). unfold modelRelations in R. rewrite Hc, Hc' in R.
    cbn in R. congruence.
  - now rewrite (findModelByName_keys _ _ _ K).
Qed.

Lemma step_blank x y o x1 :
  sameShape st0 x ->
  blank x M s ->
  buildScopeMethod app options x M y = Ok (o, x1) ->
  blank x1 M s.
Proof.
  intros Sh (c & sc & Hc & Hsc & Hnd & Hs) H.
  assert (blank x M s) as Hsame by (exists c, sc; auto).
  unfold buildScopeMethod, readMethod in H. rewrite Hc in H.
  cbn [ofOption mbind Result_bind] in H.
  destruct (view (heap x) y) as [f|]; [|discriminate].
  cbn [ofOption mbind Result_bind] in H.
  destruct (scope_method_match (name f)) as [[op s1]|];
    [|now injection H as <- <-].
  destruct (targetClassOf c s1) as [t1|] eqn:Ht1.
  - destruct (getFormattedModelName t1 options) as [tn1|] eqn:Hn1;
      [|discriminate].
    cbn [mbind Result_bind] in H. rewrite Hsc in H.
    cbn [ofOption mbind Result_bind] in H.
    destruct (sc !! s1) as [[d|]|] eqn:Hs1.
    + exfalso. apply (Hnd s1). now exists d.
    + now injection H as <- <-.
    + destruct (inheritedKey s1).
      { destruct (exposeScopeMethod x M y op s1 (Some tn1)) as [x2|] eqn:Hex;
          [|discriminate].
        destruct (Expose.exposeScopeMethod_entry _ _ _ _ _ _ _ sc Hex)
          as [d Hd]; [|congruence].
        unfold scopesOf, modelScopes. rewrite Hc. exact Hsc. }
      destruct (findModelByName (models x) (Some tn1)) as [[T1|]|] eqn:HT1;
        [| |discriminate]; cbn [mbind Result_bind] in H.
      * rewrite Hnone in H. discriminate.
      * injection H as <- <-.
        exists (with_scopes (<[s1 := None]> sc) c), (<[s1 := None]> sc).
        cbn [models]. unfold setScope.
        rewrite lookup_updModel, String.eqb_refl, Hc. cbn. rewrite Hsc. cbn.
        split; [reflexivity|]. split; [reflexivity|]. split.
        -- intros s2 [d Hd]. rewrite lookup_insert in Hd.
           case_decide; [discriminate|]. apply (Hnd s2). now exists d.
        -- rewrite lookup_insert_ne; [exact Hs|]. intros ->.
           destruct (target_found x c Sh Hc) as (t & tn & T & Ht & Hn & HT).
           congruence.
  - cbn [mbind Result_bind] in H. rewrite Hsc in H.
    cbn [ofOption mbind Result_bind] in H.
    destruct (sc !! s1) as [[d|]|] eqn:Hs1.
    + exfalso. apply (Hnd s1). now exists d.
    + now injection H as <- <-.
    + destruct (inheritedKey s1); [|now injection H as <- <-].
      destruct (exposeScopeMethod x M y op s1 None) as [x2|] eqn:Hex;
        [|discriminate].
      destruct (Expose.exposeScopeMethod_entry _ _ _ _ _ _ _ sc Hex)
        as [d Hd]; [|congruence].
      unfold scopesOf, modelScopes. rewrite Hc. exact Hsc.
Qed.

Lemma step_throws x :
  betweenModels st0 x ->
  blank x M s ->
  exists e, buildScopeMethod app options x M m = Throw e.
Proof.
  intros [G Sh] (c' & sc & Hc' & Hsc & _ & Hs).
  destruct (target_found x c' Sh Hc') as (t & tn & T & Ht & Hn & HT).
  destruct Hexp as (c & f & op & _ & _ & _ & _ & _ & Hf & Hm & _).
  destruct (keeps_view _ _ _ _ G Hf) as (f' & Hf' & E).
  apply butInternal_name in E.
  unfold buildScopeMethod, readMethod. rewrite Hc', Hf'.
  cbn [ofOption mbind Result_bind]. rewrite E, Hm, Ht, Hn.
  cbn [mbind Result_bind]. rewrite Hsc.
  cbn [ofOption mbind Result_bind]. rewrite Hs.
  destruct (inheritedKey s).
  - destruct (exposeScopeMethod x M m op s (Some tn)) as [x2|e] eqn:Hex;
      [|cbn; eauto].
    destruct (Expose.exposeScopeMethod_entry _ _ _ _ _ _ _ sc Hex)
      as [d Hd]; [|congruence].
    unfold scopesOf, modelScopes. rewrite Hc'. exact Hsc.
  - rewrite HT. cbn [mbind Result_bind]. rewrite Hnone. cbn. eauto.
Qed.

Lemma callback_stuck x y e x1 :
  stuck st0 M s x ->
  callback app options M x y = Ok (e, x1) ->
  stuck st0 M s x1.
Proof.
  intros [[G Sh] B] Hcb.
  pose proof (callback_inv _ _ _ _ _ _ _ Hcb) as [_ Hb].
  split; [split|].
  - eapply grownFrom_trans; [exact G|eapply step_grows; eauto].
  - eapply sameShape_trans; [exact Sh|eapply step_sameShape; eauto].
  - eapply step_blank; eauto.
Qed.

Lemma model_throws x t r :
  betweenModels st0 x ->
  buildScopesOfModel app options x M = (t, r) ->
  exists e, r = Throw e.
Proof.
  intros [G Sh] H. destruct r as [x'|e]; [exfalso|eauto].
  unfold buildScopesOfModel in H.
  destruct (lookupModel (models x) M) as [cM|] eqn:HcM; [|discriminate].
  set (sM := mkState (heap x) (updModel (models x) M (with_scopes ∅))
               (console x)) in *.
  assert (stuck st0 M s sM) as Hinit.
  { split; [split|].
    - eapply grownFrom_trans; [exact G|apply reset_grows].
    - eapply sameShape_trans; [exact Sh|apply reset_shape].
    - exists (with_scopes ∅ cM), ∅. unfold sM. cbn [models].
      rewrite lookup_updModel, String.eqb_refl, HcM.
      split; [reflexivity|]. split; [reflexivity|].
      split; [|apply lookup_empty].
      intros s1 [d Hd]. rewrite lookup_empty in Hd. discriminate. }
  assert (In m (c_methods cM)) as Hm.
  { destruct Hexp as (c & _ & _ & _ & _ & _ & Hc & Hin & _).
    destruct G as (_ & _ & _ & _ & Ms & _).
    destruct (Ms M) as (news & E & _). unfold modelMethods in E.
    rewrite HcM, Hc in E. cbn in E. injection E as ->.
    apply in_or_app. now left. }
  destruct (forEachT_reaches (callback app options M) (stuck st0 M s)
              callback_stuck _ _ _ _ Hinit H m Hm)
    as (sx & e & s1 & [Bx Blx] & Hcb).
  apply callback_inv in Hcb as [_ Hb].
  destruct (step_throws sx Bx Blx) as [err Herr]. congruence.
Qed.

Lemma run_throws keys : forall x t r,
  betweenModels st0 x ->
  In M keys ->
  buildScopesOver app options keys x = (t, r) ->
  exists e, r = Throw e.
Proof.
  induction keys as [|k keys IH]; intros x t r B Hin H; [contradiction|].
  cbn [buildScopesOver] in H.
  destruct (buildScopesOfModel app options x k) as [tk [x1|e]] eqn:Hk.
  - destruct (buildScopesOver app options keys x1) as [t' r'] eqn:Hrec.
    injection H as <- <-.
    destruct (String.eqb_spec k M) as [->|Hne].
    { destruct (model_throws _ _ _ B Hk) as [e He]. discriminate. }
    destruct Hin as [->|Hin]; [contradiction|].
    apply (IH x1 t' r'); [|exact Hin|exact Hrec].
    destruct B as [G Sh]. split.
    + apply (proj2 (model_grows app options st0 x k tk (Ok x1) G Hk) x1 eq_refl).
    + eapply sameShape_trans; [exact Sh|].
      eapply model_sameShape; eauto.
  - injection H as <- <-. eauto.
Qed.

End MissingModel.

End Missing.

(** X17.  When a collected model lists a relation method whose target
    is a collected model, and [app.models] has no entry under the key of
    the model, [describeModels] does not return, it throws: a descriptor
    of that model is only made past line 279, which reads [sharedClass]
    of [undefined], and without a descriptor the call on that method
    comes to line 279 itself. *)
Theorem relation_needs_its_model_in_app_models
    (app : App) (options : Options) (h : Heap) (st0 : State) (M s : string)
    (m : nat) :
  collectModels app options h = Ok st0 ->
  exposable options st0 M s m ->
  app_models app !! M = None ->
  exists t e, describeModels app options h = (t, Throw e).
Proof.
  intros Hc Hexp Hnone. unfold describeModels. rewrite Hc.
  destruct (buildScopes app options st0) as [t r] eqn:Hb.
  unfold buildScopes in Hb.
  destruct (Missing.run_throws app options st0 M s m Hexp Hnone
              (map fst (models st0)) st0 t r)
    as [e ->]; [| |exact Hb|eauto].
  - split; [apply Growth.grownFrom_refl|apply ScopeRuns.sameShape_refl].
  - destruct Hexp as (c & _ & _ & _ & _ & _ & Hc0 & _).
    apply ModelFacts.lookup_keys. eauto.
Qed.

(** ** The further properties on the sample applications *)

Lemma collected_models_come_from_registry_witness :
  exists st c,
    collectModels (Sample.app "gadget" "Widget" "widget")
      (Sample.options "/" false []) Sample.store = Ok st
    /\ lookupModel (models st) "Gadget" = Some c
    /\ exists c0,
        In c0 (classes (Sample.app "gadget" "Widget" "widget"))
        /\ collectedFrom (Sample.options "/" false []) "Gadget" c c0.
Proof.
  eexists _, _. split; [vm_compute; reflexivity|].
  split; [vm_compute; reflexivity|].
  eapply (collected_models_come_from_registry
            (Sample.app "gadget" "Widget" "widget")
            (Sample.options "/" false []) Sample.store);
    vm_compute; reflexivity.
Defined.

Lemma collected_model_is_found_by_its_names_witness :
  exists st,
    collectModels (Sample.app "gadget" "Widget" "widget")
      (Sample.options "/" false []) Sample.store = Ok st
    /\ exists k',
        findModelByName (models st) (Some "GADGET") = Ok (Some k')
        /\ JsString.toLowerCase k' = JsString.toLowerCase "Gadget".
Proof.
  eexists. split; [vm_compute; reflexivity|].
  refine (proj2 (collected_model_is_found_by_its_names
                   (Sample.app "gadget" "Widget" "widget")
                   (Sample.options "/" false []) Sample.store _ "Gadget" _
                   _ _) "GADGET" _);
    vm_compute; reflexivity.
Defined.

Lemma scope_resolution_keeps_the_methods_witness :
  exists t st',
    buildScopes (Sample.app "Gadget" "Widget" "Widget")
      (Sample.options "/" false []) Sample.resolved = (t, Ok st')
    /\ console st' = console Sample.resolved
    /\ (exists f',
          view (heap st') 1 = Some f'
          /\ f_set_internal JsUndefined f'
             = Sample.restMethod "prototype.__get__widgets" false
                 [Sample.argFilter])
    /\ Forall (newObjectsUnmatched 6) t.
Proof.
  eexists _, _. split; [vm_compute; reflexivity|].
  destruct (scope_resolution_keeps_the_methods
              (Sample.app "Gadget" "Widget" "Widget")
              (Sample.options "/" false []) Sample.resolved _ _
              ltac:(vm_compute; reflexivity))
    as (_ & Hc & Hold & _ & Ht).
  split; [exact Hc|]. split; [|exact Ht].
  apply (Hold 1 (Sample.restMethod "prototype.__get__widgets" false
                   [Sample.argFilter])).
  reflexivity.
Defined.

Lemma scope_resolution_continues_method_lists_witness :
  exists t st' news,
    buildScopes (Sample.app "Gadget" "Widget" "Widget")
      (Sample.options "/" false []) Sample.resolved = (t, Ok st')
    /\ methodsOf st' "Widget" = (fun l => l ++ news) <$> Some [5]
    /\ Forall (fun j => 6 <= j < length (heap st')) news.
Proof.
  eexists _, _.
  destruct (scope_resolution_continues_method_lists
              (Sample.app "Gadget" "Widget" "Widget")
              (Sample.options "/" false []) Sample.resolved _ _ "Widget"
              ltac:(vm_compute; reflexivity))
    as (_ & news & Hm & Hn).
  exists news. split; [vm_compute; reflexivity|]. split; [exact Hm|exact Hn].
Defined.

Lemma added_methods_are_made_from_relation_methods_witness :
  exists t st' m,
    buildScopes (Sample.app "Gadget" "Widget" "Widget")
      (Sample.options "/" false []) Sample.resolved = (t, Ok st')
    /\ madeFrom Sample.resolved (heap st') 11 m.
Proof.
  eexists _, _.
  destruct (added_methods_are_made_from_relation_methods
              (Sample.app "Gadget" "Widget" "Widget")
              (Sample.options "/" false []) Sample.resolved _ _ 11
              ltac:(vm_compute; reflexivity)
              ltac:(vm_compute; lia))
    as [m Hm].
  exists m. split; [vm_compute; reflexivity|exact Hm].
Defined.

Lemma createMany_twins_follow_the_reverse_name_witness :
  exists st',
    exposeScopeMethod Demo.withCreated "Gadget" 1 "get" "created"
      (Some "Widget") = Ok st'
    /\ methodsOf st' "Widget" = Some [5; 6; 7]
    /\ (name <$> view (heap st') 7) = Some "::get::Gadget::createManyd"
    /\ (isReturningArray <$> view (heap st') 9) = Some true
    /\ scopesOf st' "Gadget"
       = Some (<[ "created" :=
                   Some (mkScope (<[ "createManyd" := 9 ]>
                                    (<[ "created" := 8 ]> ∅))
                           (Some "Widget")) ]>
                 {[ "created" := Some (mkScope ∅ (Some "Widget")) ]}).
Proof.
  pose proof (createMany_twins_follow_the_reverse_name Demo.withCreated
                "Gadget" 1
                (Sample.restMethod "prototype.__get__widgets" false
                   [Sample.argFilter])
                "get" "created" (Some "Widget")
                {[ "created" := Some (mkScope ∅ (Some "Widget")) ]}
                (mkScope ∅ (Some "Widget")) "Widget") as H.
  destruct H as (st' & Hex & _ & Htw); try (vm_compute; reflexivity).
  change (JsString.contains "create"
            (reverseNameOf "get" "Gadget" "created")) with true in Htw.
  destruct Htw as (Hm & Hv1 & _ & Hv3 & Hsc).
  exists st'. split; [exact Hex|]. split; [exact Hm|].
  split; [exact (f_equal (fmap name) Hv1)|].
  split; [exact (f_equal (fmap isReturningArray) Hv3)|exact Hsc].
Defined.

Lemma create_relation_gets_createMany_witness :
  exists st' d',
    exposeScopeMethod Sample.resolved "Gadget" 3 "create" "widgets"
      (Some "Widget") = Ok st'
    /\ methodsOf st' "Widget" = Some [5; 6; 7]
    /\ (name <$> view (heap st') 7) = Some "::createMany::Gadget::widgets"
    /\ (internal <$> view (heap st') 7)
       = Some (JsString "Use Gadget.widgets.createMany() instead.")
    /\ scopesOf st' "Gadget"
       = Some (<[ "widgets" := Some d' ]>
                 {[ "widgets" := Some (mkScope ∅ (Some "Widget")) ]})
    /\ sd_methods d' !! "widgets.create" = Some 8
    /\ sd_methods d' !! "widgets.createMany" = Some 9.
Proof.
  pose proof (create_relation_gets_createMany Sample.resolved "Gadget" 3
                (Sample.restMethod "prototype.__create__widgets" false
                   [Sample.argData])
                "widgets" (Some "Widget")
                {[ "widgets" := Some (mkScope ∅ (Some "Widget")) ]}
                (mkScope ∅ (Some "Widget")) "Widget") as H.
  destruct H as (st' & d' & Hex & Hm & Hv1 & Hsc & Hc & Hcm & _);
    try (vm_compute; reflexivity).
  exists st', d'. split; [exact Hex|]. split; [exact Hm|].
  split; [exact (f_equal (fmap name) Hv1)|].
  split; [exact (f_equal (fmap internal) Hv1)|].
  split; [exact Hsc|]. split; [exact Hc|exact Hcm].
Defined.

Lemma namespaced_common_names_follow_the_delimiter_witness :
  exists d,
    Forall (fun n => hasDot n = true) (commonNames d)
    /\ forall (render : string -> RenderData -> Result string)
              (transform : string -> Result string),
         snd (generateServices (Ok "template") render transform
                (Sample.app "Gadget" "Widget" "Widget") Demo.dotted
                Sample.store)
         = match render "template" d with
           | Throw e => Throw e
           | Ok sdk =>
               match transform sdk with
               | Ok code => Ok code
               | Throw e => Throw (PlainError (errorMessage e))
               end
           end.
Proof.
  destruct (namespaced_common_names_follow_the_delimiter "template"
              (Sample.app "Gadget" "Widget" "Widget") Demo.dotted
              Sample.store
              (fst (describeModels (Sample.app "Gadget" "Widget" "Widget")
                      Demo.dotted Sample.store))
              (Sample.stateAfter
                 (describeModels (Sample.app "Gadget" "Widget" "Widget")
                    Demo.dotted Sample.store)))
    as (d & F & H).
  - vm_compute. reflexivity.
  - reflexivity.
  - discriminate.
  - reflexivity.
  - exists d. split; [exact F|exact H].
Defined.

Lemma describeModels_returns_witness :
  exists t st,
    describeModels (Sample.app "Gadget" "Widget" "Widget")
      (Sample.options "/" false []) Sample.store = (t, Ok st).
Proof.
  assert (forall m, ownRelation Sample.store m) as Hown.
  { intros m f op s Hv Hm.
    do 6 (destruct m as [|m];
          [vm_compute in Hv; injection Hv as <-; vm_compute in Hm;
           first [discriminate|injection Hm as <- <-; reflexivity]|]).
    vm_compute in Hv. discriminate. }
  apply describeModels_returns.
  - repeat (constructor;
            [split; [discriminate|]; split; [discriminate|]; split;
             [repeat (constructor; [eexists; vm_compute; reflexivity|]);
              constructor
             |apply List.Forall_forall; intros m _; apply Hown]|]).
    constructor.
  - intros c k [<-|[<-|[<-|[]]]] Hctor [= <-] _;
      try (split; [discriminate|eexists; vm_compute; reflexivity]).
    exfalso. apply Hctor. reflexivity.
Defined.

Lemma descriptions_are_never_arrays_witness :
  exists t st,
    describeModels (Sample.app "Gadget" "Widget" "Widget")
      (Sample.options "/" false []) Sample.store = (t, Ok st)
    /\ described (heap st) 13.
Proof.
  eexists _, _. split; [vm_compute; reflexivity|].
  eapply (descriptions_are_never_arrays
            (Sample.app "Gadget" "Widget" "Widget")
            (Sample.options "/" false []) Sample.store _ _ 13).
  - vm_compute. reflexivity.
  - exists "Widget", [5; 7; 8; 10; 12; 13].
    split; [vm_compute; reflexivity|]. do 5 right. now left.
Defined.

Lemma relation_needs_its_model_in_app_models_witness :
  exists t e,
    describeModels Demo.orphanApp (Sample.options "/" false []) Sample.store
    = (t, Throw e).
Proof.
  eapply (relation_needs_its_model_in_app_models Demo.orphanApp
            (Sample.options "/" false []) Sample.store _ "Gadget" "widgets" 1).
  - vm_compute. reflexivity.
  - eexists _, _, _, _, _, _.
    split; [vm_compute; reflexivity|].
    split; [right; left; reflexivity|].
    split; [vm_compute; reflexivity|].
    split; [vm_compute; reflexivity|].
    split; [vm_compute; reflexivity|].
    split; vm_compute; reflexivity.
  - vm_compute. reflexivity.
Defined.

Module LastWins.

Import ModelFacts.

Lemma describeClass_files options st c0 st' k :
  describeClass options st c0 = Ok st' ->
  filedUnder options k c0 ->
  exists c, lookupModel (models st') k = Some c /\ collectedFrom options k c c0.
Proof.
  intros H (Hctor & Hn & Hi). unfold describeClass in H. rewrite Hn in H.
  cbn [mbind Result_bind] in H.
  destruct (c_settings c0) as [sd|] eqn:Hsd; [|discriminate].
  cbn [ofOption mbind Result_bind] in H. rewrite Hi in H.
  cbn [with_description c_ctor c_methods] in H.
  destruct (c_ctor c0) as [ctor|] eqn:Ec; [|contradiction].
  destruct (augmentMethods _ _) as [[h3 ms]|]; [|discriminate].
  cbn [mbind Result_bind] in H. injection H as <-. cbn [models].
  rewrite lookup_setModel, String.eqb_refl. eexists. split; [reflexivity|].
  unfold collectedFrom, c_settingsDescription. rewrite Hsd.
  repeat split; try assumption. cbn. now rewrite Ec.
Qed.

Lemma describeClass_elsewhere options st c1 st' k :
  describeClass options st c1 = Ok st' ->
  ~ filedUnder options k c1 ->
  lookupModel (models st') k = lookupModel (models st) k.
Proof.
  intros H Hnot. unfold describeClass in H.
  destruct (getFormattedModelName (c_name c1) options) as [name|] eqn:Hn;
    [|discriminate].
  cbn [mbind Result_bind] in H.
  destruct (c_settings c1) as [sd|] eqn:Hsd; [|discriminate].
  cbn [ofOption mbind Result_bind] in H.
  destruct (ignored options name) eqn:Hi; [now injection H as <-|].
  cbn [with_description c_ctor c_methods] in H.
  destruct (c_ctor c1) as [ctor|] eqn:Ec; [|now injection H as <-].
  destruct (augmentMethods _ _) as [[h3 ms]|]; [|discriminate].
  cbn [mbind Result_bind] in H. injection H as <-. cbn [models].
  rewrite lookup_setModel.
  destruct (String.eqb_spec k name) as [->|]; [|reflexivity].
  exfalso. apply Hnot. repeat split; try assumption. now rewrite Ec.
Qed.

Lemma after_elsewhere options k after : forall st st',
  Forall (fun c => ~ filedUnder options k c) after ->
  forEachR (describeClass options) after st = Ok st' ->
  lookupModel (models st') k = lookupModel (models st) k.
Proof.
  induction after as [|c1 after IH]; intros st st' Hall H.
  - now injection H as <-.
  - cbn [forEachR mbind Result_bind] in H.
    destruct (describeClass options st c1) as [st1|] eqn:H1; [|discriminate].
    inversion Hall as [|? ? Hc1 Hrest]; subst.
    rewrite (IH st1 st' Hrest H).
    eapply describeClass_elsewhere; eauto.
Qed.

End LastWins.

(** X18.  When several classes of the registry are filed under the same
    key, the model map holds the last of them: the class under a key is
    made from the class of the registry that no later class of that key
    follows. *)
Theorem last_class_of_a_key_wins
    (app : App) (options : Options) (h : Heap) (st : State)
    (before after : list RestClass) (c0 : RestClass) (k : string) :
  classes app = before ++ c0 :: after ->
  collectModels app options h = Ok st ->
  filedUnder options k c0 ->
  Forall (fun c => ~ filedUnder options k c) after ->
  exists c, lookupModel (models st) k = Some c /\ collectedFrom options k c c0.
Proof.
  intros Hcl Hrun Hc0 Hafter. unfold collectModels in Hrun.
  rewrite Hcl, forEachR_app in Hrun.
  destruct (forEachR (describeClass options) before (mkState h [] []))
    as [s1|]; [|discriminate].
  cbn [mbind Result_bind forEachR] in Hrun.
  destruct (describeClass options s1 c0) as [s2|] eqn:H0; [|discriminate].
  destruct (LastWins.describeClass_files _ _ _ _ _ H0 Hc0) as (c & Hc & Hfrom).
  exists c. split; [|exact Hfrom].
  rewrite (LastWins.after_elsewhere options k after s2 st Hafter Hrun).
  exact Hc.
Qed.

Lemma last_class_of_a_key_wins_witness :
  exists st c,
    collectModels (Sample.app "widget" "x" "Widget")
      (Sample.options "/" false []) Sample.store = Ok st
    /\ lookupModel (models st) "Widget" = Some c
    /\ collectedFrom (Sample.options "/" false []) "Widget" c
         (Sample.widget "Widget").
Proof.
  eexists _.
  destruct (last_class_of_a_key_wins (Sample.app "widget" "x" "Widget")
              (Sample.options "/" false []) Sample.store _
              [Sample.gadget "widget" "x"] [Sample.internalClass]
              (Sample.widget "Widget") "Widget" eq_refl
              ltac:(vm_compute; reflexivity))
    as (c & Hc & Hfrom).
  - split; [discriminate|split; reflexivity].
  - constructor; [|constructor]. intros (Hctor & _). now apply Hctor.
  - exists c. split; [vm_compute; reflexivity|]. split; assumption.
Defined.
